(** * mini_crm: the lead distribution engine of [app/services.py]

    A shallow embedding of the service layer of the mini-CRM
    ([app/models.py], [app/schemas.py], [app/services.py]) and the
    properties of operator selection, workload tracking, lead resolution
    and the contact life cycle.

    The relational store behind the SQLAlchemy session is a record of
    tables, each table a list of rows in insertion order.  A query
    [filter(...).all()] is [filter], [filter(...).first()] is [find],
    [filter(...).count()] is the length of the filtered table.  Python
    integers are [Z]; text columns are [string]; nullable columns are
    [option].  The two inputs that the services take from the outside
    world, the clock ([datetime.utcnow()]) and the generator behind
    [random.choice], are explicit arguments. *)

From Stdlib Require Import ZArith List String Bool Lia DecimalString QArith.
Import ListNotations.

Local Open Scope string_scope.
Local Open Scope Z_scope.

(** ** Python values *)

(** [f"{n}"] for an integer. *)
Definition str_of_int (n : Z) : string := NilZero.string_of_int (Z.to_int n).

(** Truth value of an optional string: [None] and [""] are falsy. *)
Definition truthy_str (s : option string) : bool :=
  match s with
  | None => false
  | Some v => negb (v =? "")%string
  end.

(** Truth value of a nullable boolean column. *)
Definition truthy_bool (b : option bool) : bool :=
  match b with
  | Some true => true
  | _ => false
  end.

(** SQL comparison of a nullable integer column with a value. *)
Definition col_eqb (c : option Z) (v : Z) : bool :=
  match c with
  | Some x => x =? v
  | None => false
  end.

(** Truth value of an optional object: [None] is falsy. *)
Definition is_some {A} (o : option A) : bool :=
  match o with
  | Some _ => true
  | None => false
  end.

(** [sep.join(parts)]. *)
Definition join (sep : string) (parts : list string) : string :=
  String.concat sep parts.

(** [sum(...)] over integers. *)
Definition sum (l : list Z) : Z := fold_right Z.add 0 l.

(** ** models.py *)

Module Operator.
Record t := mk {
  id : Z;
  name : string;
  is_active : bool;
  max_active_contacts : Z;
  created_at : option Z
}.
End Operator.

Module Source.
Record t := mk {
  id : Z;
  name : string;
  code : string;
  description : option string;
  is_active : option bool;
  created_at : option Z
}.
End Source.

Module OperatorSourceAssignment.
Record t := mk {
  id : Z;
  operator_id : Z;
  source_id : Z;
  weight : Z
}.
End OperatorSourceAssignment.

Module Lead.
Record t := mk {
  id : Z;
  external_id : string;
  name : option string;
  phone : option string;
  email : option string;
  created_at : option Z
}.
End Lead.

Module Contact.
Record t := mk {
  id : Z;
  lead_id : Z;
  source_id : Z;
  operator_id : option Z;
  status : string;
  message : option string;
  created_at : option Z;
  assigned_at : option Z;
  closed_at : option Z
}.
End Contact.

(** The store seen through a [Session]. *)
Record Session := mkSession {
  operators : list Operator.t;
  sources : list Source.t;
  assignments : list OperatorSourceAssignment.t;
  leads : list Lead.t;
  contacts : list Contact.t
}.

(** ** schemas.py *)

Module AssignmentCreate.
Record t := mk {
  operator_id : Z;
  source_id : Z;
  weight : Z
}.
End AssignmentCreate.

Module ContactCreate.
Record t := mk {
  lead_external_id : string;
  source_code : string;
  message : option string;
  lead_name : option string;
  lead_phone : option string;
  lead_email : option string
}.
End ContactCreate.

(** ** Exceptions, results and the session monad *)

Inductive exn :=
| ValueError (msg : string)
| AttributeError
| IndexError
| ZeroDivisionError.

Inductive result (A : Type) :=
| Ok (a : A)
| Raise (e : exn).
Arguments Ok {A} a.
Arguments Raise {A} e.

Definition rbind {A B} (r : result A) (k : A -> result B) : result B :=
  match r with
  | Ok a => k a
  | Raise e => Raise e
  end.

(** A service call runs against the session: it returns a value or raises,
    and leaves the store in some state either way. *)
Definition M (A : Type) : Type := Session -> result A * Session.

Definition ret {A} (a : A) : M A := fun db => (Ok a, db).
Definition raise {A} (e : exn) : M A := fun db => (Raise e, db).
Definition bind {A B} (m : M A) (k : A -> M B) : M B :=
  fun db =>
    match m db with
    | (Ok a, db') => k a db'
    | (Raise e, db') => (Raise e, db')
    end.
Definition query {A} (q : Session -> A) : M A := fun db => (Ok (q db), db).
Definition lift {A} (q : Session -> result A) : M A := fun db => (q db, db).
Definition commit (f : Session -> Session) : M unit := fun db => (Ok tt, f db).

Declare Scope session_scope.
Delimit Scope session_scope with session.
Notation "x <- m ;; k" := (bind m (fun x => k))
  (at level 100, m at next level, right associativity) : session_scope.
Notation "' p <- m ;; k" := (bind m (fun x => match x with p => k end))
  (at level 100, p pattern, m at next level, right associativity)
  : session_scope.
Notation "m ;;; k" := (bind m (fun _ => k))
  (at level 100, right associativity) : session_scope.
Notation "x <~ r ;; k" := (rbind r (fun x => k))
  (at level 100, r at next level, right associativity) : session_scope.

(** New primary key of a row added to a table (SQLite rowid). *)
Definition next_id (ids : list Z) : Z := 1 + fold_right Z.max 0 ids.

(** [random.choice(seq)]: [seq[randbelow(len(seq))]], [IndexError] on an
    empty sequence.  [r] is the raw draw of the generator. *)
Definition random_choice {A} (r : nat) (seq : list A) : result A :=
  match seq with
  | [] => Raise IndexError
  | x :: _ => Ok (nth (r mod List.length seq)%nat seq x)
  end.

(** ** OperatorService *)

Definition active_statuses : list string := ["new"; "in_progress"].

Definition status_in (statuses : list string) (c : Contact.t) : bool :=
  existsb (String.eqb (Contact.status c)) statuses.

Definition get_active_contacts_count (db : Session) (operator_id : Z) : Z :=
  Z.of_nat (List.length (filter
    (fun c => col_eqb (Contact.operator_id c) operator_id
              && status_in active_statuses c)
    (contacts db))).

Definition operator_get_by_id (db : Session) (operator_id : Z)
  : option Operator.t :=
  find (fun o => Operator.id o =? operator_id) (operators db).

(** ** SourceService *)

Definition get_by_code (db : Session) (code : string) : option Source.t :=
  find (fun s => (Source.code s =? code)%string) (sources db).

Definition source_get_by_id (db : Session) (source_id : Z)
  : option Source.t :=
  find (fun s => Source.id s =? source_id) (sources db).

(** ** AssignmentService *)

Definition same_pair (operator_id source_id : Z)
  (a : OperatorSourceAssignment.t) : bool :=
  (OperatorSourceAssignment.operator_id a =? operator_id)
  && (OperatorSourceAssignment.source_id a =? source_id).

Definition set_weight (w : Z) (a : OperatorSourceAssignment.t)
  : OperatorSourceAssignment.t :=
  OperatorSourceAssignment.mk
    (OperatorSourceAssignment.id a)
    (OperatorSourceAssignment.operator_id a)
    (OperatorSourceAssignment.source_id a)
    w.

(** [db.commit()] after a change of [row]: [UPDATE ... WHERE id = row.id]. *)
Definition update_assignment (row : OperatorSourceAssignment.t)
  (db : Session) : Session :=
  mkSession (operators db) (sources db)
    (map (fun a => if OperatorSourceAssignment.id a
                      =? OperatorSourceAssignment.id row
                   then row else a) (assignments db))
    (leads db) (contacts db).

(** [db.add(row); db.commit()]. *)
Definition add_assignment (row : OperatorSourceAssignment.t)
  (db : Session) : Session :=
  mkSession (operators db) (sources db) (assignments db ++ [row])
    (leads db) (contacts db).

Definition create_or_update (data : AssignmentCreate.t)
  : M OperatorSourceAssignment.t :=
  (existing <- query (fun db =>
     find (same_pair (AssignmentCreate.operator_id data)
                     (AssignmentCreate.source_id data)) (assignments db)) ;;
   match existing with
   | Some existing =>
       let existing := set_weight (AssignmentCreate.weight data) existing in
       commit (update_assignment existing) ;;;
       ret existing
   | None =>
       new_id <- query (fun db =>
         next_id (map OperatorSourceAssignment.id (assignments db))) ;;
       let assignment :=
         OperatorSourceAssignment.mk new_id
           (AssignmentCreate.operator_id data)
           (AssignmentCreate.source_id data)
           (AssignmentCreate.weight data) in
       commit (add_assignment assignment) ;;;
       ret assignment
   end)%session.

Definition get_source_operators (db : Session) (source_id : Z)
  : list OperatorSourceAssignment.t :=
  filter (fun a => OperatorSourceAssignment.source_id a =? source_id)
    (assignments db).

(** The endpoint [POST /assignments] of [main.py]: the operator and the
    source must exist before [create_or_update] runs.  The handler catches
    nothing, so an exception of the service would surface as a 500. *)
Inductive http (A : Type) :=
| Http200 (a : A)
| Http404 (detail : string)
| Http500 (e : exn).
Arguments Http200 {A} a.
Arguments Http404 {A} detail.
Arguments Http500 {A} e.

Definition assign_operator_to_source (data : AssignmentCreate.t)
  (db : Session) : http OperatorSourceAssignment.t * Session :=
  match operator_get_by_id db (AssignmentCreate.operator_id data) with
  | None => (Http404 "Оператор не найден", db)
  | Some _ =>
      match source_get_by_id db (AssignmentCreate.source_id data) with
      | None => (Http404 "Источник не найден", db)
      | Some _ =>
          match create_or_update data db with
          | (Ok a, db') => (Http200 a, db')
          | (Raise e, db') => (Http500 e, db')
          end
      end
  end.

(** ** LeadService *)

(** [UPDATE leads ... WHERE id = row.id] and [INSERT INTO leads]. *)
Definition update_lead (row : Lead.t) (db : Session) : Session :=
  mkSession (operators db) (sources db) (assignments db)
    (map (fun l => if Lead.id l =? Lead.id row then row else l) (leads db))
    (contacts db).

Definition add_lead (row : Lead.t) (db : Session) : Session :=
  mkSession (operators db) (sources db) (assignments db)
    (leads db ++ [row]) (contacts db).

(** One of the three [if value and not lead.field] updates: the new value
    of the field and whether it was touched. *)
Definition fill (value current : option string) : option string * bool :=
  if truthy_str value && negb (truthy_str current)
  then (value, true)
  else (current, false).

Definition lead_by_external_id (db : Session) (external_id : string)
  : option Lead.t :=
  find (fun l => (Lead.external_id l =? external_id)%string) (leads db).

Definition get_or_create (external_id : string)
  (name phone email : option string) (now : Z) : M (Lead.t * bool) :=
  (lead <- query (fun db => lead_by_external_id db external_id) ;;
   match lead with
   | Some lead =>
       let '(name', u1) := fill name (Lead.name lead) in
       let '(phone', u2) := fill phone (Lead.phone lead) in
       let '(email', u3) := fill email (Lead.email lead) in
       let updated := u1 || u2 || u3 in
       let lead := Lead.mk (Lead.id lead) (Lead.external_id lead)
                     name' phone' email' (Lead.created_at lead) in
       (if updated then commit (update_lead lead) else ret tt) ;;;
       ret (lead, false)
   | None =>
       new_id <- query (fun db => next_id (map Lead.id (leads db))) ;;
       let lead := Lead.mk new_id external_id name phone email (Some now) in
       commit (add_lead lead) ;;;
       ret (lead, true)
   end)%session.

(** ** DistributionService *)

(** An entry of [available_operators]. *)
Record Available := mkAvailable {
  av_operator : Operator.t;
  av_weight : Z;
  av_current_load : Z
}.

(** The relationship [assignment.operator]: the row of the operators table
    with the assignment's foreign key, [None] when there is none. *)
Definition assignment_operator (db : Session)
  (a : OperatorSourceAssignment.t) : option Operator.t :=
  operator_get_by_id db (OperatorSourceAssignment.operator_id a).

Definition reason_inactive (operator : Operator.t) : string :=
  Operator.name operator ++ ": неактивен".

Definition reason_limit (operator : Operator.t) (current_load : Z) : string :=
  Operator.name operator ++ ": достигнут лимит ("
    ++ str_of_int current_load ++ "/"
    ++ str_of_int (Operator.max_active_contacts operator) ++ ")".

(** The loop over the assignments of the source, with its two
    accumulators.  Reading an attribute of a missing operator raises
    [AttributeError]. *)
Fixpoint filter_available (db : Session)
  (todo : list OperatorSourceAssignment.t)
  (available_operators : list Available)
  (unavailable_reasons : list string)
  : result (list Available * list string) :=
  match todo with
  | [] => Ok (available_operators, unavailable_reasons)
  | assignment :: todo =>
      match assignment_operator db assignment with
      | None => Raise AttributeError
      | Some operator =>
          if negb (Operator.is_active operator) then
            filter_available db todo available_operators
              (unavailable_reasons ++ [reason_inactive operator])
          else
            let current_load :=
              get_active_contacts_count db (Operator.id operator) in
            if current_load >=? Operator.max_active_contacts operator then
              filter_available db todo available_operators
                (unavailable_reasons ++ [reason_limit operator current_load])
            else
              filter_available db todo
                (available_operators ++
                   [mkAvailable operator
                      (OperatorSourceAssignment.weight assignment)
                      current_load])
                unavailable_reasons
      end
  end.

(** [[op_data["operator"]] * op_data["weight"]] for every entry, in order:
    a non-positive weight contributes nothing. *)
Definition weighted_choices (available_operators : list Available)
  : list Operator.t :=
  flat_map (fun op_data =>
              repeat (av_operator op_data) (Z.to_nat (av_weight op_data)))
           available_operators.

Definition total_weight (available_operators : list Available) : Z :=
  sum (map av_weight available_operators).

(** The percentage shown for an entry: [weight*100//total_weight]. *)
Definition percentage (total : Z) (op : Available) : Z :=
  av_weight op * 100 / total.

Definition describe (total : Z) (op : Available) : string :=
  Operator.name (av_operator op) ++ ": вес " ++ str_of_int (av_weight op)
    ++ " (" ++ str_of_int (percentage total op) ++ "%)".

Definition no_assignments_info : string :=
  "Нет операторов, назначенных на данный источник".

Definition no_available_prefix : string :=
  "Нет доступных операторов. Причины: ".

Definition unknown_reason : string := "Неизвестная причина".

Definition reasons_text (unavailable_reasons : list string) : string :=
  match unavailable_reasons with
  | [] => unknown_reason
  | _ => join "; " unavailable_reasons
  end.

Definition selected_info (selected_operator : Operator.t) (total : Z)
  (available_operators : list Available) : string :=
  "Выбран " ++ Operator.name selected_operator ++ " из ["
    ++ join ", " (map (describe total) available_operators) ++ "]".

(** [select_operator].  Its first query is the one of
    [get_source_operators]; [r] is the draw used by [random.choice]. *)
Definition select_operator (db : Session) (source_id : Z) (r : nat)
  : result (option Operator.t * string) :=
  let assignments := get_source_operators db source_id in
  match assignments with
  | [] => Ok (None, no_assignments_info)
  | _ =>
      (filtered <~ filter_available db assignments [] [] ;;
       let '(available_operators, unavailable_reasons) := filtered in
       match available_operators with
       | [] => Ok (None, no_available_prefix
                           ++ reasons_text unavailable_reasons)
       | _ =>
           let total := total_weight available_operators in
           selected_operator <~
             random_choice r (weighted_choices available_operators) ;;
           if total =? 0 then Raise ZeroDivisionError
           else Ok (Some selected_operator,
                    selected_info selected_operator total
                      available_operators)
       end)%session
  end.

(** ** ContactService *)

(** [INSERT INTO contacts] and [UPDATE contacts ... WHERE id = row.id]. *)
Definition add_contact (row : Contact.t) (db : Session) : Session :=
  mkSession (operators db) (sources db) (assignments db) (leads db)
    (contacts db ++ [row]).

Definition update_contact (row : Contact.t) (db : Session) : Session :=
  mkSession (operators db) (sources db) (assignments db) (leads db)
    (map (fun c => if Contact.id c =? Contact.id row then row else c)
       (contacts db)).

Definition contact_get_by_id (db : Session) (contact_id : Z)
  : option Contact.t :=
  find (fun c => Contact.id c =? contact_id) (contacts db).

Definition source_not_found (code : string) : string :=
  "Источник с кодом '" ++ code ++ "' не найден".

Definition source_inactive (code : string) : string :=
  "Источник '" ++ code ++ "' неактивен".

Definition lead_info (is_new_lead : bool) : string :=
  if is_new_lead then "создан новый лид" else "найден существующий лид".

(** [create].  [now] is the value of the clock during the call, used for
    [created_at] and [assigned_at] alike. *)
Definition create (data : ContactCreate.t) (now : Z) (r : nat)
  : M (Contact.t * string) :=
  (source <- query (fun db =>
     get_by_code db (ContactCreate.source_code data)) ;;
   match source with
   | None =>
       raise (ValueError (source_not_found (ContactCreate.source_code data)))
   | Some source =>
       if negb (truthy_bool (Source.is_active source)) then
         raise (ValueError (source_inactive (ContactCreate.source_code data)))
       else
         ' (lead, is_new_lead) <-
           get_or_create (ContactCreate.lead_external_id data)
             (ContactCreate.lead_name data) (ContactCreate.lead_phone data)
             (ContactCreate.lead_email data) now ;;
         ' (operator, distribution_info) <-
           lift (fun db => select_operator db (Source.id source) r) ;;
         new_id <- query (fun db => next_id (map Contact.id (contacts db))) ;;
         let contact :=
           Contact.mk new_id (Lead.id lead) (Source.id source)
             (option_map Operator.id operator)
             (if is_some operator then "new" else "new")
             (ContactCreate.message data)
             (Some now)
             (if is_some operator then Some now else None)
             None in
         commit (add_contact contact) ;;;
         ret (contact, lead_info is_new_lead ++ "; " ++ distribution_info)
   end)%session.

Definition update_status (contact_id : Z) (new_status : string) (now : Z)
  : M (option Contact.t) :=
  (contact <- query (fun db => contact_get_by_id db contact_id) ;;
   match contact with
   | None => ret None
   | Some contact =>
       let contact :=
         Contact.mk (Contact.id contact) (Contact.lead_id contact)
           (Contact.source_id contact) (Contact.operator_id contact)
           new_status (Contact.message contact) (Contact.created_at contact)
           (Contact.assigned_at contact)
           (if (new_status =? "closed")%string then Some now
            else Contact.closed_at contact) in
       commit (update_contact contact) ;;;
       ret (Some contact)
   end)%session.

Definition not_found_info : string := "Обращение не найдено".
Definition closed_info : string := "Нельзя переназначить закрытое обращение".

Definition reassign (contact_id : Z) (now : Z) (r : nat)
  : M (option Contact.t * string) :=
  (contact <- query (fun db => contact_get_by_id db contact_id) ;;
   match contact with
   | None => ret (None, not_found_info)
   | Some contact =>
       if (Contact.status contact =? "closed")%string then
         ret (None, closed_info)
       else
         ' (operator, info) <-
           lift (fun db => select_operator db (Contact.source_id contact) r) ;;
         let contact :=
           Contact.mk (Contact.id contact) (Contact.lead_id contact)
             (Contact.source_id contact)
             (option_map Operator.id operator)
             (Contact.status contact) (Contact.message contact)
             (Contact.created_at contact)
             (if is_some operator then Some now else None)
             (Contact.closed_at contact) in
         commit (update_contact contact) ;;;
         ret (Some contact, info)
   end)%session.

(** ** The data-model constraints of [models.py] and [schemas.py] *)

(** Foreign key [operator_source_assignments.operator_id -> operators.id]
    and the bound [weight >= 1] of [AssignmentCreate]. *)
Definition integrity (db : Session) : bool :=
  forallb (fun a => is_some (assignment_operator db a)
                    && (1 <=? OperatorSourceAssignment.weight a))
          (assignments db).

(** Primary keys of the tables written by the services. *)
Definition assignments_pk (db : Session) : Prop :=
  NoDup (map OperatorSourceAssignment.id (assignments db)).

Definition leads_pk (db : Session) : Prop :=
  NoDup (map Lead.id (leads db)).

(** [UniqueConstraint('operator_id', 'source_id')]. *)
Definition pair_of (a : OperatorSourceAssignment.t) : Z * Z :=
  (OperatorSourceAssignment.operator_id a,
   OperatorSourceAssignment.source_id a).

Definition uq_operator_source (db : Session) : Prop :=
  NoDup (map pair_of (assignments db)).

(** ** Specification-side notions *)

(** An assignment is eligible when its operator is active and under its
    limit. *)
Definition eligible (db : Session) (a : OperatorSourceAssignment.t) : bool :=
  match assignment_operator db a with
  | Some operator =>
      Operator.is_active operator
      && (get_active_contacts_count db (Operator.id operator)
          <? Operator.max_active_contacts operator)
  | None => false
  end.

(** The entry of the eligible set built from an eligible assignment. *)
Definition entry (db : Session) (a : OperatorSourceAssignment.t)
  : option Available :=
  match assignment_operator db a with
  | Some operator =>
      Some (mkAvailable operator (OperatorSourceAssignment.weight a)
              (get_active_contacts_count db (Operator.id operator)))
  | None => None
  end.

Definition entries (db : Session) (l : list OperatorSourceAssignment.t)
  : list Available :=
  flat_map (fun a => match entry db a with
                     | Some e => [e]
                     | None => []
                     end) l.

(** The reason reported for an excluded assignment. *)
Definition exclusion_reason (db : Session) (a : OperatorSourceAssignment.t)
  : string :=
  match assignment_operator db a with
  | Some operator =>
      if Operator.is_active operator
      then reason_limit operator
             (get_active_contacts_count db (Operator.id operator))
      else reason_inactive operator
  | None => ""
  end.

(** The live number of contacts of an operator with status new or
    in_progress. *)
Fixpoint live_count (operator_id : Z) (cs : list Contact.t) : nat :=
  match cs with
  | [] => O
  | c :: cs =>
      match Contact.operator_id c with
      | Some o =>
          if (o =? operator_id)
             && ((Contact.status c =? "new")%string
                 || (Contact.status c =? "in_progress")%string)
          then S (live_count operator_id cs)
          else live_count operator_id cs
      | None => live_count operator_id cs
      end
  end.

(** The discrete weighted draw of the specification: walk the eligible
    set with the cumulative weight and stop at the first entry whose
    cumulative weight exceeds the uniform draw [x] of [0, total). *)
Fixpoint cumulative_select (x : Z) (eligible_set : list Available)
  : option Operator.t :=
  match eligible_set with
  | [] => None
  | e :: rest =>
      if x <? av_weight e then Some (av_operator e)
      else cumulative_select (x - av_weight e) rest
  end.

(** The draws of [random.choice] over [weighted_choices] that select the
    operator with a given id, among the [len(weighted_choices)] equally
    likely ones. *)
Definition favourable (operator_id : Z) (available_operators : list Available)
  : list nat :=
  let choices := weighted_choices available_operators in
  filter (fun r => match random_choice r choices with
                   | Ok o => Operator.id o =? operator_id
                   | Raise _ => false
                   end)
         (seq 0 (List.length choices)).

Definition probability (operator_id : Z) (available_operators : list Available)
  : Q :=
  (inject_Z (Z.of_nat (List.length (favourable operator_id available_operators)))
   / inject_Z (Z.of_nat (List.length (weighted_choices available_operators))))%Q.

(** The foreign key of one assignment resolves. *)
Definition has_operator (db : Session) (a : OperatorSourceAssignment.t)
  : Prop := is_some (assignment_operator db a) = true.

(** ** Example stores

    The fixture of [TestContacts.setup_method]: two operators with limit 2
    on the source "telegram", with weights 10 and 30. *)

Definition op1 : Operator.t := Operator.mk 1 "Оператор 1" true 2 (Some 0).
Definition op2 : Operator.t := Operator.mk 2 "Оператор 2" true 2 (Some 0).
Definition telegram : Source.t :=
  Source.mk 1 "Telegram" "telegram" None (Some true) (Some 0).

Definition demo_db : Session :=
  mkSession [op1; op2] [telegram]
    [OperatorSourceAssignment.mk 1 1 1 10;
     OperatorSourceAssignment.mk 2 2 1 30]
    [] [].

Definition new_contact (id lead operator : Z) : Contact.t :=
  Contact.mk id lead 1 (Some operator) "new" None (Some 0) (Some 0) None.

(** The first operator switched off, the second one at its limit. *)
Definition busy_db : Session :=
  mkSession [Operator.mk 1 "Оператор 1" false 2 (Some 0); op2] [telegram]
    [OperatorSourceAssignment.mk 1 1 1 10;
     OperatorSourceAssignment.mk 2 2 1 30]
    [Lead.mk 1 "user_1" None None None (Some 0)]
    [new_contact 1 1 2; new_contact 2 1 2].

(** The row written by [get_or_create] for a lead that already exists. *)
Definition filled_lead (lead : Lead.t) (name phone email : option string)
  : Lead.t :=
  Lead.mk (Lead.id lead) (Lead.external_id lead)
    (fst (fill name (Lead.name lead)))
    (fst (fill phone (Lead.phone lead)))
    (fst (fill email (Lead.email lead)))
    (Lead.created_at lead).

(** The row written by [reassign]. *)
Definition reassigned (c : Contact.t) (operator : option Operator.t)
  (now : Z) : Contact.t :=
  Contact.mk (Contact.id c) (Contact.lead_id c) (Contact.source_id c)
    (option_map Operator.id operator) (Contact.status c)
    (Contact.message c) (Contact.created_at c)
    (if is_some operator then Some now else None) (Contact.closed_at c).

(** The row written by [update_status]. *)
Definition with_status (c : Contact.t) (new_status : string) (now : Z)
  : Contact.t :=
  Contact.mk (Contact.id c) (Contact.lead_id c) (Contact.source_id c)
    (Contact.operator_id c) new_status (Contact.message c)
    (Contact.created_at c) (Contact.assigned_at c)
    (if (new_status =? "closed")%string then Some now
     else Contact.closed_at c).

(** The claim that closed is terminal, as a property of [update_status]:
    no call moves a closed contact to another status. *)
Definition closed_is_terminal : Prop :=
  forall db contact_id new_status now c c',
    contact_get_by_id db contact_id = Some c ->
    Contact.status c = "closed" ->
    contact_get_by_id (snd (update_status contact_id new_status now db))
      contact_id = Some c' ->
    Contact.status c' = "closed".

(** A store with one closed contact. *)
Definition closed_db : Session :=
  mkSession [op1; op2] [telegram]
    [OperatorSourceAssignment.mk 1 1 1 10;
     OperatorSourceAssignment.mk 2 2 1 30]
    [Lead.mk 1 "user_close" None None None (Some 0)]
    [Contact.mk 1 1 1 (Some 1) "closed" None (Some 0) (Some 0) (Some 3)].

(** ** Runs of service calls

    The calls of [services.py] that write contacts, leads or assignments,
    and the store after a sequence of them. *)

Inductive action :=
| CreateContact (data : ContactCreate.t) (now : Z) (r : nat)
| UpdateStatus (contact_id : Z) (new_status : string) (now : Z)
| Reassign (contact_id : Z) (now : Z) (r : nat)
| CreateOrUpdate (data : AssignmentCreate.t).

Definition step (db : Session) (a : action) : Session :=
  match a with
  | CreateContact data now r => snd (create data now r db)
  | UpdateStatus contact_id new_status now =>
      snd (update_status contact_id new_status now db)
  | Reassign contact_id now r => snd (reassign contact_id now r db)
  | CreateOrUpdate data => snd (create_or_update data db)
  end.

Definition run (actions : list action) (db : Session) : Session :=
  fold_left step actions db.

(** A lead row [l'] continues the row [l]: same identity, and every field
    of [l] that holds a non-empty value holds the same value in [l']. *)
Definition keeps (l l' : Lead.t) : Prop :=
  Lead.id l' = Lead.id l
  /\ Lead.external_id l' = Lead.external_id l
  /\ (truthy_str (Lead.name l) = true -> Lead.name l' = Lead.name l)
  /\ (truthy_str (Lead.phone l) = true -> Lead.phone l' = Lead.phone l)
  /\ (truthy_str (Lead.email l) = true -> Lead.email l' = Lead.email l).

(** Every lead of [db] is continued in [db']. *)
Definition leads_extend (db db' : Session) : Prop :=
  forall external_id l,
    lead_by_external_id db external_id = Some l ->
    exists l', lead_by_external_id db' external_id = Some l' /\ keeps l l'.

(** The claim that a field of a lead that is set, to any value, survives
    a later creation for the same external id. *)
Definition set_fields_are_kept : Prop :=
  forall db data now r lead res db',
    lead_by_external_id db (ContactCreate.lead_external_id data)
      = Some lead ->
    create data now r db = (Ok res, db') ->
    exists lead',
      lead_by_external_id db' (ContactCreate.lead_external_id data)
        = Some lead'
      /\ (forall v, Lead.name lead = Some v -> Lead.name lead' = Some v)
      /\ (forall v, Lead.phone lead = Some v -> Lead.phone lead' = Some v)
      /\ (forall v, Lead.email lead = Some v -> Lead.email lead' = Some v).

Definition request (external_id : string) (name : option string)
  : ContactCreate.t :=
  ContactCreate.mk external_id "telegram" None name None None.

(** The row written by [create]. *)
Definition created (db : Session) (lead : Lead.t) (source : Source.t)
  (operator : option Operator.t) (data : ContactCreate.t) (now : Z)
  : Contact.t :=
  Contact.mk (next_id (map Contact.id (contacts db))) (Lead.id lead)
    (Source.id source) (option_map Operator.id operator) "new"
    (ContactCreate.message data) (Some now)
    (if is_some operator then Some now else None) None.

(** A loop of creations, as in [test_operator_limit]: each request comes
    with the clock value and the draw of its call. *)
Fixpoint create_many (requests : list (ContactCreate.t * Z * nat))
  (db : Session) : list (result (Contact.t * string)) * Session :=
  match requests with
  | [] => ([], db)
  | (data, now, r) :: rest =>
      let (res, db') := create data now r db in
      let (out, db'') := create_many rest db' in
      (res :: out, db'')
  end.

(** One operator with limit 2 alone on the source. *)
Definition solo_db : Session :=
  mkSession [op1] [telegram] [OperatorSourceAssignment.mk 1 1 1 10] [] [].

(** The situation of the capacity scenario: on a well-formed store, an
    active source whose only assignment is the one of an active operator. *)
Definition sole_operator (db : Session) (source : Source.t)
  (a : OperatorSourceAssignment.t) (op : Operator.t) : Prop :=
  integrity db = true
  /\ get_by_code db (Source.code source) = Some source
  /\ Source.is_active source = Some true
  /\ get_source_operators db (Source.id source) = [a]
  /\ assignment_operator db a = Some op
  /\ Operator.is_active op = true.

(** The store after a first creation that carries an empty lead name. *)
Definition blank_db : Session :=
  snd (create (request "user_7" (Some "")) 1 0 demo_db).

(** ** The rest of the service layer

    The calls of [services.py] that the sections above leave out, with the
    schemas they take.  A relationship of [models.py] is the set of rows
    that carry the foreign key; deleting a parent through the session
    deletes the children of a relationship declared with
    [cascade="all, delete-orphan"] and sets to [NULL] the foreign key of
    the children of a relationship declared without it. *)

Module OperatorCreate.
Record t := mk {
  name : string;
  is_active : bool;
  max_active_contacts : Z
}.
End OperatorCreate.

Module SourceCreate.
Record t := mk {
  name : string;
  code : string;
  description : option string;
  is_active : bool
}.
End SourceCreate.

(** A field of an update schema after [model_dump(exclude_unset=True)]:
    absent from the request, sent as [null], or sent with a value. *)
Inductive field (A : Type) :=
| Unset
| Null
| Value (a : A).
Arguments Unset {A}.
Arguments Null {A}.
Arguments Value {A} a.

Module OperatorUpdate.
Record t := mk {
  name : field string;
  is_active : field bool;
  max_active_contacts : field Z
}.
End OperatorUpdate.

Module SourceUpdate.
Record t := mk {
  name : field string;
  description : field string;
  is_active : field bool
}.
End SourceUpdate.

(** [setattr] of a dumped field on a column that is [nullable=False]:
    [None] when the commit would store [NULL] there. *)
Definition set_required {A} (f : field A) (current : A) : option A :=
  match f with
  | Unset => Some current
  | Null => None
  | Value v => Some v
  end.

(** [setattr] of a dumped field on a nullable column. *)
Definition set_nullable {A} (f : field A) (current : option A) : option A :=
  match f with
  | Unset => current
  | Null => None
  | Value v => Some v
  end.

(** The outcome of a call whose commit the schema can refuse: the value
    and the new store, or [IntegrityError] with the store as it was. *)
Inductive committed (A : Type) :=
| Committed (a : A) (db : Session)
| IntegrityError.
Arguments Committed {A} a db.
Arguments IntegrityError {A}.

Module OperatorService.

Definition add_operator (row : Operator.t) (db : Session) : Session :=
  mkSession (operators db ++ [row]) (sources db) (assignments db)
    (leads db) (contacts db).

Definition create (data : OperatorCreate.t) (now : Z) : M Operator.t :=
  (new_id <- query (fun db => next_id (map Operator.id (operators db))) ;;
   let operator :=
     Operator.mk new_id (OperatorCreate.name data)
       (OperatorCreate.is_active data)
       (OperatorCreate.max_active_contacts data) (Some now) in
   commit (add_operator operator) ;;;
   ret operator)%session.

Definition get_all (db : Session) : list Operator.t := operators db.

Definition update_operator (row : Operator.t) (db : Session) : Session :=
  mkSession
    (map (fun o => if Operator.id o =? Operator.id row then row else o)
       (operators db))
    (sources db) (assignments db) (leads db) (contacts db).

Definition update (operator_id : Z) (data : OperatorUpdate.t) (db : Session)
  : committed (option Operator.t) :=
  match operator_get_by_id db operator_id with
  | None => Committed None db
  | Some operator =>
      match set_required (OperatorUpdate.name data) (Operator.name operator),
            set_required (OperatorUpdate.is_active data)
              (Operator.is_active operator),
            set_required (OperatorUpdate.max_active_contacts data)
              (Operator.max_active_contacts operator)
      with
      | Some name, Some is_active, Some max_active_contacts =>
          let operator :=
            Operator.mk (Operator.id operator) name is_active
              max_active_contacts (Operator.created_at operator) in
          Committed (Some operator) (update_operator operator db)
      | _, _, _ => IntegrityError
      end
  end.

(** [db.delete(operator)]: the rows of [operator.source_assignments] go
    with it, the rows of [operator.contacts] lose their operator. *)
Definition unassign (operator_id : Z) (c : Contact.t) : Contact.t :=
  if col_eqb (Contact.operator_id c) operator_id then
    Contact.mk (Contact.id c) (Contact.lead_id c) (Contact.source_id c)
      None (Contact.status c) (Contact.message c) (Contact.created_at c)
      (Contact.assigned_at c) (Contact.closed_at c)
  else c.

Definition delete_operator (row : Operator.t) (db : Session) : Session :=
  mkSession
    (filter (fun o => negb (Operator.id o =? Operator.id row))
       (operators db))
    (sources db)
    (filter (fun a => negb (OperatorSourceAssignment.operator_id a
                            =? Operator.id row))
       (assignments db))
    (leads db)
    (map (unassign (Operator.id row)) (contacts db)).

Definition delete (operator_id : Z) : M bool :=
  (operator <- query (fun db => operator_get_by_id db operator_id) ;;
   match operator with
   | None => ret false
   | Some operator =>
       commit (delete_operator operator) ;;;
       ret true
   end)%session.

End OperatorService.

Module SourceService.

Definition add_source (row : Source.t) (db : Session) : Session :=
  mkSession (operators db) (sources db ++ [row]) (assignments db)
    (leads db) (contacts db).

(** [create]: the column [code] is [unique=True]. *)
Definition create (data : SourceCreate.t) (now : Z) (db : Session)
  : committed Source.t :=
  if existsb (fun s => (Source.code s =? SourceCreate.code data)%string)
       (sources db)
  then IntegrityError
  else
    let source :=
      Source.mk (next_id (map Source.id (sources db)))
        (SourceCreate.name data) (SourceCreate.code data)
        (SourceCreate.description data)
        (Some (SourceCreate.is_active data)) (Some now) in
    Committed source (add_source source db).

Definition update_source (row : Source.t) (db : Session) : Session :=
  mkSession (operators db)
    (map (fun s => if Source.id s =? Source.id row then row else s)
       (sources db))
    (assignments db) (leads db) (contacts db).

Definition update (source_id : Z) (data : SourceUpdate.t) (db : Session)
  : committed (option Source.t) :=
  match source_get_by_id db source_id with
  | None => Committed None db
  | Some source =>
      match set_required (SourceUpdate.name data) (Source.name source) with
      | Some name =>
          let source :=
            Source.mk (Source.id source) name (Source.code source)
              (set_nullable (SourceUpdate.description data)
                 (Source.description source))
              (set_nullable (SourceUpdate.is_active data)
                 (Source.is_active source))
              (Source.created_at source) in
          Committed (Some source) (update_source source db)
      | None => IntegrityError
      end
  end.

(** An entry of the ["operators"] list of [get_with_operators]. *)
Record OperatorAssignmentInfo := mkInfo {
  info_operator_id : Z;
  info_operator_name : string;
  info_weight : Z;
  info_is_active : bool;
  info_current_load : Z;
  info_max_active_contacts : Z
}.

Fixpoint operators_info (db : Session)
  (todo : list OperatorSourceAssignment.t)
  : result (list OperatorAssignmentInfo) :=
  match todo with
  | [] => Ok []
  | assignment :: todo =>
      let current_load :=
        get_active_contacts_count db
          (OperatorSourceAssignment.operator_id assignment) in
      match assignment_operator db assignment with
      | None => Raise AttributeError
      | Some operator =>
          (rest <~ operators_info db todo ;;
           Ok (mkInfo (Operator.id operator) (Operator.name operator)
                 (OperatorSourceAssignment.weight assignment)
                 (Operator.is_active operator) current_load
                 (Operator.max_active_contacts operator) :: rest))%session
      end
  end.

Definition get_with_operators (db : Session) (source_id : Z)
  : result (option (Source.t * list OperatorAssignmentInfo)) :=
  match source_get_by_id db source_id with
  | None => Ok None
  | Some source =>
      (operators <~ operators_info db (get_source_operators db source_id) ;;
       Ok (Some (source, operators)))%session
  end.

End SourceService.

(** The endpoint [POST /sources] of [main.py]. *)
Inductive response (A : Type) :=
| Status200 (a : A)
| Status400 (detail : string)
| Status500.
Arguments Status200 {A} a.
Arguments Status400 {A} detail.
Arguments Status500 {A}.

Definition code_taken (code : string) : string :=
  "Источник с кодом '" ++ code ++ "' уже существует".

Definition create_source (data : SourceCreate.t) (now : Z) (db : Session)
  : response Source.t * Session :=
  match get_by_code db (SourceCreate.code data) with
  | Some _ => (Status400 (code_taken (SourceCreate.code data)), db)
  | None =>
      match SourceService.create data now db with
      | Committed source db' => (Status200 source, db')
      | IntegrityError => (Status500, db)
      end
  end.

Module AssignmentService.

Definition delete_assignment (row : OperatorSourceAssignment.t)
  (db : Session) : Session :=
  mkSession (operators db) (sources db)
    (filter (fun a => negb (OperatorSourceAssignment.id a
                            =? OperatorSourceAssignment.id row))
       (assignments db))
    (leads db) (contacts db).

Definition delete (operator_id source_id : Z) : M bool :=
  (assignment <- query (fun db =>
     find (same_pair operator_id source_id) (assignments db)) ;;
   match assignment with
   | None => ret false
   | Some assignment =>
       commit (delete_assignment assignment) ;;;
       ret true
   end)%session.

End AssignmentService.

Module StatsService.

Record SystemStats := mkStats {
  total_operators : Z;
  active_operators : Z;
  total_sources : Z;
  total_leads : Z;
  total_contacts : Z;
  active_contacts : Z
}.

Definition count {A} (rows : list A) : Z := Z.of_nat (List.length rows).

Definition get_system_stats (db : Session) : SystemStats :=
  mkStats
    (count (operators db))
    (count (filter Operator.is_active (operators db)))
    (count (sources db))
    (count (leads db))
    (count (contacts db))
    (count (filter (status_in active_statuses) (contacts db))).

End StatsService.

(** The relationship [lead.contacts], read by [GET /leads/{lead_id}]. *)
Definition lead_contacts (db : Session) (lead_id : Z) : list Contact.t :=
  filter (fun c => Contact.lead_id c =? lead_id) (contacts db).

(** ** More constraints of the schema *)

Definition operators_pk (db : Session) : Prop :=
  NoDup (map Operator.id (operators db)).

Definition sources_pk (db : Session) : Prop :=
  NoDup (map Source.id (sources db)).

Definition contacts_pk (db : Session) : Prop :=
  NoDup (map Contact.id (contacts db)).

(** [unique=True] on [sources.code] and on [leads.external_id]. *)
Definition sources_uq (db : Session) : Prop :=
  NoDup (map Source.code (sources db)).

Definition leads_uq (db : Session) : Prop :=
  NoDup (map Lead.external_id (leads db)).

(** Foreign key [contacts.operator_id -> operators.id]. *)
Definition contacts_fk (db : Session) : Prop :=
  forall c o,
    In c (contacts db) -> Contact.operator_id c = Some o ->
    operator_get_by_id db o <> None.

(** No operator holds more active contacts than its limit. *)
Definition within_limits (db : Session) : Prop :=
  forall o,
    In o (operators db) ->
    get_active_contacts_count db (Operator.id o)
    <= Operator.max_active_contacts o.

(** Whether a contact counts toward the load of an operator. *)
Definition counts_for (operator_id : Z) (c : Contact.t) : bool :=
  col_eqb (Contact.operator_id c) operator_id
  && status_in active_statuses c.

(** What an entry of [get_with_operators] says about eligibility, and the
    parts an entry shares with an entry of [available_operators]. *)
Definition info_available (i : SourceService.OperatorAssignmentInfo)
  : bool :=
  SourceService.info_is_active i
  && (SourceService.info_current_load i
      <? SourceService.info_max_active_contacts i).

Definition info_key (i : SourceService.OperatorAssignmentInfo)
  : Z * Z * Z :=
  (SourceService.info_operator_id i, SourceService.info_weight i,
   SourceService.info_current_load i).

Definition available_key (e : Available) : Z * Z * Z :=
  (Operator.id (av_operator e), av_weight e, av_current_load e).

(** The free slots behind an assignment, and the free slots of a source. *)
Definition free_slots (db : Session) (a : OperatorSourceAssignment.t) : Z :=
  match assignment_operator db a with
  | Some operator =>
      if Operator.is_active operator
      then Z.max 0 (Operator.max_active_contacts operator
                    - get_active_contacts_count db (Operator.id operator))
      else 0
  | None => 0
  end.

Definition remaining (db : Session) (source_id : Z) : Z :=
  sum (map (free_slots db) (get_source_operators db source_id)).

(** An active source on a store that satisfies the constraints of the
    assignments table. *)
Definition serving (db : Session) (source : Source.t) : Prop :=
  integrity db = true
  /\ uq_operator_source db
  /\ get_by_code db (Source.code source) = Some source
  /\ Source.is_active source = Some true.

(** ** The store behind the API

    The requests that write the store, each with the clock value and the
    draw of its handling, and the store after a sequence of them.  A
    request body that the schema rejects never reaches its handler: for an
    assignment that is the bound [1 <= weight <= 1000]. *)

Definition valid_assignment (data : AssignmentCreate.t) : bool :=
  (1 <=? AssignmentCreate.weight data)
  && (AssignmentCreate.weight data <=? 1000).

Inductive call :=
| PostContact (data : ContactCreate.t) (now : Z) (r : nat)
| PatchContactStatus (contact_id : Z) (new_status : string) (now : Z)
| PostReassign (contact_id : Z) (now : Z) (r : nat)
| PostAssignment (data : AssignmentCreate.t)
| DeleteAssignment (operator_id source_id : Z)
| PostOperator (data : OperatorCreate.t) (now : Z)
| PatchOperator (operator_id : Z) (data : OperatorUpdate.t)
| DeleteOperator (operator_id : Z)
| PostSource (data : SourceCreate.t) (now : Z)
| PatchSource (source_id : Z) (data : SourceUpdate.t).

Definition kept {A} (db : Session) (out : committed A) : Session :=
  match out with
  | Committed _ db' => db'
  | IntegrityError => db
  end.

Definition serve (db : Session) (c : call) : Session :=
  match c with
  | PostContact data now r => snd (create data now r db)
  | PatchContactStatus contact_id new_status now =>
      snd (update_status contact_id new_status now db)
  | PostReassign contact_id now r => snd (reassign contact_id now r db)
  | PostAssignment data =>
      if valid_assignment data
      then snd (assign_operator_to_source data db)
      else db
  | DeleteAssignment operator_id source_id =>
      snd (AssignmentService.delete operator_id source_id db)
  | PostOperator data now => snd (OperatorService.create data now db)
  | PatchOperator operator_id data =>
      kept db (OperatorService.update operator_id data db)
  | DeleteOperator operator_id => snd (OperatorService.delete operator_id db)
  | PostSource data now => snd (create_source data now db)
  | PatchSource source_id data =>
      kept db (SourceService.update source_id data db)
  end.

Definition empty_db : Session := mkSession [] [] [] [] [].

(** The constraints of the schema, together. *)
Record well_formed (db : Session) : Prop := mkWellFormed {
  wf_integrity : integrity db = true;
  wf_operators_pk : operators_pk db;
  wf_sources_pk : sources_pk db;
  wf_sources_uq : sources_uq db;
  wf_assignments_pk : assignments_pk db;
  wf_uq_operator_source : uq_operator_source db;
  wf_leads_pk : leads_pk db;
  wf_leads_uq : leads_uq db;
  wf_contacts_pk : contacts_pk db;
  wf_contacts_fk : contacts_fk db
}.

(** Whether the draw [r] makes [select_operator] return the operator with
    the given id. *)
Definition selects (db : Session) (source_id operator_id : Z) (r : nat)
  : bool :=
  match select_operator db source_id r with
  | Ok (Some o, _) => Operator.id o =? operator_id
  | _ => false
  end.

(** * Properties *)

(** ** The eligibility filter *)

Lemma geb_ltb (x y : Z) : (x >=? y) = negb (x <? y).
Proof. rewrite Z.geb_leb, Z.ltb_antisym, negb_involutive. reflexivity. Qed.

Lemma eligible_eq (db : Session) (a : OperatorSourceAssignment.t)
  (o : Operator.t) :
  assignment_operator db a = Some o ->
  eligible db a =
  Operator.is_active o
  && (get_active_contacts_count db (Operator.id o)
      <? Operator.max_active_contacts o).
Proof. intros E. unfold eligible. now rewrite E. Qed.

(** The loop, when no foreign key dangles, splits the assignments into the
    entries of the eligible ones and the reasons of the others, in order. *)
Lemma filter_available_ok (db : Session) :
  forall todo av rs,
    Forall (has_operator db) todo ->
    filter_available db todo av rs =
    Ok ((av ++ entries db (filter (eligible db) todo))%list,
        (rs ++ map (exclusion_reason db)
                 (filter (fun a => negb (eligible db a)) todo))%list).
Proof.
  induction todo as [|a todo IH]; intros av rs Hall.
  - simpl. now rewrite !app_nil_r.
  - inversion Hall as [|? ? Ha Htodo]; subst.
    unfold has_operator in Ha.
    cbn [filter_available filter].
    destruct (assignment_operator db a) as [o|] eqn:Eo; [|discriminate].
    rewrite (eligible_eq db a o Eo), geb_ltb.
    destruct (Operator.is_active o) eqn:Eact; cbn [negb andb].
    + destruct (get_active_contacts_count db (Operator.id o)
                <? Operator.max_active_contacts o) eqn:Elt; cbn [negb].
      * rewrite IH by assumption. unfold entries; cbn [flat_map].
        unfold entry at 2. rewrite Eo. 
        rewrite <- !app_assoc. reflexivity.
      * rewrite IH by assumption. cbn [map].
        unfold exclusion_reason at 2. rewrite Eo, Eact.
        rewrite <- !app_assoc. reflexivity.
    + rewrite IH by assumption. cbn [map].
      unfold exclusion_reason at 2. rewrite Eo, Eact.
      rewrite <- !app_assoc. reflexivity.
Qed.

Lemma filter_available_inv (db : Session) :
  forall todo av rs res,
    filter_available db todo av rs = Ok res ->
    Forall (has_operator db) todo.
Proof.
  induction todo as [|a todo IH]; intros av rs res H; [constructor|].
  cbn [filter_available] in H.
  destruct (assignment_operator db a) as [o|] eqn:Eo; [|discriminate].
  constructor; [unfold has_operator; now rewrite Eo|].
  destruct (negb (Operator.is_active o)); [now apply IH in H|].
  destruct (_ >=? _); now apply IH in H.
Qed.

Lemma integrity_has_operator (db : Session) (source_id : Z) :
  integrity db = true ->
  Forall (has_operator db) (get_source_operators db source_id).
Proof.
  unfold integrity, get_source_operators. intros H.
  rewrite forallb_forall in H. apply Forall_forall. intros a Ha.
  apply filter_In in Ha. destruct Ha as [Ha _].
  apply H in Ha. apply andb_true_iff in Ha. apply Ha.
Qed.

Lemma integrity_weight (db : Session) (source_id : Z) :
  integrity db = true ->
  Forall (fun a => 1 <= OperatorSourceAssignment.weight a)
         (get_source_operators db source_id).
Proof.
  unfold integrity, get_source_operators. intros H.
  rewrite forallb_forall in H. apply Forall_forall. intros a Ha.
  apply filter_In in Ha. destruct Ha as [Ha _].
  apply H in Ha. apply andb_true_iff in Ha. destruct Ha as [_ Ha].
  now apply Z.leb_le in Ha.
Qed.

Lemma entries_In (db : Session) (l : list OperatorSourceAssignment.t)
  (e : Available) :
  In e (entries db l) <-> exists a, In a l /\ entry db a = Some e.
Proof.
  unfold entries. rewrite in_flat_map. split.
  - intros [a [Ha He]]. exists a. split; [assumption|].
    destruct (entry db a); simpl in He; [|contradiction].
    destruct He as [->|[]]. reflexivity.
  - intros [a [Ha He]]. exists a. split; [assumption|].
    rewrite He. now left.
Qed.

Lemma entries_nil (db : Session) (l : list OperatorSourceAssignment.t) :
  Forall (has_operator db) l -> entries db l = [] -> l = [].
Proof.
  destruct l as [|a l]; [reflexivity|]. intros H.
  inversion H as [|? ? Ha _]; subst. unfold has_operator in Ha.
  unfold entries, entry. cbn [flat_map].
  destruct (assignment_operator db a); discriminate.
Qed.

Lemma filter_none_negb {A} (p : A -> bool) (l : list A) :
  filter p l = [] -> filter (fun a => negb (p a)) l = l.
Proof.
  induction l as [|a l IH]; [reflexivity|]. simpl.
  destruct (p a); [discriminate|]. intros H. simpl. now rewrite IH.
Qed.

(** ** The weighted selector *)

Lemma weighted_choices_In (available : list Available) (o : Operator.t) :
  In o (weighted_choices available) <->
  exists e, In e available /\ av_operator e = o /\ 1 <= av_weight e.
Proof.
  unfold weighted_choices. rewrite in_flat_map. split.
  - intros [e [He Ho]]. exists e. split; [assumption|].
    split; [symmetry; eapply repeat_spec; eassumption|].
    destruct (Z.to_nat (av_weight e)) eqn:E; [contradiction|lia].
  - intros [e [He [Ho Hw]]]. exists e. split; [assumption|].
    destruct (Z.to_nat (av_weight e)) eqn:E; [lia|]. subst o. now left.
Qed.

Lemma random_choice_In {A} (r : nat) (l : list A) (o : A) :
  random_choice r l = Ok o -> In o l.
Proof.
  destruct l as [|x l]; [discriminate|]. intros H.
  change (Ok (nth (r mod List.length (x :: l)) (x :: l) x) = Ok o) in H.
  remember (x :: l) as s eqn:Es.
  assert (E : o = nth (r mod List.length s) s x) by congruence.
  rewrite E. apply nth_In. apply Nat.mod_upper_bound.
  subst s. discriminate.
Qed.

Lemma random_choice_ok {A} (r : nat) (l : list A) :
  l <> [] -> exists o, random_choice r l = Ok o.
Proof. destruct l; [congruence|]. intros _. eexists. reflexivity. Qed.

Lemma total_weight_cons (e : Available) (l : list Available) :
  total_weight (e :: l) = av_weight e + total_weight l.
Proof. reflexivity. Qed.

Lemma total_weight_nonneg (l : list Available) :
  Forall (fun e => 1 <= av_weight e) l -> 0 <= total_weight l.
Proof.
  induction 1 as [|e l He _ IH]; [unfold total_weight; simpl; lia|].
  rewrite total_weight_cons. lia.
Qed.

Lemma total_weight_pos (l : list Available) :
  l <> [] -> Forall (fun e => 1 <= av_weight e) l -> 1 <= total_weight l.
Proof.
  destruct l as [|e l]; [congruence|]. intros _ H.
  inversion H as [|? ? He Hl]; subst. apply total_weight_nonneg in Hl.
  rewrite total_weight_cons. lia.
Qed.

Lemma weighted_choices_length (l : list Available) :
  Forall (fun e => 1 <= av_weight e) l ->
  Z.of_nat (List.length (weighted_choices l)) = total_weight l.
Proof.
  induction 1 as [|e l He _ IH]; [reflexivity|].
  unfold weighted_choices in *. cbn [flat_map].
  rewrite length_app, repeat_length, Nat2Z.inj_add, IH, total_weight_cons.
  lia.
Qed.

Lemma weighted_choices_nonempty (l : list Available) :
  l <> [] -> Forall (fun e => 1 <= av_weight e) l ->
  weighted_choices l <> [].
Proof.
  intros Hne Hw E. pose proof (total_weight_pos l Hne Hw) as Hp.
  rewrite <- weighted_choices_length in Hp by assumption.
  rewrite E in Hp. simpl in Hp. lia.
Qed.

Lemma entries_weight (db : Session) (l : list OperatorSourceAssignment.t) :
  Forall (fun a => 1 <= OperatorSourceAssignment.weight a) l ->
  Forall (fun e => 1 <= av_weight e) (entries db l).
Proof.
  intros H. apply Forall_forall. intros e He.
  apply entries_In in He. destruct He as [a [Ha He]].
  rewrite Forall_forall in H. apply H in Ha.
  unfold entry in He. destruct (assignment_operator db a); [|discriminate].
  injection He as <-. exact Ha.
Qed.

Lemma Forall_filter {A} (P : A -> Prop) (p : A -> bool) (l : list A) :
  Forall P l -> Forall P (filter p l).
Proof.
  rewrite !Forall_forall. intros H a Ha. apply filter_In in Ha. now apply H.
Qed.

(** ** The distribution engine *)

Lemma select_no_assignments (db : Session) (source_id : Z) (r : nat) :
  get_source_operators db source_id = [] ->
  select_operator db source_id r = Ok (None, no_assignments_info).
Proof. intros E. unfold select_operator. now rewrite E. Qed.

Lemma select_none_eligible (db : Session) (source_id : Z) (r : nat) :
  Forall (has_operator db) (get_source_operators db source_id) ->
  get_source_operators db source_id <> [] ->
  filter (eligible db) (get_source_operators db source_id) = [] ->
  select_operator db source_id r =
  Ok (None, no_available_prefix
            ++ join "; " (map (exclusion_reason db)
                            (get_source_operators db source_id))).
Proof.
  intros Hop Hne Hel. unfold select_operator.
  destruct (get_source_operators db source_id) as [|a l] eqn:E;
    [congruence|].
  rewrite filter_available_ok by assumption.
  rewrite Hel, (filter_none_negb _ _ Hel). reflexivity.
Qed.

Lemma eligible_sound (db : Session) (a : OperatorSourceAssignment.t) :
  eligible db a = true ->
  exists o, assignment_operator db a = Some o
            /\ Operator.is_active o = true
            /\ get_active_contacts_count db (Operator.id o)
               < Operator.max_active_contacts o.
Proof.
  unfold eligible. destruct (assignment_operator db a) as [o|];
    [|discriminate].
  intros H. apply andb_true_iff in H. destruct H as [Ha Hl].
  exists o. repeat split; [assumption|now apply Z.ltb_lt].
Qed.

Lemma select_some_eligible (db : Session) (source_id : Z) (r : nat) :
  integrity db = true ->
  filter (eligible db) (get_source_operators db source_id) <> [] ->
  let available :=
    entries db (filter (eligible db) (get_source_operators db source_id)) in
  exists op,
    select_operator db source_id r =
      Ok (Some op, selected_info op (total_weight available) available)
    /\ random_choice r (weighted_choices available) = Ok op
    /\ exists a, In a (get_source_operators db source_id)
                 /\ eligible db a = true
                 /\ assignment_operator db a = Some op.
Proof.
  intros Hint Hne available.
  pose proof (integrity_has_operator db source_id Hint) as Hop.
  pose proof (integrity_weight db source_id Hint) as Hw.
  assert (Hav : available <> []).
  { intros E. apply entries_nil in E; [contradiction|].
    now apply Forall_filter. }
  assert (Hww : Forall (fun e => 1 <= av_weight e) available).
  { apply entries_weight. now apply Forall_filter. }
  destruct (random_choice_ok r (weighted_choices available)) as [op Hop'].
  { now apply weighted_choices_nonempty. }
  exists op. split; [|split; [assumption|]].
  - unfold select_operator.
    destruct (get_source_operators db source_id) as [|a0 l] eqn:E;
      [now elim Hne|].
    rewrite filter_available_ok by assumption. cbn [rbind app].
    fold available. destruct available as [|e av] eqn:Eav; [congruence|].
    rewrite Hop'. cbn [rbind].
    pose proof (total_weight_pos (e :: av) Hav Hww) as Hp.
    destruct (total_weight (e :: av) =? 0) eqn:E0;
      [apply Z.eqb_eq in E0; lia|reflexivity].
  - apply random_choice_In, weighted_choices_In in Hop'.
    destruct Hop' as [e [He [Ho _]]].
    apply entries_In in He. destruct He as [a [Ha He]].
    apply filter_In in Ha. destruct Ha as [Ha Hel].
    exists a. repeat split; try assumption.
    unfold entry in He. destruct (assignment_operator db a); [|discriminate].
    injection He as <-. simpl in Ho. now subst.
Qed.

(** C1. [select_operator] has exactly three outcomes.  With no assignment
    on the source it returns no operator and the "no operators assigned"
    text.  With assignments none of which is eligible it returns no
    operator and the "no available operators" text followed by one reason
    per assignment, joined with "; ", each naming the operator and saying
    either that it is inactive or that it reached its limit, with its load
    and its limit.  Otherwise it returns the operator drawn by
    [random.choice] from the weighted list of the eligible ones, with the
    selection text; that operator is active and strictly under its limit
    in the state the call ran in. *)
Theorem select_operator_branches (db : Session) (source_id : Z) (r : nat) :
  integrity db = true ->
  let assigned := get_source_operators db source_id in
  let available := entries db (filter (eligible db) assigned) in
  (assigned = [] ->
     select_operator db source_id r = Ok (None, no_assignments_info))
  /\ (assigned <> [] -> filter (eligible db) assigned = [] ->
        select_operator db source_id r =
          Ok (None, no_available_prefix
                    ++ join "; " (map (exclusion_reason db) assigned))
        /\ forall a, In a assigned ->
             exists o, assignment_operator db a = Some o
               /\ ((Operator.is_active o = false
                    /\ exclusion_reason db a
                       = Operator.name o ++ ": неактивен")
                   \/ (Operator.is_active o = true
                       /\ get_active_contacts_count db (Operator.id o)
                          >= Operator.max_active_contacts o
                       /\ exclusion_reason db a
                          = Operator.name o ++ ": достигнут лимит ("
                            ++ str_of_int (get_active_contacts_count db
                                             (Operator.id o))
                            ++ "/"
                            ++ str_of_int (Operator.max_active_contacts o)
                            ++ ")")))
  /\ (filter (eligible db) assigned <> [] ->
        exists op,
          select_operator db source_id r =
            Ok (Some op, selected_info op (total_weight available) available)
          /\ random_choice r (weighted_choices available) = Ok op
          /\ (exists a, In a assigned /\ assignment_operator db a = Some op)
          /\ Operator.is_active op = true
          /\ get_active_contacts_count db (Operator.id op)
             < Operator.max_active_contacts op).
Proof.
  intros Hint assigned available.
  pose proof (integrity_has_operator db source_id Hint) as Hop.
  fold assigned in Hop.
  split; [apply select_no_assignments|]. split.
  - intros Hne Hel. split; [now apply select_none_eligible|].
    intros a Ha. rewrite Forall_forall in Hop.
    pose proof (Hop a Ha) as Hoa. unfold has_operator in Hoa.
    destruct (assignment_operator db a) as [o|] eqn:Eo; [|discriminate].
    exists o. split; [reflexivity|].
    assert (Hna : eligible db a = false).
    { destruct (eligible db a) eqn:E; [|reflexivity].
      assert (In a (filter (eligible db) assigned))
        by (apply filter_In; now split).
      rewrite Hel in H. contradiction. }
    rewrite (eligible_eq db a o Eo) in Hna.
    unfold exclusion_reason. rewrite Eo.
    destruct (Operator.is_active o); [right|left; now split].
    split; [reflexivity|]. simpl in Hna. apply Z.ltb_ge in Hna.
    split; [lia|reflexivity].
  - intros Hne.
    destruct (select_some_eligible db source_id r Hint Hne)
      as [op [Hsel [Hch [a [Ha [Hel Hao]]]]]].
    exists op. split; [exact Hsel|]. split; [exact Hch|].
    split; [now exists a|].
    apply eligible_sound in Hel. destruct Hel as [o [Eo [Hact Hload]]].
    rewrite Hao in Eo. injection Eo as <-. now split.
Qed.

Lemma select_operator_branches_witness :
  integrity demo_db = true
  /\ exists op info,
       select_operator demo_db 1 7 = Ok (Some op, info)
       /\ Operator.is_active op = true.
Proof.
  split; [reflexivity|].
  destruct (select_operator_branches demo_db 1 7 eq_refl) as [_ [_ H]].
  destruct H as [op [Hsel [_ [_ [Hact _]]]]]; [vm_compute; discriminate|].
  exists op. eexists. split; [exact Hsel|exact Hact].
Defined.

(** C10. When the source has an assignment and the loop of
    [select_operator] ends with no available operator, every assignment
    has appended one reason: the list of reasons is as long as the list of
    assignments, hence not empty, the "unknown reason" fallback is not
    taken, and the i-th reason starts with the name of the operator of the
    i-th assignment. *)
Theorem unknown_reason_unreachable (db : Session) (source_id : Z) (r : nat)
  (reasons : list string) :
  get_source_operators db source_id <> [] ->
  filter_available db (get_source_operators db source_id) [] []
    = Ok ([], reasons) ->
  reasons <> []
  /\ List.length reasons = List.length (get_source_operators db source_id)
  /\ reasons_text reasons = join "; " reasons
  /\ select_operator db source_id r
     = Ok (None, no_available_prefix ++ join "; " reasons)
  /\ forall i a,
       nth_error (get_source_operators db source_id) i = Some a ->
       exists o rest,
         assignment_operator db a = Some o
         /\ nth_error reasons i = Some (Operator.name o ++ ": " ++ rest).
Proof.
  intros Hne Hloop.
  pose proof (filter_available_inv db _ _ _ _ Hloop) as Hop.
  rewrite filter_available_ok in Hloop by assumption.
  cbn [app] in Hloop. injection Hloop as Hav Hrs.
  apply entries_nil in Hav; [|now apply Forall_filter].
  rewrite (filter_none_negb _ _ Hav) in Hrs. subst reasons.
  assert (Hnil : map (exclusion_reason db)
                   (get_source_operators db source_id) <> []).
  { destruct (get_source_operators db source_id); [congruence|discriminate]. }
  split; [exact Hnil|]. split; [apply length_map|]. split.
  { unfold reasons_text.
    destruct (map (exclusion_reason db) (get_source_operators db source_id));
      [congruence|reflexivity]. }
  split; [now apply select_none_eligible|].
  intros i a Hi. rewrite nth_error_map, Hi. cbn [option_map].
  rewrite Forall_forall in Hop. apply nth_error_In in Hi.
  pose proof (Hop a Hi) as Ha. unfold has_operator in Ha.
  unfold exclusion_reason.
  destruct (assignment_operator db a) as [o|]; [|discriminate].
  exists o. destruct (Operator.is_active o).
  - exists ("достигнут лимит ("
            ++ str_of_int (get_active_contacts_count db (Operator.id o))
            ++ "/" ++ str_of_int (Operator.max_active_contacts o) ++ ")").
    split; reflexivity.
  - exists "неактивен". split; reflexivity.
Qed.

Lemma unknown_reason_unreachable_witness :
  select_operator busy_db 1 0
  = Ok (None,
        "Нет доступных операторов. Причины: Оператор 1: неактивен; Оператор 2: достигнут лимит (2/2)").
Proof.
  destruct (unknown_reason_unreachable busy_db 1 0
              ["Оператор 1: неактивен"; "Оператор 2: достигнут лимит (2/2)"])
    as [_ [_ [_ [H _]]]].
  - vm_compute. discriminate.
  - reflexivity.
  - exact H.
Defined.

(** ** The weighted draw against the cumulative-weight draw *)

Section Draw.

Variable d : Operator.t.

(** Reading every position of a list gives the list back. *)
Lemma map_nth_seq (l : list Operator.t) :
  map (fun r => nth r l d) (seq 0 (List.length l)) = l.
Proof.
  induction l as [|x l IH]; [reflexivity|].
  cbn [List.length seq map nth]. f_equal.
  rewrite <- seq_shift, map_map. exact IH.
Qed.

(** A position inside the weighted list is the entry found by walking
    the cumulative weights. *)
Lemma cumulative_select_nth (available : list Available) :
  Forall (fun e => 1 <= av_weight e) available ->
  forall r : nat,
    (r < List.length (weighted_choices available))%nat ->
    cumulative_select (Z.of_nat r) available
    = Some (nth r (weighted_choices available) d).
Proof.
  induction 1 as [|e l He Hl IH]; intros r Hr; [simpl in Hr; lia|].
  unfold weighted_choices in *. cbn [flat_map cumulative_select] in *.
  rewrite length_app, repeat_length in Hr.
  destruct (Z.of_nat r <? av_weight e) eqn:E.
  - apply Z.ltb_lt in E.
    rewrite app_nth1 by (rewrite repeat_length; lia).
    rewrite nth_repeat_lt by lia. reflexivity.
  - apply Z.ltb_ge in E.
    rewrite app_nth2 by (rewrite repeat_length; lia).
    rewrite repeat_length.
    replace (Z.of_nat r - av_weight e)
      with (Z.of_nat (r - Z.to_nat (av_weight e))) by lia.
    apply IH. lia.
Qed.

End Draw.

Lemma random_choice_nth (r : nat) (l : list Operator.t) (d : Operator.t) :
  (r < List.length l)%nat -> random_choice r l = Ok (nth r l d).
Proof.
  intros Hr. destruct l as [|x l]; [simpl in Hr; lia|].
  unfold random_choice. rewrite Nat.mod_small by assumption.
  f_equal. apply nth_indep. assumption.
Qed.

(** The favourable draws are as many as the occurrences of the operator in
    the weighted list. *)
Lemma favourable_length (operator_id : Z) (available : list Available) :
  List.length (favourable operator_id available)
  = List.length (filter (fun o => Operator.id o =? operator_id)
                   (weighted_choices available)).
Proof.
  unfold favourable.
  destruct (weighted_choices available) as [|x l] eqn:E; [reflexivity|].
  rewrite <- E. clear E.
  rewrite (filter_ext_in _
             (fun r => Operator.id (nth r (weighted_choices available) x)
                       =? operator_id)).
  - transitivity
      (List.length
         (filter (fun o => Operator.id o =? operator_id)
            (map (fun r => nth r (weighted_choices available) x)
               (seq 0 (List.length (weighted_choices available)))))).
    + rewrite filter_map_swap, length_map. reflexivity.
    + rewrite map_nth_seq. reflexivity.
  - intros r Hr. apply in_seq in Hr.
    rewrite (random_choice_nth r _ x) by lia. reflexivity.
Qed.

Lemma filter_repeat_length (p : Operator.t -> bool) (o : Operator.t)
  (n : nat) :
  List.length (filter p (repeat o n)) = if p o then n else O.
Proof.
  induction n as [|n IH]; [now destruct (p o)|].
  cbn [repeat filter]. destruct (p o); simpl; congruence.
Qed.

Lemma filter_nil_forall {A} (p : A -> bool) (l : list A) :
  (forall x, In x l -> p x = false) -> filter p l = [].
Proof.
  induction l as [|x l IH]; intros H; [reflexivity|]. simpl.
  rewrite (H x) by now left. apply IH. intros y Hy. apply H. now right.
Qed.

(** With distinct operators in the eligible set, an operator occurs in the
    weighted list as many times as its weight. *)
Lemma occurrences_weight (available : list Available) :
  Forall (fun e => 1 <= av_weight e) available ->
  NoDup (map (fun e => Operator.id (av_operator e)) available) ->
  forall e, In e available ->
    Z.of_nat (List.length
                (filter (fun o => Operator.id o
                                  =? Operator.id (av_operator e))
                        (weighted_choices available)))
    = av_weight e.
Proof.
  induction 1 as [|x l Hx Hl IH]; intros Hnd e He; [contradiction|].
  cbn [map] in Hnd. inversion Hnd as [|? ? Hnotin Hnd']; subst.
  unfold weighted_choices in *. cbn [flat_map].
  rewrite filter_app, length_app, filter_repeat_length.
  destruct He as [->|He].
  - rewrite Z.eqb_refl.
    replace (filter _ (flat_map _ l)) with (@nil Operator.t);
      [simpl; lia|].
    symmetry. apply filter_nil_forall. intros o Ho.
    apply Z.eqb_neq. intros Heq. apply Hnotin. rewrite <- Heq.
    apply (weighted_choices_In l o) in Ho. destruct Ho as [e' [He' [Ho _]]].
    apply in_map_iff. exists e'. split; [now subst o|assumption].
  - destruct (Operator.id (av_operator x) =? Operator.id (av_operator e))
      eqn:E.
    + apply Z.eqb_eq in E. exfalso. apply Hnotin. rewrite E.
      apply in_map_iff. now exists e.
    + simpl. now apply IH.
Qed.

(** C2. On a non-empty eligible set of distinct operators with positive
    weights, the list built by [select_operator] has [total_weight]
    elements; the operator that [random.choice] reads from it with the
    draw [r] is the one the cumulative-weight walk selects for the uniform
    value [r mod total_weight]; the probability of an entry, favourable
    draws over all draws, is its weight over the total weight; entries of
    equal weight are equally likely. *)
Theorem weighted_choices_refine_weighted_draw
  (available : list Available) :
  available <> [] ->
  Forall (fun e => 1 <= av_weight e) available ->
  NoDup (map (fun e => Operator.id (av_operator e)) available) ->
  let total := total_weight available in
  Z.of_nat (List.length (weighted_choices available)) = total
  /\ (forall r : nat,
        exists op,
          random_choice r (weighted_choices available) = Ok op
          /\ cumulative_select (Z.of_nat r mod total) available = Some op)
  /\ (forall e, In e available ->
        (probability (Operator.id (av_operator e)) available
         == inject_Z (av_weight e) / inject_Z total)%Q)
  /\ (forall e1 e2, In e1 available -> In e2 available ->
        av_weight e1 = av_weight e2 ->
        (probability (Operator.id (av_operator e1)) available
         == probability (Operator.id (av_operator e2)) available)%Q).
Proof.
  intros Hne Hw Hnd total.
  pose proof (weighted_choices_length available Hw) as Hlen.
  fold total in Hlen.
  assert (Hprob : forall e, In e available ->
            probability (Operator.id (av_operator e)) available
            = (inject_Z (av_weight e) / inject_Z total)%Q).
  { intros e He. unfold probability.
    rewrite favourable_length, (occurrences_weight available Hw Hnd e He).
    now rewrite Hlen. }
  split; [exact Hlen|]. split; [|split].
  - intros r.
    pose proof (weighted_choices_nonempty available Hne Hw) as Hwc.
    destruct (weighted_choices available) as [|x l] eqn:E; [congruence|].
    rewrite <- E in *.
    assert (Hr : (r mod List.length (weighted_choices available)
                  < List.length (weighted_choices available))%nat).
    { apply Nat.mod_upper_bound. rewrite E. discriminate. }
    exists (nth (r mod List.length (weighted_choices available))
              (weighted_choices available) x).
    split.
    + rewrite E at 1. unfold random_choice. rewrite <- E. reflexivity.
    + rewrite <- Hlen, <- Nat2Z.inj_mod.
      now apply cumulative_select_nth.
  - intros e He. rewrite (Hprob e He). reflexivity.
  - intros e1 e2 H1 H2 Heq. rewrite (Hprob e1 H1), (Hprob e2 H2), Heq.
    reflexivity.
Qed.

Lemma weighted_choices_refine_weighted_draw_witness :
  (probability 2 (entries demo_db (assignments demo_db)) == 3 # 4)%Q.
Proof.
  assert (Hne : entries demo_db (assignments demo_db) <> [])
    by (vm_compute; discriminate).
  assert (Hw : Forall (fun e => 1 <= av_weight e)
                 (entries demo_db (assignments demo_db)))
    by (repeat constructor; simpl; lia).
  assert (Hnd : NoDup (map (fun e => Operator.id (av_operator e))
                         (entries demo_db (assignments demo_db)))).
  { repeat constructor; simpl; intuition discriminate. }
  destruct (weighted_choices_refine_weighted_draw _ Hne Hw Hnd)
    as [_ [_ [H _]]].
  rewrite (H (mkAvailable op2 30 0)) by (simpl; auto).
  reflexivity.
Defined.

(** ** Percentages of the selection text *)

Lemma div_add_le (a b t : Z) : 0 < t -> a / t + b / t <= (a + b) / t.
Proof.
  intros Ht. apply Z.div_le_lower_bound; [assumption|].
  pose proof (Z.mul_div_le a t Ht). pose proof (Z.mul_div_le b t Ht). lia.
Qed.

Lemma percentage_sum_le (t : Z) (l : list Available) :
  0 < t ->
  sum (map (percentage t) l) <= total_weight l * 100 / t.
Proof.
  intros Ht. induction l as [|e l IH]; [simpl; now rewrite Z.div_0_l by lia|].
  cbn [map]. rewrite total_weight_cons. unfold sum in *. cbn [fold_right].
  unfold percentage at 1.
  replace ((av_weight e + total_weight l) * 100)
    with (av_weight e * 100 + total_weight l * 100) by lia.
  pose proof (div_add_le (av_weight e * 100) (total_weight l * 100) t Ht).
  lia.
Qed.

(** C8. For every non-empty eligible set with positive weights, the number
    [weight * 100 // total] of an entry, [total] being the sum of the
    weights of the set, is the floor of the entry's share in percent, and
    these numbers sum to at most 100.  They are the percentages of the
    selection text: when the set is the eligible set of a source, on a
    store that satisfies the constraints of the assignments table, the
    text returned by [select_operator] names the selected operator and
    then lists, for every entry of the set in order, the name of its
    operator, its weight and that number followed by the percent sign. *)
Theorem percentages_sum_at_most_100 (available : list Available) :
  available <> [] ->
  Forall (fun e => 1 <= av_weight e) available ->
  let total := fold_right Z.add 0 (map av_weight available) in
  let share := fun e => av_weight e * 100 / total in
  let show := fun n => NilZero.string_of_int (Z.to_int n) in
  (forall e, In e available ->
     share e * total <= av_weight e * 100 < (share e + 1) * total)
  /\ fold_right Z.add 0 (map share available) <= 100
  /\ (forall db source_id r,
        integrity db = true ->
        entries db (filter (eligible db)
                      (get_source_operators db source_id)) = available ->
        exists op,
          select_operator db source_id r
          = Ok (Some op,
                "Выбран " ++ Operator.name op ++ " из ["
                ++ String.concat ", "
                     (map (fun e =>
                             Operator.name (av_operator e) ++ ": вес "
                             ++ show (av_weight e)
                             ++ " (" ++ show (share e) ++ "%)")
                        available)
                ++ "]")).
Proof.
  intros Hne Hw total share show.
  pose proof (total_weight_pos available Hne Hw) as Hp.
  change (total_weight available) with total in Hp.
  split; [|split].
  - intros e _. unfold share.
    pose proof (Z.mul_div_le (av_weight e * 100) total ltac:(lia)).
    pose proof (Z.mul_succ_div_gt (av_weight e * 100) total ltac:(lia)).
    lia.
  - pose proof (percentage_sum_le total available ltac:(lia)) as H.
    change (total_weight available) with total in H.
    rewrite (Z.mul_comm total 100), Z.div_mul in H by lia.
    exact H.
  - intros db source_id r Hint Hav.
    destruct (select_some_eligible db source_id r Hint) as [op [Hsel _]].
    { intros E. rewrite E in Hav. apply Hne. now rewrite <- Hav. }
    rewrite Hav in Hsel. exists op. rewrite Hsel. reflexivity.
Qed.

Lemma percentages_sum_at_most_100_witness :
  exists op,
    select_operator demo_db 1 7
    = Ok (Some op,
          "Выбран " ++ Operator.name op
          ++ " из [Оператор 1: вес 10 (25%), Оператор 2: вес 30 (75%)]").
Proof.
  assert (Hne : entries demo_db (assignments demo_db) <> [])
    by (vm_compute; discriminate).
  assert (Hw : Forall (fun e => 1 <= av_weight e)
                 (entries demo_db (assignments demo_db)))
    by (repeat constructor; simpl; lia).
  destruct (percentages_sum_at_most_100 _ Hne Hw) as [_ [_ H]].
  destruct (H demo_db 1 7%nat eq_refl eq_refl) as [op Hsel].
  exists op. rewrite Hsel. reflexivity.
Defined.

(** ** Tables keyed by a unique column *)

Lemma NoDup_key_inj {A K} (key : A -> K) (l : list A) (a b : A) :
  NoDup (map key l) -> In a l -> In b l -> key a = key b -> a = b.
Proof.
  induction l as [|x l IH]; intros Hnd Ha Hb Hk; [contradiction|].
  cbn [map] in Hnd. inversion Hnd as [|? ? Hx Hl]; subst.
  destruct Ha as [->|Ha], Hb as [->|Hb].
  - reflexivity.
  - exfalso. apply Hx. rewrite Hk. now apply in_map.
  - exfalso. apply Hx. rewrite <- Hk. now apply in_map.
  - now apply IH.
Qed.

(** A row found in a table with a unique key is the only one that passes
    a filter on that key. *)
Lemma filter_unique_key {A K} (key : A -> K) (p : A -> bool) (k : K)
  (l : list A) (x : A) :
  (forall a, p a = true <-> key a = k) ->
  NoDup (map key l) -> In x l -> key x = k -> filter p l = [x].
Proof.
  intros Hp. induction l as [|y l IH]; intros Hnd Hx Hk; [contradiction|].
  cbn [map] in Hnd. apply NoDup_cons_iff in Hnd. destruct Hnd as [Hy Hl].
  cbn [filter]. destruct Hx as [->|Hx].
  - rewrite (proj2 (Hp x) Hk). f_equal.
    apply filter_nil_forall. intros a Ha.
    destruct (p a) eqn:E; [|reflexivity].
    apply Hp in E. exfalso. apply Hy. rewrite Hk, <- E. now apply in_map.
  - destruct (p y) eqn:E; [|now apply IH].
    apply Hp in E. exfalso. apply Hy. rewrite E, <- Hk. now apply in_map.
Qed.

Lemma next_id_fresh (ids : list Z) : forall i, In i ids -> i < next_id ids.
Proof.
  unfold next_id. induction ids as [|x ids IH]; intros i Hi; [contradiction|].
  cbn [fold_right]. destruct Hi as [->|Hi]; [lia|].
  apply IH in Hi. lia.
Qed.

Lemma NoDup_app_fresh {K} (l : list K) (k : K) :
  NoDup l -> ~ In k l -> NoDup (l ++ [k]).
Proof.
  induction 1 as [|x l Hx Hl IH]; intros Hk; [repeat constructor; auto|].
  cbn [app]. constructor.
  - rewrite in_app_iff. intros [H|[H|[]]]; [contradiction|].
    apply Hk. now left.
  - apply IH. intros H. apply Hk. now right.
Qed.

Lemma NoDup_next_id (ids : list Z) :
  NoDup ids -> NoDup (ids ++ [next_id ids]).
Proof.
  intros H. apply NoDup_app_fresh; [assumption|].
  intros Hin. apply next_id_fresh in Hin. lia.
Qed.

(** ** Assignments *)

Lemma same_pair_iff (operator_id source_id : Z)
  (a : OperatorSourceAssignment.t) :
  same_pair operator_id source_id a = true
  <-> pair_of a = (operator_id, source_id).
Proof.
  unfold same_pair, pair_of. rewrite andb_true_iff, !Z.eqb_eq.
  split; [intros [-> ->]; reflexivity|intros [= -> ->]; now split].
Qed.

(** One call of [create_or_update] leaves exactly one row for the pair,
    with the weight of the call, and keeps the keys of the table unique. *)
Lemma create_or_update_step (data : AssignmentCreate.t) (db : Session) :
  assignments_pk db -> uq_operator_source db ->
  exists a,
    fst (create_or_update data db) = Ok a
    /\ filter (same_pair (AssignmentCreate.operator_id data)
                 (AssignmentCreate.source_id data))
         (assignments (snd (create_or_update data db))) = [a]
    /\ OperatorSourceAssignment.weight a = AssignmentCreate.weight data
    /\ assignments_pk (snd (create_or_update data db))
    /\ uq_operator_source (snd (create_or_update data db)).
Proof.
  intros Hpk Huq. unfold assignments_pk, uq_operator_source in *.
  unfold create_or_update, bind, query, commit, ret. cbn [fst snd].
  set (op := AssignmentCreate.operator_id data).
  set (src := AssignmentCreate.source_id data).
  destruct (find (same_pair op src) (assignments db)) as [ex|] eqn:Ef.
  - apply find_some in Ef. destruct Ef as [Hin Hex].
    set (ex' := set_weight (AssignmentCreate.weight data) ex).
    exists ex'. cbn [fst snd update_assignment assignments].
    set (f := fun a => if OperatorSourceAssignment.id a
                          =? OperatorSourceAssignment.id ex'
                       then ex' else a).
    assert (Hf : forall a, In a (assignments db) ->
                   pair_of (f a) = pair_of a
                   /\ OperatorSourceAssignment.id (f a)
                      = OperatorSourceAssignment.id a).
    { intros a Ha. unfold f.
      destruct (OperatorSourceAssignment.id a
                =? OperatorSourceAssignment.id ex') eqn:E; [|now split].
      apply Z.eqb_eq in E.
      assert (a = ex)
        by (apply (NoDup_key_inj OperatorSourceAssignment.id
                     (assignments db)); assumption).
      subst a. now split. }
    split; [reflexivity|]. split; [|split; [reflexivity|split]].
    + rewrite filter_map_swap.
      rewrite (filter_ext_in _ (same_pair op src)).
      * rewrite (filter_unique_key pair_of (same_pair op src) (op, src)
                   (assignments db) ex);
          [|apply same_pair_iff|assumption|assumption
           |now apply same_pair_iff].
        cbn [map]. unfold f.
        replace (OperatorSourceAssignment.id ex
                 =? OperatorSourceAssignment.id ex') with true
          by (symmetry; apply Z.eqb_refl).
        reflexivity.
      * intros a Ha. destruct (Hf a Ha) as [Hp _].
        unfold same_pair. unfold pair_of in Hp. now injection Hp as -> ->.
    + rewrite map_map.
      rewrite (map_ext_in _ OperatorSourceAssignment.id); [assumption|].
      intros a Ha. apply (Hf a Ha).
    + rewrite map_map. rewrite (map_ext_in _ pair_of); [assumption|].
      intros a Ha. apply (Hf a Ha).
  - eexists. cbn [fst snd add_assignment assignments].
    split; [reflexivity|]. split; [|split; [reflexivity|split]].
    + rewrite filter_app. rewrite filter_nil_forall.
      * cbn [filter app]. unfold same_pair at 1. cbn.
        fold op src. now rewrite !Z.eqb_refl.
      * intros a Ha. destruct (same_pair op src a) eqn:E; [|reflexivity].
        now rewrite (find_none _ _ Ef a Ha) in E.
    + rewrite map_app. apply NoDup_next_id. assumption.
    + rewrite map_app. apply NoDup_app_fresh; [assumption|].
      cbn [map]. intros Hin. apply in_map_iff in Hin.
      destruct Hin as [a [Hp Ha]].
      change (pair_of a = (op, src)) in Hp. apply same_pair_iff in Hp.
      now rewrite (find_none _ _ Ef a Ha) in Hp.
Qed.

(** C9. In a store that satisfies the primary key and the unique
    constraint of the assignments table, two calls of [create_or_update]
    for the same operator and source leave exactly one row for that pair;
    it carries the weight of the second call, which adds no row. *)
Theorem create_or_update_idempotent
  (db : Session) (first second : AssignmentCreate.t) :
  assignments_pk db -> uq_operator_source db ->
  AssignmentCreate.operator_id second = AssignmentCreate.operator_id first ->
  AssignmentCreate.source_id second = AssignmentCreate.source_id first ->
  let db1 := snd (create_or_update first db) in
  let db2 := snd (create_or_update second db1) in
  exists a,
    fst (create_or_update second db1) = Ok a
    /\ filter (same_pair (AssignmentCreate.operator_id first)
                 (AssignmentCreate.source_id first)) (assignments db2) = [a]
    /\ OperatorSourceAssignment.operator_id a
       = AssignmentCreate.operator_id first
    /\ OperatorSourceAssignment.source_id a
       = AssignmentCreate.source_id first
    /\ OperatorSourceAssignment.weight a = AssignmentCreate.weight second
    /\ List.length (assignments db2) = List.length (assignments db1).
Proof.
  intros Hpk Huq Hop Hsrc db1 db2.
  destruct (create_or_update_step first db Hpk Huq)
    as [a1 [_ [Hone1 [_ [Hpk1 Huq1]]]]].
  fold db1 in Hone1, Hpk1, Huq1.
  destruct (create_or_update_step second db1 Hpk1 Huq1)
    as [a2 [Hres [Hone2 [Hw2 _]]]].
  fold db2 in Hone2. rewrite Hop, Hsrc in Hone2.
  exists a2. split; [exact Hres|]. split; [exact Hone2|].
  assert (Hin : In a2 (filter (same_pair (AssignmentCreate.operator_id first)
                                 (AssignmentCreate.source_id first))
                         (assignments db2)))
    by (rewrite Hone2; now left).
  apply filter_In in Hin. destruct Hin as [_ Hp].
  apply same_pair_iff in Hp. unfold pair_of in Hp. injection Hp as Ho Hs.
  split; [exact Ho|]. split; [exact Hs|]. split; [exact Hw2|].
  (* the second call finds the row of the first one *)
  unfold db2, create_or_update, bind, query, commit, ret.
  rewrite Hop, Hsrc.
  destruct (find (same_pair (AssignmentCreate.operator_id first)
                    (AssignmentCreate.source_id first)) (assignments db1))
    as [ex|] eqn:Ef.
  - cbn [snd update_assignment assignments]. apply length_map.
  - exfalso.
    assert (Hin : In a1 (filter (same_pair
                                   (AssignmentCreate.operator_id first)
                                   (AssignmentCreate.source_id first))
                           (assignments db1)))
      by (rewrite Hone1; now left).
    apply filter_In in Hin. destruct Hin as [Hin Hp1].
    now rewrite (find_none _ _ Ef a1 Hin) in Hp1.
Qed.

Lemma create_or_update_idempotent_witness :
  exists a,
    filter (same_pair 1 1)
      (assignments
         (snd (create_or_update (AssignmentCreate.mk 1 1 70)
                 (snd (create_or_update (AssignmentCreate.mk 1 1 5)
                         demo_db))))) = [a]
    /\ OperatorSourceAssignment.weight a = 70.
Proof.
  assert (Hpk : assignments_pk demo_db).
  { unfold assignments_pk. repeat constructor; simpl; intuition discriminate. }
  assert (Huq : uq_operator_source demo_db).
  { unfold uq_operator_source.
    repeat constructor; simpl; intuition discriminate. }
  destruct (create_or_update_idempotent demo_db
              (AssignmentCreate.mk 1 1 5) (AssignmentCreate.mk 1 1 70)
              Hpk Huq eq_refl eq_refl)
    as [a [_ [Hone [_ [_ [Hw _]]]]]].
  exists a. split; [exact Hone|exact Hw].
Defined.

(** ** Rows read back after an update *)

Lemma find_updated {A} (key : A -> Z) (k : Z) (l : list A) (row row' : A) :
  find (fun x => key x =? k) l = Some row ->
  key row' = k ->
  find (fun x => key x =? k)
    (map (fun x => if key x =? key row' then row' else x) l) = Some row'.
Proof.
  intros Hf Hk. rewrite Hk.
  induction l as [|x l IH]; [discriminate|].
  cbn [find map] in *.
  destruct (key x =? k) eqn:E.
  - now rewrite Hk, Z.eqb_refl.
  - rewrite E. now apply IH.
Qed.

Lemma contact_found_id (db : Session) (contact_id : Z) (c : Contact.t) :
  contact_get_by_id db contact_id = Some c -> Contact.id c = contact_id.
Proof.
  intros H. apply find_some in H. now apply Z.eqb_eq.
Qed.

(** ** The engine always answers on a well-formed store *)

Lemma select_operator_total (db : Session) (source_id : Z) (r : nat) :
  integrity db = true ->
  exists operator info,
    select_operator db source_id r = Ok (operator, info)
    /\ (filter (eligible db) (get_source_operators db source_id) = []
        <-> operator = None)
    /\ (forall op, operator = Some op ->
          Operator.is_active op = true
          /\ get_active_contacts_count db (Operator.id op)
             < Operator.max_active_contacts op
          /\ exists a, In a (get_source_operators db source_id)
                       /\ assignment_operator db a = Some op).
Proof.
  intros Hint.
  pose proof (integrity_has_operator db source_id Hint) as Hop.
  destruct (filter (eligible db) (get_source_operators db source_id))
    as [|e l] eqn:Eel.
  - exists None.
    destruct (get_source_operators db source_id) as [|a l] eqn:Ea.
    + eexists. split; [now apply select_no_assignments|].
      split; [tauto|discriminate].
    + eexists. split.
      * rewrite <- Ea in *. apply select_none_eligible;
          [assumption|rewrite Ea; discriminate|assumption].
      * split; [tauto|discriminate].
  - destruct (select_some_eligible db source_id r Hint)
      as [op [Hsel [_ [a [Ha [Hel Hao]]]]]];
      [rewrite Eel; discriminate|].
    rewrite Eel in Hsel.
    exists (Some op). eexists. split; [exact Hsel|].
    split; [split; discriminate|].
    intros op' [= <-].
    apply eligible_sound in Hel. destruct Hel as [o [Eo [Hact Hload]]].
    rewrite Hao in Eo. injection Eo as <-.
    split; [assumption|]. split; [assumption|]. now exists a.
Qed.

(** ** Reassignment *)

(** C5. [reassign] answers [(None, text)] and leaves the store as it was
    when the contact does not exist or when its status is closed.  For an
    existing contact that is not closed it runs [select_operator] on the
    contact's own source and writes the operator id and the assignment
    time of the outcome over the old ones; both are [None] when no
    operator of the source is eligible. *)
Theorem reassign_cases (db : Session) (contact_id now : Z) (r : nat) :
  integrity db = true ->
  (contact_get_by_id db contact_id = None ->
     reassign contact_id now r db = (Ok (None, not_found_info), db))
  /\ (forall c,
        contact_get_by_id db contact_id = Some c ->
        Contact.status c = "closed" ->
        reassign contact_id now r db = (Ok (None, closed_info), db))
  /\ (forall c,
        contact_get_by_id db contact_id = Some c ->
        Contact.status c <> "closed" ->
        exists operator info,
          select_operator db (Contact.source_id c) r = Ok (operator, info)
          /\ reassign contact_id now r db
             = (Ok (Some (reassigned c operator now), info),
                update_contact (reassigned c operator now) db)
          /\ contact_get_by_id
               (update_contact (reassigned c operator now) db) contact_id
             = Some (reassigned c operator now)
          /\ Contact.operator_id (reassigned c operator now)
             = option_map Operator.id operator
          /\ (forall op, operator = Some op ->
                Contact.assigned_at (reassigned c operator now) = Some now)
          /\ (filter (eligible db)
                (get_source_operators db (Contact.source_id c)) = [] ->
              Contact.operator_id (reassigned c operator now) = None
              /\ Contact.assigned_at (reassigned c operator now) = None)).
Proof.
  intros Hint. split; [|split].
  - intros Hc. unfold reassign, bind, query, ret. now rewrite Hc.
  - intros c Hc Hst. unfold reassign, bind, query, ret.
    rewrite Hc, Hst. reflexivity.
  - intros c Hc Hst.
    destruct (select_operator_total db (Contact.source_id c) r Hint)
      as [operator [info [Hsel [Hnone _]]]].
    exists operator, info. split; [exact Hsel|]. split; [|split; [|split]].
    + unfold reassign, bind, query, ret, lift, commit. rewrite Hc.
      apply String.eqb_neq in Hst. rewrite Hst, Hsel. reflexivity.
    + unfold contact_get_by_id, update_contact. cbn [contacts].
      apply (find_updated Contact.id contact_id (contacts db) c);
        [exact Hc|]. cbn. now apply (contact_found_id db).
    + reflexivity.
    + split; [now intros op ->|].
      intros Hel. apply Hnone in Hel. subst operator. now split.
Qed.

Lemma reassign_cases_witness :
  reassign 1 9 0 closed_db = (Ok (None, closed_info), closed_db)
  /\ exists c info,
       fst (reassign 1 9 0 busy_db) = Ok (Some c, info)
       /\ Contact.operator_id c = None
       /\ Contact.assigned_at c = None.
Proof.
  split.
  - destruct (reassign_cases closed_db 1 9 0 eq_refl) as [_ [H _]].
    exact (H _ eq_refl eq_refl).
  - destruct (reassign_cases busy_db 1 9 0 eq_refl) as [_ [_ H]].
    destruct (H (new_contact 1 1 2) eq_refl) as
      [operator [info [_ [Hre [_ [_ [_ Hnone]]]]]]];
      [vm_compute; discriminate|].
    destruct (Hnone eq_refl) as [Hop Hat].
    exists (reassigned (new_contact 1 1 2) operator 9), info.
    rewrite Hre. repeat split; assumption.
Defined.

(** ** Status updates *)

Lemma update_status_found (db : Session) (contact_id : Z)
  (new_status : string) (now : Z) (c : Contact.t) :
  contact_get_by_id db contact_id = Some c ->
  update_status contact_id new_status now db
  = (Ok (Some (with_status c new_status now)),
     update_contact (with_status c new_status now) db).
Proof.
  intros Hc. unfold update_status, bind, query, ret, commit.
  now rewrite Hc.
Qed.

Lemma update_status_read_back (db : Session) (contact_id : Z)
  (new_status : string) (now : Z) (c : Contact.t) :
  contact_get_by_id db contact_id = Some c ->
  contact_get_by_id (update_contact (with_status c new_status now) db)
    contact_id
  = Some (with_status c new_status now).
Proof.
  intros Hc. unfold contact_get_by_id, update_contact. cbn [contacts].
  apply (find_updated Contact.id contact_id (contacts db) c); [exact Hc|].
  cbn. now apply (contact_found_id db).
Qed.

(** C6, refuted as stated: the closed contact of [closed_db] is moved back
    to the status new by [update_status]. *)
Lemma closed_contact_reopens : ~ closed_is_terminal.
Proof.
  intros H.
  specialize (H closed_db 1 "new" 5
                (Contact.mk 1 1 1 (Some 1) "closed" None (Some 0) (Some 0)
                   (Some 3))
                (Contact.mk 1 1 1 (Some 1) "new" None (Some 0) (Some 0)
                   (Some 3))
                eq_refl eq_refl eq_refl).
  discriminate H.
Qed.

(** C6, amended. [update_status] applies no transition rule.  For an
    existing contact and any requested status, the stored status becomes
    the requested one, whatever the old one was, a closed contact
    included; the closed time is set when the requested status is closed
    and kept as it was otherwise; the other fields are unchanged.  For a
    missing contact the call returns [None] and changes nothing. *)
Theorem update_status_sets_requested_status
  (db : Session) (contact_id : Z) (new_status : string) (now : Z) :
  (contact_get_by_id db contact_id = None ->
     update_status contact_id new_status now db = (Ok None, db))
  /\ (forall c,
        contact_get_by_id db contact_id = Some c ->
        exists c',
          update_status contact_id new_status now db
          = (Ok (Some c'), update_contact c' db)
          /\ contact_get_by_id (update_contact c' db) contact_id = Some c'
          /\ Contact.status c' = new_status
          /\ Contact.closed_at c'
             = (if (new_status =? "closed")%string then Some now
                else Contact.closed_at c)
          /\ Contact.operator_id c' = Contact.operator_id c
          /\ Contact.assigned_at c' = Contact.assigned_at c
          /\ Contact.lead_id c' = Contact.lead_id c
          /\ Contact.source_id c' = Contact.source_id c).
Proof.
  split.
  - intros Hc. unfold update_status, bind, query, ret. now rewrite Hc.
  - intros c Hc. exists (with_status c new_status now).
    split; [now apply update_status_found|].
    split; [now apply update_status_read_back|].
    repeat split.
Qed.

Lemma update_status_sets_requested_status_witness :
  exists c',
    contact_get_by_id (snd (update_status 1 "in_progress" 5 closed_db)) 1
    = Some c'
    /\ Contact.status c' = "in_progress".
Proof.
  destruct (update_status_sets_requested_status closed_db 1 "in_progress" 5)
    as [_ H].
  destruct (H _ eq_refl) as [c' [Hup [Hget [Hst _]]]].
  exists c'. rewrite Hup. split; [exact Hget|exact Hst].
Defined.

(** ** Lead resolution *)

Lemma get_or_create_found (external_id : string)
  (name phone email : option string) (now : Z) (db : Session)
  (lead : Lead.t) :
  lead_by_external_id db external_id = Some lead ->
  get_or_create external_id name phone email now db
  = (Ok (filled_lead lead name phone email, false),
     if snd (fill name (Lead.name lead))
        || snd (fill phone (Lead.phone lead))
        || snd (fill email (Lead.email lead))
     then update_lead (filled_lead lead name phone email) db
     else db).
Proof.
  intros Hf. unfold get_or_create, bind, query. rewrite Hf.
  unfold filled_lead.
  destruct (fill name (Lead.name lead)) as [n [|]];
    destruct (fill phone (Lead.phone lead)) as [p [|]];
    destruct (fill email (Lead.email lead)) as [e [|]];
    reflexivity.
Qed.

Lemma get_or_create_new (external_id : string)
  (name phone email : option string) (now : Z) (db : Session) :
  lead_by_external_id db external_id = None ->
  get_or_create external_id name phone email now db
  = (Ok (Lead.mk (next_id (map Lead.id (leads db))) external_id
           name phone email (Some now), true),
     add_lead (Lead.mk (next_id (map Lead.id (leads db))) external_id
                 name phone email (Some now)) db).
Proof.
  intros Hf. unfold get_or_create, bind, query. rewrite Hf. reflexivity.
Qed.

(** [get_or_create] never raises and writes the leads table only. *)
Lemma get_or_create_frame (external_id : string)
  (name phone email : option string) (now : Z) (db : Session) :
  exists lead is_new db',
    get_or_create external_id name phone email now db
    = (Ok (lead, is_new), db')
    /\ operators db' = operators db
    /\ sources db' = sources db
    /\ assignments db' = assignments db
    /\ contacts db' = contacts db.
Proof.
  destruct (lead_by_external_id db external_id) as [lead|] eqn:Ef.
  - rewrite (get_or_create_found _ _ _ _ _ _ _ Ef).
    do 3 eexists. split; [reflexivity|].
    destruct (_ || _); repeat split.
  - rewrite (get_or_create_new _ _ _ _ _ _ Ef).
    do 3 eexists. split; [reflexivity|]. repeat split.
Qed.

Lemma fill_keeps (value current : option string) :
  truthy_str current = true -> fst (fill value current) = current.
Proof.
  intros H. unfold fill. rewrite H, andb_false_r. reflexivity.
Qed.

Lemma fill_untouched (value current : option string) :
  snd (fill value current) = false -> fst (fill value current) = current.
Proof. unfold fill. destruct (_ && _); [discriminate|reflexivity]. Qed.

Lemma filled_lead_keeps (lead : Lead.t) (name phone email : option string) :
  keeps lead (filled_lead lead name phone email).
Proof.
  unfold keeps, filled_lead. cbn.
  repeat split; intros H; now apply fill_keeps.
Qed.

Lemma filled_lead_same (lead : Lead.t) (name phone email : option string) :
  snd (fill name (Lead.name lead))
  || snd (fill phone (Lead.phone lead))
  || snd (fill email (Lead.email lead)) = false ->
  filled_lead lead name phone email = lead.
Proof.
  intros H. apply orb_false_iff in H. destruct H as [H H3].
  apply orb_false_iff in H. destruct H as [H1 H2].
  unfold filled_lead. rewrite !fill_untouched by assumption.
  now destruct lead.
Qed.

Lemma keeps_refl (l : Lead.t) : keeps l l.
Proof. unfold keeps. tauto. Qed.

Lemma keeps_trans (a b c : Lead.t) : keeps a b -> keeps b c -> keeps a c.
Proof.
  unfold keeps. intros [Hi [He [Hn [Hp Hm]]]] [Hi' [He' [Hn' [Hp' Hm']]]].
  split; [congruence|]. split; [congruence|].
  split; [|split]; intros H.
  - rewrite <- (Hn H). apply Hn'. now rewrite (Hn H).
  - rewrite <- (Hp H). apply Hp'. now rewrite (Hp H).
  - rewrite <- (Hm H). apply Hm'. now rewrite (Hm H).
Qed.

Lemma leads_extend_refl (db : Session) : leads_extend db db.
Proof. intros e l H. exists l. split; [exact H|apply keeps_refl]. Qed.

Lemma leads_extend_trans (a b c : Session) :
  leads_extend a b -> leads_extend b c -> leads_extend a c.
Proof.
  intros Hab Hbc e l H. destruct (Hab e l H) as [l' [H' K]].
  destruct (Hbc e l' H') as [l'' [H'' K']].
  exists l''. split; [exact H''|]. eapply keeps_trans; eassumption.
Qed.

Lemma leads_extend_same (db db' : Session) :
  leads db' = leads db -> leads_extend db db'.
Proof.
  intros E e l H. exists l. split; [|apply keeps_refl].
  unfold lead_by_external_id in *. now rewrite E.
Qed.

Lemma find_map_preserving {A} (p : A -> bool) (f : A -> A) (l : list A) :
  (forall x, In x l -> p (f x) = p x) ->
  find p (map f l) = option_map f (find p l).
Proof.
  induction l as [|x l IH]; intros H; [reflexivity|].
  cbn [map find]. rewrite (H x) by now left.
  destruct (p x); [reflexivity|]. apply IH. intros y Hy. apply H. now right.
Qed.

Lemma find_app_some {A} (p : A -> bool) (l l' : list A) (x : A) :
  find p l = Some x -> find p (l ++ l') = Some x.
Proof.
  induction l as [|y l IH]; [discriminate|]. cbn [find app].
  destruct (p y); [trivial|assumption].
Qed.

Lemma find_app_none {A} (p : A -> bool) (l l' : list A) :
  find p l = None -> find p (l ++ l') = find p l'.
Proof.
  induction l as [|y l IH]; [reflexivity|]. cbn [find app].
  destruct (p y); [discriminate|assumption].
Qed.

Lemma update_lead_spec (db : Session) (lead row : Lead.t) :
  leads_pk db -> In lead (leads db) -> keeps lead row ->
  leads_pk (update_lead row db)
  /\ leads_extend db (update_lead row db)
  /\ (forall external_id,
        lead_by_external_id db external_id = Some lead ->
        lead_by_external_id (update_lead row db) external_id = Some row)
  /\ List.length (leads (update_lead row db)) = List.length (leads db).
Proof.
  intros Hpk Hin Hk. unfold leads_pk in *.
  set (f := fun l => if Lead.id l =? Lead.id row then row else l).
  assert (Hf : forall x, In x (leads db) -> keeps x (f x)).
  { intros x Hx. unfold f.
    destruct (Lead.id x =? Lead.id row) eqn:E; [|apply keeps_refl].
    apply Z.eqb_eq in E.
    assert (x = lead); [|now subst x].
    apply (NoDup_key_inj Lead.id (leads db)); try assumption.
    destruct Hk as [Hi _]. congruence. }
  assert (Hrow : f lead = row).
  { unfold f. destruct Hk as [Hi _]. rewrite Hi. now rewrite Z.eqb_refl. }
  assert (Hfind : forall e,
            lead_by_external_id (update_lead row db) e
            = option_map f (lead_by_external_id db e)).
  { intros e. unfold lead_by_external_id, update_lead. cbn [leads].
    apply find_map_preserving. intros x Hx.
    destruct (Hf x Hx) as [_ [He _]]. fold (f x). now rewrite He. }
  split; [|split; [|split]].
  - unfold update_lead. cbn [leads]. rewrite map_map.
    rewrite (map_ext_in _ Lead.id); [assumption|].
    intros x Hx. apply (Hf x Hx).
  - intros e l Hl. exists (f l). rewrite Hfind, Hl. split; [reflexivity|].
    apply Hf. unfold lead_by_external_id in Hl.
    now apply find_some in Hl.
  - intros e Hl. now rewrite Hfind, Hl, <- Hrow.
  - unfold update_lead. cbn [leads]. apply length_map.
Qed.

Lemma add_lead_spec (db : Session) (row : Lead.t) :
  leads_pk db ->
  Lead.id row = next_id (map Lead.id (leads db)) ->
  lead_by_external_id db (Lead.external_id row) = None ->
  leads_pk (add_lead row db)
  /\ leads_extend db (add_lead row db)
  /\ lead_by_external_id (add_lead row db) (Lead.external_id row)
     = Some row.
Proof.
  intros Hpk Hid Hnone. unfold leads_pk, lead_by_external_id in *.
  split; [|split].
  - unfold add_lead. cbn [leads]. rewrite map_app. cbn [map].
    rewrite Hid. now apply NoDup_next_id.
  - intros e l Hl. exists l. split; [|apply keeps_refl].
    unfold lead_by_external_id, add_lead in *. cbn [leads].
    now apply find_app_some.
  - unfold add_lead. cbn [leads]. rewrite find_app_none by assumption.
    cbn [find]. now rewrite String.eqb_refl.
Qed.

(** What [get_or_create] guarantees on a leads table with unique ids. *)
Lemma get_or_create_spec (external_id : string)
  (name phone email : option string) (now : Z) (db : Session) :
  leads_pk db ->
  exists lead is_new db',
    get_or_create external_id name phone email now db
    = (Ok (lead, is_new), db')
    /\ leads_pk db'
    /\ leads_extend db db'
    /\ lead_by_external_id db' external_id = Some lead
    /\ (forall l0,
          lead_by_external_id db external_id = Some l0 ->
          lead = filled_lead l0 name phone email
          /\ is_new = false
          /\ List.length (leads db') = List.length (leads db)).
Proof.
  intros Hpk.
  destruct (lead_by_external_id db external_id) as [l0|] eqn:Ef.
  - rewrite (get_or_create_found _ _ _ _ _ _ _ Ef).
    do 3 eexists. split; [reflexivity|].
    assert (Hin : In l0 (leads db)).
    { unfold lead_by_external_id in Ef. now apply find_some in Ef. }
    destruct (update_lead_spec db l0 (filled_lead l0 name phone email)
                Hpk Hin (filled_lead_keeps _ _ _ _))
      as [Hpk' [Hext [Hget Hlen]]].
    destruct (_ || _) eqn:Eu.
    + split; [assumption|]. split; [assumption|].
      split; [now apply Hget|].
      intros l [= <-]. now repeat split.
    + split; [assumption|]. split; [apply leads_extend_refl|].
      split; [now rewrite (filled_lead_same _ _ _ _ Eu)|].
      intros l [= <-]. now repeat split.
  - rewrite (get_or_create_new _ _ _ _ _ _ Ef).
    do 3 eexists. split; [reflexivity|].
    destruct (add_lead_spec db
                (Lead.mk (next_id (map Lead.id (leads db))) external_id
                   name phone email (Some now)) Hpk eq_refl Ef)
      as [Hpk' [Hext Hget]].
    split; [assumption|]. split; [assumption|]. split; [exact Hget|].
    intros l [=].
Qed.

(** ** Contact creation *)

Lemma integrity_ext (db db' : Session) :
  operators db' = operators db -> assignments db' = assignments db ->
  integrity db' = integrity db.
Proof.
  unfold integrity, assignment_operator, operator_get_by_id.
  now intros -> ->.
Qed.

Lemma create_no_source (data : ContactCreate.t) (now : Z) (r : nat)
  (db : Session) :
  get_by_code db (ContactCreate.source_code data) = None ->
  create data now r db
  = (Raise (ValueError (source_not_found (ContactCreate.source_code data))),
     db).
Proof. intros H. unfold create, bind, query, raise. now rewrite H. Qed.

Lemma create_inactive_source (data : ContactCreate.t) (now : Z) (r : nat)
  (db : Session) (source : Source.t) :
  get_by_code db (ContactCreate.source_code data) = Some source ->
  truthy_bool (Source.is_active source) = false ->
  create data now r db
  = (Raise (ValueError (source_inactive (ContactCreate.source_code data))),
     db).
Proof.
  intros H Hact. unfold create, bind, query, raise. now rewrite H, Hact.
Qed.

Lemma create_ok (data : ContactCreate.t) (now : Z) (r : nat)
  (db db1 : Session) (source : Source.t) (lead : Lead.t) (is_new : bool)
  (operator : option Operator.t) (info : string) :
  get_by_code db (ContactCreate.source_code data) = Some source ->
  truthy_bool (Source.is_active source) = true ->
  get_or_create (ContactCreate.lead_external_id data)
    (ContactCreate.lead_name data) (ContactCreate.lead_phone data)
    (ContactCreate.lead_email data) now db = (Ok (lead, is_new), db1) ->
  select_operator db1 (Source.id source) r = Ok (operator, info) ->
  create data now r db
  = (Ok (created db1 lead source operator data now,
         lead_info is_new ++ "; " ++ info),
     add_contact (created db1 lead source operator data now) db1).
Proof.
  intros Hs Hact Hl Hsel.
  unfold create, bind, query, raise, lift, commit, ret.
  rewrite Hs, Hact. cbn [negb]. rewrite Hl, Hsel.
  unfold created, lead_info. now destruct operator, is_new.
Qed.

Lemma create_raise_select (data : ContactCreate.t) (now : Z) (r : nat)
  (db db1 : Session) (source : Source.t) (lead : Lead.t) (is_new : bool)
  (e : exn) :
  get_by_code db (ContactCreate.source_code data) = Some source ->
  truthy_bool (Source.is_active source) = true ->
  get_or_create (ContactCreate.lead_external_id data)
    (ContactCreate.lead_name data) (ContactCreate.lead_phone data)
    (ContactCreate.lead_email data) now db = (Ok (lead, is_new), db1) ->
  select_operator db1 (Source.id source) r = Raise e ->
  create data now r db = (Raise e, db1).
Proof.
  intros Hs Hact Hl Hsel.
  unfold create, bind, query, raise, lift, commit, ret.
  rewrite Hs, Hact. cbn [negb]. now rewrite Hl, Hsel.
Qed.

(** C7. On a store that satisfies the constraints of the data model,
    [create] raises exactly when the source code is unknown or the source
    is not active, and then changes nothing.  For an active source it
    resolves the lead, runs [select_operator] and adds one contact with
    status new: when an operator was selected the contact carries its id
    and the current time as assignment time; when none was selected, both
    are [None] and the call succeeds all the same. *)
Theorem create_never_fails_for_lack_of_operator
  (db : Session) (data : ContactCreate.t) (now : Z) (r : nat) :
  integrity db = true ->
  let code := ContactCreate.source_code data in
  (get_by_code db code = None ->
     create data now r db = (Raise (ValueError (source_not_found code)), db))
  /\ (forall source,
        get_by_code db code = Some source ->
        Source.is_active source <> Some true ->
        create data now r db
        = (Raise (ValueError (source_inactive code)), db))
  /\ (forall source,
        get_by_code db code = Some source ->
        Source.is_active source = Some true ->
        exists lead is_new db1 operator info contact,
          get_or_create (ContactCreate.lead_external_id data)
            (ContactCreate.lead_name data) (ContactCreate.lead_phone data)
            (ContactCreate.lead_email data) now db
          = (Ok (lead, is_new), db1)
          /\ select_operator db1 (Source.id source) r = Ok (operator, info)
          /\ create data now r db
             = (Ok (contact, lead_info is_new ++ "; " ++ info),
                add_contact contact db1)
          /\ In contact (contacts (add_contact contact db1))
          /\ Contact.status contact = "new"
          /\ Contact.lead_id contact = Lead.id lead
          /\ Contact.source_id contact = Source.id source
          /\ (forall op, operator = Some op ->
                Contact.operator_id contact = Some (Operator.id op)
                /\ Contact.assigned_at contact = Some now)
          /\ (operator = None ->
                Contact.operator_id contact = None
                /\ Contact.assigned_at contact = None)).
Proof.
  intros Hint code. split; [apply create_no_source|]. split.
  - intros source Hs Hact. apply (create_inactive_source _ _ _ _ source Hs).
    destruct (Source.is_active source) as [[|]|]; [congruence| |]; reflexivity.
  - intros source Hs Hact.
    destruct (get_or_create_frame (ContactCreate.lead_external_id data)
                (ContactCreate.lead_name data) (ContactCreate.lead_phone data)
                (ContactCreate.lead_email data) now db)
      as [lead [is_new [db1 [Hl [Hops [_ [Hasg _]]]]]]].
    assert (Hint1 : integrity db1 = true)
      by (now rewrite (integrity_ext db db1)).
    destruct (select_operator_total db1 (Source.id source) r Hint1)
      as [operator [info [Hsel _]]].
    exists lead, is_new, db1, operator, info,
      (created db1 lead source operator data now).
    split; [exact Hl|]. split; [exact Hsel|]. split.
    { apply create_ok; try assumption. now rewrite Hact. }
    split; [unfold add_contact; cbn [contacts]; apply in_or_app; right;
            now left|].
    split; [reflexivity|]. split; [reflexivity|]. split; [reflexivity|].
    split; [now intros op ->|now intros ->].
Qed.

Lemma create_never_fails_for_lack_of_operator_witness :
  exists contact info,
    fst (create (request "user_no_op" None) 7 0 busy_db)
    = Ok (contact, info)
    /\ Contact.status contact = "new"
    /\ Contact.operator_id contact = None
    /\ Contact.assigned_at contact = None.
Proof.
  destruct (create_never_fails_for_lack_of_operator busy_db
              (request "user_no_op" None) 7 0 eq_refl) as [_ [_ H]].
  destruct (H telegram eq_refl eq_refl)
    as [lead [is_new [db1 [operator [info [contact
         [Hl [Hsel [Hc [_ [Hst [_ [_ [_ Hnone]]]]]]]]]]]]]].
  injection Hl as _ _ <-.
  assert (Hop : operator = None).
  { vm_compute in Hsel. now injection Hsel as <- _. }
  destruct (Hnone Hop) as [Ho Ha].
  exists contact. eexists. rewrite Hc. repeat split; assumption.
Defined.

(** ** Workload *)

Lemma count_is_live (db : Session) (operator_id : Z) :
  get_active_contacts_count db operator_id
  = Z.of_nat (live_count operator_id (contacts db)).
Proof.
  unfold get_active_contacts_count. f_equal.
  assert (Hp : forall c,
            col_eqb (Contact.operator_id c) operator_id
            && status_in active_statuses c
            = match Contact.operator_id c with
              | Some o =>
                  (o =? operator_id)
                  && ((Contact.status c =? "new")%string
                      || (Contact.status c =? "in_progress")%string)
              | None => false
              end).
  { intros c. unfold status_in, active_statuses, col_eqb. cbn [existsb].
    rewrite orb_false_r. now destruct (Contact.operator_id c). }
  induction (contacts db) as [|c cs IH]; [reflexivity|].
  cbn [filter live_count]. rewrite Hp.
  destruct (Contact.operator_id c) as [o|]; [|exact IH].
  destruct ((o =? operator_id)
            && ((Contact.status c =? "new")%string
                || (Contact.status c =? "in_progress")%string));
    cbn [List.length]; now rewrite IH.
Qed.

(** Adding a contact with status new raises the count of its operator by
    one and leaves the other counts alone. *)
Lemma count_after_add (db : Session) (c : Contact.t) (operator_id : Z) :
  Contact.status c = "new" ->
  get_active_contacts_count (add_contact c db) operator_id
  = get_active_contacts_count db operator_id
    + (if col_eqb (Contact.operator_id c) operator_id then 1 else 0).
Proof.
  intros Hst. unfold get_active_contacts_count, add_contact.
  cbn [contacts]. rewrite filter_app, length_app, Nat2Z.inj_add.
  f_equal. cbn [filter]. unfold status_in. rewrite Hst.
  destruct (col_eqb (Contact.operator_id c) operator_id); reflexivity.
Qed.

Lemma sole_operator_ext (db db' : Session) (source : Source.t)
  (a : OperatorSourceAssignment.t) (op : Operator.t) :
  operators db' = operators db -> sources db' = sources db ->
  assignments db' = assignments db ->
  sole_operator db source a op -> sole_operator db' source a op.
Proof.
  intros Ho Hs Ha [Hint [Hc [Hact [Hasg [Hop Hopa]]]]].
  unfold sole_operator.
  rewrite (integrity_ext db db' Ho Ha).
  unfold get_by_code, get_source_operators, assignment_operator,
    operator_get_by_id in *.
  rewrite Ho, Hs, Ha. repeat split; assumption.
Qed.

Lemma count_ext (db db' : Session) (operator_id : Z) :
  contacts db' = contacts db ->
  get_active_contacts_count db' operator_id
  = get_active_contacts_count db operator_id.
Proof. unfold get_active_contacts_count. now intros ->. Qed.

(** One creation against a source with a sole operator: it succeeds, the
    contact gets the operator exactly when the operator is under its
    limit, and the count of the operator follows. *)
Lemma create_sole (db : Session) (source : Source.t)
  (a : OperatorSourceAssignment.t) (op : Operator.t)
  (data : ContactCreate.t) (now : Z) (r : nat) :
  sole_operator db source a op ->
  ContactCreate.source_code data = Source.code source ->
  let load := get_active_contacts_count db (Operator.id op) in
  let free := load <? Operator.max_active_contacts op in
  exists c info db',
    create data now r db = (Ok (c, info), db')
    /\ Contact.status c = "new"
    /\ Contact.operator_id c = (if free then Some (Operator.id op) else None)
    /\ sole_operator db' source a op
    /\ get_active_contacts_count db' (Operator.id op)
       = load + (if free then 1 else 0).
Proof.
  intros Hsole Hcode load free.
  destruct (get_or_create_frame (ContactCreate.lead_external_id data)
              (ContactCreate.lead_name data) (ContactCreate.lead_phone data)
              (ContactCreate.lead_email data) now db)
    as [lead [is_new [db1 [Hl [Hops [Hsrc [Hasg Hcon]]]]]]].
  pose proof (sole_operator_ext db db1 source a op Hops Hsrc Hasg Hsole)
    as Hsole1.
  destruct Hsole1 as [Hint [Hc [Hact [Ha [Hop Hopa]]]]].
  destruct (select_operator_total db1 (Source.id source) r Hint)
    as [operator [info [Hsel [Hnone Hsome]]]].
  assert (Hel : eligible db1 a = free).
  { rewrite (eligible_eq db1 a op Hop), Hopa.
    now rewrite (count_ext db db1 _ Hcon). }
  assert (Hoperator : operator = if free then Some op else None).
  { rewrite Ha in Hnone, Hsome. cbn [filter] in Hnone. rewrite Hel in Hnone.
    destruct free.
    - destruct operator as [op'|].
      2:{ exfalso. assert (H0 : [a] = []) by (apply (proj2 Hnone); reflexivity).
          discriminate H0. }
      destruct (Hsome op' eq_refl) as [_ [_ [a' [[<-|[]] Ha']]]].
      congruence.
    - apply (proj1 Hnone). reflexivity. }
  set (c := created db1 lead source operator data now).
  exists c, (lead_info is_new ++ "; " ++ info), (add_contact c db1).
  split.
  { apply create_ok; try assumption.
    - rewrite Hcode. exact (proj1 (proj2 Hsole)).
    - now rewrite Hact. }
  split; [reflexivity|].
  assert (Hcid : Contact.operator_id c
                 = if free then Some (Operator.id op) else None).
  { unfold c, created. cbn. rewrite Hoperator. now destruct free. }
  split; [exact Hcid|]. split.
  { apply (sole_operator_ext db1); try reflexivity.
    repeat split; assumption. }
  rewrite count_after_add by reflexivity.
  rewrite (count_ext db db1 _ Hcon). fold load. rewrite Hcid.
  destruct free; cbn [col_eqb]; [now rewrite Z.eqb_refl|reflexivity].
Qed.

Lemma create_many_sole (source : Source.t) (a : OperatorSourceAssignment.t)
  (op : Operator.t) :
  forall (requests : list (ContactCreate.t * Z * nat)) (db : Session),
    sole_operator db source a op ->
    (forall q, In q requests ->
       ContactCreate.source_code (fst (fst q)) = Source.code source) ->
    forall k, (k < List.length requests)%nat ->
      exists c info,
        nth_error (fst (create_many requests db)) k = Some (Ok (c, info))
        /\ Contact.status c = "new"
        /\ Contact.operator_id c
           = if get_active_contacts_count db (Operator.id op) + Z.of_nat k
                <? Operator.max_active_contacts op
             then Some (Operator.id op) else None.
Proof.
  induction requests as [|[[data now] r] rest IH]; intros db Hsole Hreq k Hk;
    [simpl in Hk; lia|].
  destruct (create_sole db source a op data now r Hsole
              (Hreq (data, now, r) (or_introl eq_refl)))
    as [c [info [db' [Hc [Hst [Hop [Hsole' Hload]]]]]]].
  cbn [create_many]. rewrite Hc.
  destruct (create_many rest db') as [out db''] eqn:Erest.
  cbn [fst]. destruct k as [|k].
  - exists c, info. cbn [nth_error]. rewrite Z.add_0_r. now repeat split.
  - cbn [nth_error].
    destruct (IH db' Hsole' (fun q Hq => Hreq q (or_intror Hq)) k)
      as [c' [info' [Hnth [Hst' Hop']]]]; [simpl in Hk; lia|].
    rewrite Erest in Hnth. cbn [fst] in Hnth.
    exists c', info'. split; [exact Hnth|]. split; [exact Hst'|].
    rewrite Hop', Hload.
    destruct (get_active_contacts_count db (Operator.id op)
              <? Operator.max_active_contacts op) eqn:E.
    + f_equal. now replace (Z.of_nat (S k)) with (1 + Z.of_nat k) by lia;
        rewrite Z.add_assoc.
    + apply Z.ltb_ge in E.
      replace (_ + 0 + Z.of_nat k <? _) with false
        by (symmetry; apply Z.ltb_ge; lia).
      replace (_ + Z.of_nat (S k) <? _) with false
        by (symmetry; apply Z.ltb_ge; lia).
      reflexivity.
Qed.

(** C3. The count returned by [get_active_contacts_count] is the live
    number of the operator's contacts whose status is new or in_progress.
    In a run of creations against an active source whose only assignment
    belongs to an active operator with limit C and current count L, every
    creation succeeds with status new, and the creation number k (from 0)
    gets the operator exactly when L + k < C.  Starting from L = 0 the
    first C creations get the operator and every later one, the
    (C+1)-th first, gets none. *)
Theorem workload_is_live_and_limit_is_enforced :
  (forall db operator_id,
     get_active_contacts_count db operator_id
     = Z.of_nat (live_count operator_id (contacts db)))
  /\ (forall db source a op requests,
        sole_operator db source a op ->
        (forall q, In q requests ->
           ContactCreate.source_code (fst (fst q)) = Source.code source) ->
        let L := get_active_contacts_count db (Operator.id op) in
        let C := Operator.max_active_contacts op in
        forall k, (k < List.length requests)%nat ->
          exists c info,
            nth_error (fst (create_many requests db)) k = Some (Ok (c, info))
            /\ Contact.status c = "new"
            /\ Contact.operator_id c
               = (if L + Z.of_nat k <? C
                  then Some (Operator.id op) else None)
            /\ (L = 0 -> Z.of_nat k < C ->
                Contact.operator_id c = Some (Operator.id op))
            /\ (C <= Z.of_nat k -> Contact.operator_id c = None)).
Proof.
  split; [apply count_is_live|].
  intros db source a op requests Hsole Hreq L C k Hk.
  destruct (create_many_sole source a op requests db Hsole Hreq k Hk)
    as [c [info [Hnth [Hst Hop]]]].
  fold L C in Hop.
  exists c, info. split; [exact Hnth|]. split; [exact Hst|].
  split; [exact Hop|]. split.
  - intros HL Hlt. rewrite Hop.
    now replace (L + Z.of_nat k <? C) with true
      by (symmetry; apply Z.ltb_lt; lia).
  - intros Hge. rewrite Hop.
    assert (0 <= L) by (unfold L, get_active_contacts_count; lia).
    now replace (L + Z.of_nat k <? C) with false
      by (symmetry; apply Z.ltb_ge; lia).
Qed.

Lemma workload_is_live_and_limit_is_enforced_witness :
  exists c info,
    nth_error
      (fst (create_many
              [(request "user_0" None, 1, 0%nat);
               (request "user_1" None, 2, 5%nat);
               (request "user_2" None, 3, 9%nat)] solo_db)) 2
    = Some (Ok (c, info))
    /\ Contact.operator_id c = None.
Proof.
  assert (Hsole : sole_operator solo_db telegram
                    (OperatorSourceAssignment.mk 1 1 1 10) op1)
    by (repeat split).
  destruct (proj2 workload_is_live_and_limit_is_enforced solo_db telegram
              (OperatorSourceAssignment.mk 1 1 1 10) op1
              [(request "user_0" None, 1, 0%nat);
               (request "user_1" None, 2, 5%nat);
               (request "user_2" None, 3, 9%nat)] Hsole)
    with (k := 2%nat) as [c [info [Hnth [_ [_ [_ Hnone]]]]]].
  - intros q [<-|[<-|[<-|[]]]]; reflexivity.
  - simpl. lia.
  - exists c, info. split; [exact Hnth|]. apply Hnone. simpl. lia.
Defined.

(** ** Leads along a run *)

Lemma create_resolves (data : ContactCreate.t) (now : Z) (r : nat)
  (db db' : Session) (c : Contact.t) (info : string) :
  leads_pk db ->
  create data now r db = (Ok (c, info), db') ->
  exists lead,
    lead_by_external_id db' (ContactCreate.lead_external_id data) = Some lead
    /\ Contact.lead_id c = Lead.id lead
    /\ leads_pk db'
    /\ leads_extend db db'
    /\ (forall l0,
          lead_by_external_id db (ContactCreate.lead_external_id data)
            = Some l0 ->
          lead = filled_lead l0 (ContactCreate.lead_name data)
                   (ContactCreate.lead_phone data)
                   (ContactCreate.lead_email data)
          /\ List.length (leads db') = List.length (leads db)).
Proof.
  intros Hpk Hc.
  destruct (get_by_code db (ContactCreate.source_code data))
    as [source|] eqn:Es;
    [|rewrite (create_no_source _ _ _ _ Es) in Hc; discriminate].
  destruct (truthy_bool (Source.is_active source)) eqn:Eact;
    [|rewrite (create_inactive_source _ _ _ _ _ Es Eact) in Hc;
      discriminate].
  destruct (get_or_create_spec (ContactCreate.lead_external_id data)
              (ContactCreate.lead_name data) (ContactCreate.lead_phone data)
              (ContactCreate.lead_email data) now db Hpk)
    as [lead [is_new [db1 [Hl [Hpk1 [Hext [Hget Hold]]]]]]].
  destruct (select_operator db1 (Source.id source) r)
    as [[operator info']|e] eqn:Esel;
    [|rewrite (create_raise_select _ _ _ _ _ _ _ _ _ Es Eact Hl Esel) in Hc;
      discriminate].
  rewrite (create_ok _ _ _ _ _ _ _ _ _ _ Es Eact Hl Esel) in Hc.
  injection Hc as <- _ <-.
  exists lead. split; [exact Hget|]. split; [reflexivity|].
  split; [exact Hpk1|]. split; [exact Hext|].
  intros l0 Hl0. destruct (Hold l0 Hl0) as [H1 [_ H2]]. now split.
Qed.

Lemma create_leads (data : ContactCreate.t) (now : Z) (r : nat)
  (db : Session) :
  leads_pk db ->
  leads_pk (snd (create data now r db))
  /\ leads_extend db (snd (create data now r db)).
Proof.
  intros Hpk.
  destruct (get_by_code db (ContactCreate.source_code data))
    as [source|] eqn:Es.
  2:{ rewrite (create_no_source _ _ _ _ Es). cbn [snd].
      split; [assumption|apply leads_extend_refl]. }
  destruct (truthy_bool (Source.is_active source)) eqn:Eact.
  2:{ rewrite (create_inactive_source _ _ _ _ _ Es Eact). cbn [snd].
      split; [assumption|apply leads_extend_refl]. }
  destruct (get_or_create_spec (ContactCreate.lead_external_id data)
              (ContactCreate.lead_name data) (ContactCreate.lead_phone data)
              (ContactCreate.lead_email data) now db Hpk)
    as [lead [is_new [db1 [Hl [Hpk1 [Hext _]]]]]].
  destruct (select_operator db1 (Source.id source) r)
    as [[operator info']|e] eqn:Esel.
  - rewrite (create_ok _ _ _ _ _ _ _ _ _ _ Es Eact Hl Esel). cbn [snd].
    split; [exact Hpk1|exact Hext].
  - rewrite (create_raise_select _ _ _ _ _ _ _ _ _ Es Eact Hl Esel).
    cbn [snd]. split; [exact Hpk1|exact Hext].
Qed.

Lemma update_status_leads (contact_id : Z) (new_status : string) (now : Z)
  (db : Session) :
  leads (snd (update_status contact_id new_status now db)) = leads db.
Proof.
  unfold update_status, bind, query, commit, ret.
  now destruct (contact_get_by_id db contact_id).
Qed.

Lemma reassign_leads (contact_id now : Z) (r : nat) (db : Session) :
  leads (snd (reassign contact_id now r db)) = leads db.
Proof.
  unfold reassign, bind, query, commit, ret, lift.
  destruct (contact_get_by_id db contact_id) as [c|]; [|reflexivity].
  destruct (Contact.status c =? "closed")%string; [reflexivity|].
  now destruct (select_operator db (Contact.source_id c) r) as [[o i]|e].
Qed.

Lemma create_or_update_leads (data : AssignmentCreate.t) (db : Session) :
  leads (snd (create_or_update data db)) = leads db.
Proof.
  unfold create_or_update, bind, query, commit, ret.
  now destruct (find _ (assignments db)).
Qed.

Lemma pk_same (db db' : Session) :
  leads db' = leads db -> leads_pk db -> leads_pk db'.
Proof. unfold leads_pk. now intros ->. Qed.

Lemma step_leads (a : action) (db : Session) :
  leads_pk db -> leads_pk (step db a) /\ leads_extend db (step db a).
Proof.
  intros Hpk. destruct a as [data now r|cid st now|cid now r|data];
    cbn [step].
  - now apply create_leads.
  - pose proof (update_status_leads cid st now db) as E.
    split; [now apply (pk_same db)|now apply leads_extend_same].
  - pose proof (reassign_leads cid now r db) as E.
    split; [now apply (pk_same db)|now apply leads_extend_same].
  - pose proof (create_or_update_leads data db) as E.
    split; [now apply (pk_same db)|now apply leads_extend_same].
Qed.

Lemma run_leads (actions : list action) :
  forall db, leads_pk db ->
    leads_pk (run actions db) /\ leads_extend db (run actions db).
Proof.
  unfold run. induction actions as [|a actions IH]; intros db Hpk.
  - split; [assumption|apply leads_extend_refl].
  - cbn [fold_left]. destruct (step_leads a db Hpk) as [Hpk' Hext].
    destruct (IH _ Hpk') as [Hpk'' Hext'].
    split; [assumption|]. eapply leads_extend_trans; eassumption.
Qed.

(** C4, refuted as stated: after a first creation that carried the empty
    string as lead name, the name of the lead is set to the empty string,
    and a second creation for the same external id replaces it. *)
Lemma empty_name_is_overwritten : ~ set_fields_are_kept.
Proof.
  intros H.
  pose (second := request "user_7" (Some "Bob")).
  destruct (create second 2 0 blank_db) as [res db'] eqn:Ec.
  assert (Hres : exists out, res = Ok out)
    by (vm_compute in Ec; injection Ec as <- _; eexists; reflexivity).
  destruct Hres as [out ->].
  destruct (H blank_db second 2 0%nat
              (Lead.mk 1 "user_7" (Some "") None None (Some 1)) out db'
              eq_refl Ec)
    as [lead' [Hfind [Hname _]]].
  specialize (Hname "" eq_refl).
  vm_compute in Ec. injection Ec as _ <-.
  vm_compute in Hfind. injection Hfind as <-.
  discriminate Hname.
Qed.

(** C4, amended.  On a leads table with unique ids, two successful
    [create] calls that carry the same external id, with any run of
    service calls between them, resolve to the same lead id, and the
    second one adds no lead.  Every field of the lead (name, phone, email)
    that holds a non-empty value after the first call holds the same value
    after the second; the second call fills, with the non-empty values it
    carries, only the fields that are unset or empty at that moment. *)
Theorem lead_resolution_is_stable
  (db db1 db2 : Session) (first second : ContactCreate.t)
  (now1 now2 : Z) (r1 r2 : nat) (c1 c2 : Contact.t) (info1 info2 : string)
  (actions : list action) :
  leads_pk db ->
  create first now1 r1 db = (Ok (c1, info1), db1) ->
  ContactCreate.lead_external_id second
    = ContactCreate.lead_external_id first ->
  create second now2 r2 (run actions db1) = (Ok (c2, info2), db2) ->
  Contact.lead_id c2 = Contact.lead_id c1
  /\ List.length (leads db2) = List.length (leads (run actions db1))
  /\ exists l1 lm l2,
       lead_by_external_id db1 (ContactCreate.lead_external_id first)
         = Some l1
       /\ lead_by_external_id (run actions db1)
            (ContactCreate.lead_external_id first) = Some lm
       /\ lead_by_external_id db2 (ContactCreate.lead_external_id first)
          = Some l2
       /\ Lead.id l1 = Contact.lead_id c1
       /\ Lead.id l2 = Lead.id l1
       /\ (truthy_str (Lead.name l1) = true -> Lead.name l2 = Lead.name l1)
       /\ (truthy_str (Lead.phone l1) = true
           -> Lead.phone l2 = Lead.phone l1)
       /\ (truthy_str (Lead.email l1) = true
           -> Lead.email l2 = Lead.email l1)
       /\ Lead.name l2
          = (if truthy_str (Lead.name lm) then Lead.name lm
             else if truthy_str (ContactCreate.lead_name second)
                  then ContactCreate.lead_name second else Lead.name lm)
       /\ Lead.phone l2
          = (if truthy_str (Lead.phone lm) then Lead.phone lm
             else if truthy_str (ContactCreate.lead_phone second)
                  then ContactCreate.lead_phone second else Lead.phone lm)
       /\ Lead.email l2
          = (if truthy_str (Lead.email lm) then Lead.email lm
             else if truthy_str (ContactCreate.lead_email second)
                  then ContactCreate.lead_email second else Lead.email lm).
Proof.
  intros Hpk Hc1 Hext Hc2.
  destruct (create_resolves _ _ _ _ _ _ _ Hpk Hc1)
    as [l1 [Hl1 [Hid1 [Hpk1 _]]]].
  destruct (run_leads actions db1 Hpk1) as [Hpkm Hextm].
  destruct (Hextm _ _ Hl1) as [lm [Hlm Hkm]].
  destruct (create_resolves _ _ _ _ _ _ _ Hpkm Hc2)
    as [l2 [Hl2 [Hid2 [_ [_ Hold]]]]].
  rewrite Hext in Hl2, Hold.
  destruct (Hold lm Hlm) as [Hfilled Hlen].
  assert (Hk2 : keeps l1 l2).
  { eapply keeps_trans; [exact Hkm|]. rewrite Hfilled.
    apply filled_lead_keeps. }
  destruct Hk2 as [Hi [_ [Hn [Hp He]]]].
  split; [congruence|]. split; [exact Hlen|].
  exists l1, lm, l2.
  repeat (split; [solve [assumption | congruence]|]).
  assert (Hfill : forall value current,
            fst (fill value current)
            = if truthy_str current then current
              else if truthy_str value then value else current).
  { intros value current. unfold fill.
    destruct (truthy_str value), (truthy_str current); reflexivity. }
  rewrite Hfilled. unfold filled_lead. cbn. rewrite !Hfill. now repeat split.
Qed.

Lemma lead_resolution_is_stable_witness :
  exists c1 c2 info1 info2 db1 db2,
    create (request "user_456" (Some "Ann")) 1 0 demo_db
      = (Ok (c1, info1), db1)
    /\ create (request "user_456" (Some "Bob")) 3 1
         (run [UpdateStatus 1 "closed" 2] db1) = (Ok (c2, info2), db2)
    /\ Contact.lead_id c2 = Contact.lead_id c1
    /\ List.length (leads db2) = 1%nat.
Proof.
  assert (Hpk : leads_pk demo_db) by constructor.
  destruct (create (request "user_456" (Some "Ann")) 1 0 demo_db)
    as [res1 db1] eqn:E1.
  assert (H1 : exists c1 info1, res1 = Ok (c1, info1))
    by (vm_compute in E1; injection E1 as <- _; do 2 eexists; reflexivity).
  destruct H1 as [c1 [info1 ->]].
  destruct (create (request "user_456" (Some "Bob")) 3 1
              (run [UpdateStatus 1 "closed" 2] db1)) as [res2 db2] eqn:E2.
  assert (H2 : exists c2 info2, res2 = Ok (c2, info2)).
  { pose proof E1 as E1'. vm_compute in E1'. injection E1' as _ _ <-.
    vm_compute in E2. injection E2 as <- _. do 2 eexists. reflexivity. }
  destruct H2 as [c2 [info2 ->]].
  destruct (lead_resolution_is_stable demo_db db1 db2
              (request "user_456" (Some "Ann"))
              (request "user_456" (Some "Bob")) 1 3 0 1 c1 c2 info1 info2
              [UpdateStatus 1 "closed" 2] Hpk E1 eq_refl E2)
    as [Hid [Hlen _]].
  exists c1, c2, info1, info2, db1, db2.
  split; [reflexivity|]. split; [exact E2|]. split; [exact Hid|].
  rewrite Hlen. clear - E1. vm_compute in E1. injection E1 as _ _ <-.
  reflexivity.
Defined.

(** ** The data-model constraints along the service calls

    The constraints assumed of the store above are kept by the calls that
    write it: contact calls leave operators and assignments alone, and the
    assignment endpoint checks the operator before it writes a weight that
    the schema has bounded below by 1. *)

Lemma create_frame (data : ContactCreate.t) (now : Z) (r : nat)
  (db : Session) :
  operators (snd (create data now r db)) = operators db
  /\ assignments (snd (create data now r db)) = assignments db.
Proof.
  destruct (get_by_code db (ContactCreate.source_code data))
    as [source|] eqn:Es;
    [|rewrite (create_no_source _ _ _ _ Es); now split].
  destruct (truthy_bool (Source.is_active source)) eqn:Eact;
    [|rewrite (create_inactive_source _ _ _ _ _ Es Eact); now split].
  destruct (get_or_create_frame (ContactCreate.lead_external_id data)
              (ContactCreate.lead_name data) (ContactCreate.lead_phone data)
              (ContactCreate.lead_email data) now db)
    as [lead [is_new [db1 [Hl [Hops [_ [Hasg _]]]]]]].
  destruct (select_operator db1 (Source.id source) r)
    as [[operator info']|e] eqn:Esel.
  - rewrite (create_ok _ _ _ _ _ _ _ _ _ _ Es Eact Hl Esel). now split.
  - rewrite (create_raise_select _ _ _ _ _ _ _ _ _ Es Eact Hl Esel).
    now split.
Qed.

Lemma update_status_frame (contact_id : Z) (new_status : string) (now : Z)
  (db : Session) :
  operators (snd (update_status contact_id new_status now db)) = operators db
  /\ assignments (snd (update_status contact_id new_status now db))
     = assignments db.
Proof.
  unfold update_status, bind, query, commit, ret.
  now destruct (contact_get_by_id db contact_id).
Qed.

Lemma reassign_frame (contact_id now : Z) (r : nat) (db : Session) :
  operators (snd (reassign contact_id now r db)) = operators db
  /\ assignments (snd (reassign contact_id now r db)) = assignments db.
Proof.
  unfold reassign, bind, query, commit, ret, lift.
  destruct (contact_get_by_id db contact_id) as [c|]; [|now split].
  destruct (Contact.status c =? "closed")%string; [now split|].
  now destruct (select_operator db (Contact.source_id c) r) as [[o i]|e].
Qed.

Lemma integrity_contact_calls (db : Session) :
  integrity db = true ->
  (forall data now r, integrity (snd (create data now r db)) = true)
  /\ (forall contact_id new_status now,
        integrity (snd (update_status contact_id new_status now db)) = true)
  /\ (forall contact_id now r,
        integrity (snd (reassign contact_id now r db)) = true).
Proof.
  intros Hint. split; [|split]; intros.
  - destruct (create_frame data now r db) as [Ho Ha].
    now rewrite (integrity_ext db _ Ho Ha).
  - destruct (update_status_frame contact_id new_status now db) as [Ho Ha].
    now rewrite (integrity_ext db _ Ho Ha).
  - destruct (reassign_frame contact_id now r db) as [Ho Ha].
    now rewrite (integrity_ext db _ Ho Ha).
Qed.

Lemma integrity_assign (data : AssignmentCreate.t) (db : Session) :
  integrity db = true ->
  1 <= AssignmentCreate.weight data ->
  integrity (snd (assign_operator_to_source data db)) = true.
Proof.
  intros Hint Hw. unfold assign_operator_to_source.
  destruct (operator_get_by_id db (AssignmentCreate.operator_id data))
    as [o|] eqn:Eo; [|exact Hint].
  destruct (source_get_by_id db (AssignmentCreate.source_id data));
    [|exact Hint].
  unfold create_or_update, bind, query, commit, ret.
  unfold integrity in *. rewrite forallb_forall in Hint.
  destruct (find _ (assignments db)) as [ex|] eqn:Ef; cbn [snd].
  - apply find_some in Ef. destruct Ef as [Hin _].
    unfold update_assignment, assignment_operator, operator_get_by_id.
    cbn [assignments operators]. apply forallb_forall. intros a Ha.
    apply in_map_iff in Ha. destruct Ha as [a0 [<- Ha0]].
    destruct (_ =? _); [|now apply Hint].
    pose proof (Hint ex Hin) as Hex. apply andb_true_iff in Hex.
    apply andb_true_iff. split; [apply Hex|]. cbn. now apply Z.leb_le.
  - unfold add_assignment, assignment_operator, operator_get_by_id.
    cbn [assignments operators]. rewrite forallb_app.
    apply andb_true_iff. split; [apply forallb_forall; exact Hint|].
    cbn. unfold operator_get_by_id in Eo. rewrite Eo. cbn.
    rewrite andb_true_r. now apply Z.leb_le.
Qed.

(** The eligible set that [select_operator] draws from holds each operator
    once when the unique constraint of the assignments table holds. *)
Lemma source_operators_distinct (db : Session) (source_id : Z) :
  uq_operator_source db ->
  NoDup (map OperatorSourceAssignment.operator_id
           (get_source_operators db source_id)).
Proof.
  unfold uq_operator_source, get_source_operators.
  induction (assignments db) as [|a l IH]; intros Hnd; [constructor|].
  cbn [map] in Hnd. apply NoDup_cons_iff in Hnd. destruct Hnd as [Ha Hl].
  cbn [filter].
  destruct (OperatorSourceAssignment.source_id a =? source_id) eqn:E;
    [|now apply IH].
  cbn [map]. constructor; [|now apply IH].
  intros Hin. apply Ha. apply in_map_iff in Hin.
  destruct Hin as [b [Hb Hbin]]. apply filter_In in Hbin.
  destruct Hbin as [Hbin Hsrc]. apply in_map_iff. exists b.
  split; [|assumption]. unfold pair_of.
  apply Z.eqb_eq in E. apply Z.eqb_eq in Hsrc. congruence.
Qed.

Lemma entry_id (db : Session) (a : OperatorSourceAssignment.t)
  (e : Available) :
  entry db a = Some e ->
  Operator.id (av_operator e) = OperatorSourceAssignment.operator_id a.
Proof.
  unfold entry, assignment_operator, operator_get_by_id.
  destruct (find _ (operators db)) as [o|] eqn:Eo; [|discriminate].
  intros [= <-]. apply find_some in Eo. now apply Z.eqb_eq.
Qed.

Lemma entries_distinct (db : Session)
  (l : list OperatorSourceAssignment.t) :
  NoDup (map OperatorSourceAssignment.operator_id l) ->
  NoDup (map (fun e => Operator.id (av_operator e)) (entries db l))
  /\ forall i,
       In i (map (fun e => Operator.id (av_operator e)) (entries db l)) ->
       In i (map OperatorSourceAssignment.operator_id l).
Proof.
  induction l as [|a l IH]; intros Hnd; [split; [constructor|trivial]|].
  cbn [map] in Hnd. apply NoDup_cons_iff in Hnd. destruct Hnd as [Ha Hl].
  destruct (IH Hl) as [IH1 IH2].
  unfold entries in *. cbn [flat_map].
  destruct (entry db a) as [e|] eqn:Ee; cbn [app map].
  - apply entry_id in Ee. rewrite Ee. split.
    + constructor; [|exact IH1]. intros Hin. apply Ha. now apply IH2.
    + intros i [<-|Hi]; [now left|right; now apply IH2].
  - split; [exact IH1|]. intros i Hi. right. now apply IH2.
Qed.

Lemma sublist_map_NoDup {A K} (key : A -> K) (p : A -> bool) (l : list A) :
  NoDup (map key l) -> NoDup (map key (filter p l)).
Proof.
  induction l as [|a l IH]; intros Hnd; [constructor|].
  cbn [map] in Hnd. apply NoDup_cons_iff in Hnd. destruct Hnd as [Ha Hl].
  cbn [filter]. destruct (p a); [|now apply IH].
  cbn [map]. constructor; [|now apply IH].
  intros Hin. apply Ha. apply in_map_iff in Hin.
  destruct Hin as [b [Hb Hbin]]. apply filter_In in Hbin.
  apply in_map_iff. exists b. now split.
Qed.

Lemma eligible_set_distinct (db : Session) (source_id : Z) :
  uq_operator_source db ->
  NoDup (map (fun e => Operator.id (av_operator e))
           (entries db (filter (eligible db)
                          (get_source_operators db source_id)))).
Proof.
  intros Huq. apply entries_distinct. apply sublist_map_NoDup.
  now apply source_operators_distinct.
Qed.

(** * Further properties of the service layer *)

(** ** What a successful [create] did *)

Lemma create_inv (data : ContactCreate.t) (now : Z) (r : nat)
  (db db' : Session) (c : Contact.t) (info : string) :
  create data now r db = (Ok (c, info), db') ->
  exists source lead is_new db1 operator info',
    get_by_code db (ContactCreate.source_code data) = Some source
    /\ truthy_bool (Source.is_active source) = true
    /\ get_or_create (ContactCreate.lead_external_id data)
         (ContactCreate.lead_name data) (ContactCreate.lead_phone data)
         (ContactCreate.lead_email data) now db = (Ok (lead, is_new), db1)
    /\ operators db1 = operators db
    /\ sources db1 = sources db
    /\ assignments db1 = assignments db
    /\ contacts db1 = contacts db
    /\ select_operator db1 (Source.id source) r = Ok (operator, info')
    /\ c = created db1 lead source operator data now
    /\ info = lead_info is_new ++ "; " ++ info'
    /\ db' = add_contact c db1.
Proof.
  intros Hc.
  destruct (get_by_code db (ContactCreate.source_code data))
    as [source|] eqn:Es;
    [|rewrite (create_no_source _ _ _ _ Es) in Hc; discriminate].
  destruct (truthy_bool (Source.is_active source)) eqn:Eact;
    [|rewrite (create_inactive_source _ _ _ _ _ Es Eact) in Hc;
      discriminate].
  destruct (get_or_create_frame (ContactCreate.lead_external_id data)
              (ContactCreate.lead_name data) (ContactCreate.lead_phone data)
              (ContactCreate.lead_email data) now db)
    as [lead [is_new [db1 [Hl [Hops [Hsrc [Hasg Hcon]]]]]]].
  destruct (select_operator db1 (Source.id source) r)
    as [[operator info']|e] eqn:Esel;
    [|rewrite (create_raise_select _ _ _ _ _ _ _ _ _ Es Eact Hl Esel) in Hc;
      discriminate].
  rewrite (create_ok _ _ _ _ _ _ _ _ _ _ Es Eact Hl Esel) in Hc.
  injection Hc as <- <- <-.
  exists source, lead, is_new, db1, operator, info'.
  repeat split; assumption.
Qed.

Lemma find_app_fresh {A} (key : A -> Z) (l : list A) (row : A) :
  (forall x, In x l -> key x < key row) ->
  find (fun x => key x =? key row) (l ++ [row]) = Some row.
Proof.
  intros Hfresh. rewrite find_app_none.
  - cbn [find]. now rewrite Z.eqb_refl.
  - destruct (find _ l) as [x|] eqn:E; [|reflexivity].
    apply find_some in E. destruct E as [Hin Hx].
    apply Z.eqb_eq in Hx. apply Hfresh in Hin. lia.
Qed.

Lemma next_id_above {A} (key : A -> Z) (l : list A) :
  forall x, In x l -> key x < next_id (map key l).
Proof. intros x Hx. apply next_id_fresh. now apply in_map. Qed.

(** X1. The contact returned by a successful [create] is the one that
    [get_by_id] reads back under its id; every contact that could be read
    before is read unchanged; the primary key of the table stays unique;
    and the contact joins the contacts of its lead and of no other. *)
Theorem create_then_get_by_id (data : ContactCreate.t) (now : Z) (r : nat)
  (db db' : Session) (c : Contact.t) (info : string) :
  create data now r db = (Ok (c, info), db') ->
  contact_get_by_id db' (Contact.id c) = Some c
  /\ (forall i c0,
        contact_get_by_id db i = Some c0 ->
        contact_get_by_id db' i = Some c0)
  /\ (contacts_pk db -> contacts_pk db')
  /\ (forall lead_id,
        lead_contacts db' lead_id
        = (lead_contacts db lead_id
           ++ (if Contact.lead_id c =? lead_id then [c] else []))%list).
Proof.
  intros Hc.
  destruct (create_inv _ _ _ _ _ _ _ Hc)
    as [source [lead [is_new [db1 [operator [info'
         [_ [_ [_ [_ [_ [_ [Hcon [_ [Hcr [_ ->]]]]]]]]]]]]]]]].
  assert (Hid : Contact.id c = next_id (map Contact.id (contacts db))).
  { rewrite Hcr. unfold created. cbn. now rewrite Hcon. }
  unfold contact_get_by_id, lead_contacts, contacts_pk, add_contact.
  cbn [contacts]. rewrite Hcon.
  split; [|split; [|split]].
  - apply (find_app_fresh Contact.id). intros x Hx. rewrite Hid.
    now apply next_id_above.
  - intros i c0 H. now apply find_app_some.
  - intros Hpk. rewrite map_app. cbn [map]. rewrite Hid.
    now apply NoDup_next_id.
  - intros lead_id. rewrite filter_app. cbn [filter].
    now destruct (Contact.lead_id c =? lead_id).
Qed.

Lemma create_then_get_by_id_witness :
  exists c info db',
    create (request "user_123" None) 4 7 demo_db = (Ok (c, info), db')
    /\ contact_get_by_id db' (Contact.id c) = Some c.
Proof.
  destruct (create (request "user_123" None) 4 7 demo_db)
    as [res db'] eqn:E.
  assert (H : exists c info, res = Ok (c, info))
    by (vm_compute in E; injection E as <- _; do 2 eexists; reflexivity).
  destruct H as [c [info ->]].
  exists c, info, db'. split; [reflexivity|].
  exact (proj1 (create_then_get_by_id _ _ _ _ _ _ _ E)).
Defined.

(** ** Counting over a table after an update by primary key *)

Lemma map_update_absent {A} (key : A -> Z) (l : list A) (row : A) :
  ~ In (key row) (map key l) ->
  map (fun x => if key x =? key row then row else x) l = l.
Proof.
  induction l as [|x l IH]; intros Hn; [reflexivity|].
  cbn [map] in *. rewrite IH by (intros H; apply Hn; now right).
  destruct (key x =? key row) eqn:E; [|reflexivity].
  apply Z.eqb_eq in E. exfalso. apply Hn. now left.
Qed.

Lemma filter_update_length {A} (key : A -> Z) (p : A -> bool)
  (l : list A) (old row : A) :
  NoDup (map key l) -> In old l -> key row = key old ->
  Z.of_nat (List.length
              (filter p (map (fun x => if key x =? key row then row else x)
                           l)))
  = Z.of_nat (List.length (filter p l)) - Z.b2z (p old) + Z.b2z (p row).
Proof.
  intros Hnd Hin Hk. induction l as [|x l IH]; [contradiction|].
  cbn [map] in Hnd. apply NoDup_cons_iff in Hnd. destruct Hnd as [Hx Hl].
  cbn [map filter]. destruct Hin as [->|Hin].
  - rewrite Hk, Z.eqb_refl. rewrite <- Hk.
    rewrite map_update_absent by now rewrite Hk.
    destruct (p old), (p row); cbn [List.length Z.b2z]; lia.
  - destruct (key x =? key row) eqn:E.
    + apply Z.eqb_eq in E. exfalso. apply Hx. rewrite E, Hk.
      now apply in_map.
    + specialize (IH Hl Hin).
      destruct (p x); cbn [List.length]; lia.
Qed.

Lemma count_after_update (db : Session) (old row : Contact.t) (i : Z) :
  contacts_pk db -> In old (contacts db) ->
  Contact.id row = Contact.id old ->
  get_active_contacts_count (update_contact row db) i
  = get_active_contacts_count db i
    - Z.b2z (counts_for i old) + Z.b2z (counts_for i row).
Proof.
  intros Hpk Hin Hid. unfold get_active_contacts_count, update_contact.
  cbn [contacts].
  exact (filter_update_length Contact.id (counts_for i) (contacts db)
           old row Hpk Hin Hid).
Qed.

Lemma contact_found_in (db : Session) (contact_id : Z) (c : Contact.t) :
  contact_get_by_id db contact_id = Some c -> In c (contacts db).
Proof. intros H. now apply find_some in H. Qed.

(** ** Load after a status update *)

(** X3. On a contacts table with unique ids, [update_status] changes the
    load of an operator by the contact alone: the contact leaves the count
    if it was counted and enters it if it carries the operator and the
    requested status is new or in_progress.  Closing an active contact
    lowers the load of its operator by one; moving a closed contact back
    to new raises it by one, whatever the limit of the operator. *)
Theorem update_status_load (db : Session) (contact_id : Z)
  (new_status : string) (now : Z) (c : Contact.t) :
  contacts_pk db ->
  contact_get_by_id db contact_id = Some c ->
  let db' := snd (update_status contact_id new_status now db) in
  (forall i,
     get_active_contacts_count db' i
     = get_active_contacts_count db i
       - Z.b2z (counts_for i c)
       + Z.b2z (col_eqb (Contact.operator_id c) i
                && existsb (String.eqb new_status) active_statuses))
  /\ (forall o,
        Contact.operator_id c = Some o ->
        status_in active_statuses c = true ->
        new_status = "closed" ->
        get_active_contacts_count db' o
        = get_active_contacts_count db o - 1)
  /\ (forall o,
        Contact.operator_id c = Some o ->
        Contact.status c = "closed" ->
        new_status = "new" ->
        get_active_contacts_count db' o
        = get_active_contacts_count db o + 1).
Proof.
  intros Hpk Hc db'.
  assert (Hload : forall i,
            get_active_contacts_count db' i
            = get_active_contacts_count db i
              - Z.b2z (counts_for i c)
              + Z.b2z (col_eqb (Contact.operator_id c) i
                       && existsb (String.eqb new_status) active_statuses)).
  { intros i. unfold db'. rewrite (update_status_found _ _ _ _ _ Hc).
    cbn [snd].
    rewrite (count_after_update db c (with_status c new_status now) i Hpk
               (contact_found_in _ _ _ Hc) eq_refl).
    reflexivity. }
  split; [exact Hload|]. split.
  - intros o Ho Hact ->. rewrite Hload. unfold counts_for.
    rewrite Ho, Hact. cbn. rewrite Z.eqb_refl. cbn. lia.
  - intros o Ho Hst ->. rewrite Hload. unfold counts_for, status_in.
    rewrite Ho, Hst. cbn. rewrite Z.eqb_refl. cbn. lia.
Qed.

Lemma update_status_load_witness :
  get_active_contacts_count (snd (update_status 1 "closed" 8 busy_db)) 2 = 1
  /\ get_active_contacts_count (snd (update_status 1 "new" 8 closed_db)) 1
     = 1.
Proof.
  assert (Hb : contacts_pk busy_db).
  { unfold contacts_pk. repeat constructor; simpl; intuition discriminate. }
  assert (Hc : contacts_pk closed_db).
  { unfold contacts_pk. repeat constructor; simpl; intuition discriminate. }
  split.
  - destruct (update_status_load busy_db 1 "closed" 8 (new_contact 1 1 2)
                Hb eq_refl) as [_ [H _]].
    rewrite (H 2 eq_refl eq_refl eq_refl). reflexivity.
  - destruct (update_status_load closed_db 1 "new" 8
                (Contact.mk 1 1 1 (Some 1) "closed" None (Some 0) (Some 0)
                   (Some 3)) Hc eq_refl) as [_ [_ H]].
    rewrite (H 1 eq_refl eq_refl eq_refl). reflexivity.
Defined.

(** ** Operators stay within their limits *)

Lemma select_some_inv (db : Session) (source_id : Z) (r : nat)
  (op : Operator.t) (info : string) :
  select_operator db source_id r = Ok (Some op, info) ->
  exists a,
    In a (get_source_operators db source_id)
    /\ eligible db a = true
    /\ assignment_operator db a = Some op.
Proof.
  unfold select_operator.
  destruct (get_source_operators db source_id) as [|a0 l] eqn:Ea;
    [discriminate|].
  cbv beta iota zeta. remember (a0 :: l) as asg eqn:Easg.
  destruct (filter_available db asg [] []) as [[av rs]|e] eqn:Ef;
    [|discriminate].
  pose proof (filter_available_inv _ _ _ _ _ Ef) as Hall.
  rewrite (filter_available_ok db _ _ _ Hall) in Ef.
  cbn [app] in Ef. injection Ef as <- _. cbn [rbind].
  destruct (entries db (filter (eligible db) asg)) as [|e av] eqn:Eav;
    [discriminate|].
  destruct (random_choice r (weighted_choices (e :: av))) as [sel|x] eqn:Er;
    [|discriminate].
  cbn [rbind]. destruct (_ =? 0); [discriminate|].
  intros [= -> _].
  apply random_choice_In, weighted_choices_In in Er.
  destruct Er as [e' [He' [Ho _]]]. rewrite <- Eav in He'.
  apply entries_In in He'. destruct He' as [a [Ha Hentry]].
  apply filter_In in Ha. destruct Ha as [Ha Hel].
  exists a. split; [exact Ha|]. split; [exact Hel|].
  unfold entry in Hentry.
  destruct (assignment_operator db a); [|discriminate].
  injection Hentry as <-. now subst.
Qed.

Lemma selected_has_room (db : Session) (source_id : Z) (r : nat)
  (op : Operator.t) (info : string) :
  select_operator db source_id r = Ok (Some op, info) ->
  In op (operators db)
  /\ Operator.is_active op = true
  /\ get_active_contacts_count db (Operator.id op)
     < Operator.max_active_contacts op.
Proof.
  intros H. destruct (select_some_inv _ _ _ _ _ H) as [a [_ [Hel Ha]]].
  apply eligible_sound in Hel. destruct Hel as [o [Ho [Hact Hload]]].
  rewrite Ha in Ho. injection Ho as <-.
  split; [|now split].
  unfold assignment_operator, operator_get_by_id in Ha.
  now apply find_some in Ha.
Qed.

Lemma within_limits_ext (db db' : Session) :
  operators db' = operators db -> contacts db' = contacts db ->
  within_limits db -> within_limits db'.
Proof.
  intros Ho Hc H o Hin. rewrite Ho in Hin.
  rewrite (count_ext db db' _ Hc). now apply H.
Qed.

Lemma create_keeps_limits (db : Session) (data : ContactCreate.t) (now : Z)
  (r : nat) :
  operators_pk db -> within_limits db ->
  within_limits (snd (create data now r db)).
Proof.
  intros Hpk Hlim.
  destruct (get_by_code db (ContactCreate.source_code data))
    as [source|] eqn:Es;
    [|now rewrite (create_no_source _ _ _ _ Es)].
  destruct (truthy_bool (Source.is_active source)) eqn:Eact;
    [|now rewrite (create_inactive_source _ _ _ _ _ Es Eact)].
  destruct (get_or_create_frame (ContactCreate.lead_external_id data)
              (ContactCreate.lead_name data) (ContactCreate.lead_phone data)
              (ContactCreate.lead_email data) now db)
    as [lead [is_new [db1 [Hl [Hops [_ [_ Hcon]]]]]]].
  pose proof (within_limits_ext db db1 Hops Hcon Hlim) as Hlim1.
  destruct (select_operator db1 (Source.id source) r)
    as [[operator info']|e] eqn:Esel.
  2:{ now rewrite (create_raise_select _ _ _ _ _ _ _ _ _ Es Eact Hl Esel). }
  rewrite (create_ok _ _ _ _ _ _ _ _ _ _ Es Eact Hl Esel). cbn [snd].
  intros o Ho. cbn [add_contact operators] in Ho.
  rewrite count_after_add by reflexivity.
  pose proof (Hlim1 o Ho) as Hle.
  destruct operator as [op|]; cbn [created Contact.operator_id option_map
                                     col_eqb]; [|lia].
  destruct (Operator.id op =? Operator.id o) eqn:E; [|lia].
  apply Z.eqb_eq in E.
  destruct (selected_has_room _ _ _ _ _ Esel) as [Hin [_ Hroom]].
  assert (op = o).
  { apply (NoDup_key_inj Operator.id (operators db)); try assumption.
    - now rewrite <- Hops.
    - now rewrite <- Hops. }
  subst o. lia.
Qed.

Lemma reassign_keeps_limits (db : Session) (contact_id now : Z) (r : nat) :
  operators_pk db -> contacts_pk db -> within_limits db ->
  within_limits (snd (reassign contact_id now r db)).
Proof.
  intros Hpk Hcpk Hlim.
  unfold reassign, bind, query, ret, lift, commit.
  destruct (contact_get_by_id db contact_id) as [c|] eqn:Ec; [|exact Hlim].
  destruct (Contact.status c =? "closed")%string; [exact Hlim|].
  destruct (select_operator db (Contact.source_id c) r)
    as [[operator info]|e] eqn:Esel; [|exact Hlim].
  cbn [snd]. fold (reassigned c operator now).
  intros o Ho. cbn [update_contact operators] in Ho.
  rewrite (count_after_update db c (reassigned c operator now) _ Hcpk
             (contact_found_in _ _ _ Ec) eq_refl).
  pose proof (Hlim o Ho) as Hle.
  assert (Hb : forall b : bool, 0 <= Z.b2z b <= 1) by (intros []; cbn; lia).
  pose proof (Hb (counts_for (Operator.id o) c)).
  destruct (counts_for (Operator.id o) (reassigned c operator now)) eqn:Enew;
    cbn [Z.b2z]; [|lia].
  unfold counts_for, reassigned in Enew. cbn in Enew.
  destruct operator as [op|]; [|discriminate]. cbn in Enew.
  apply andb_true_iff in Enew. destruct Enew as [E _].
  apply Z.eqb_eq in E.
  destruct (selected_has_room _ _ _ _ _ Esel) as [Hin [_ Hroom]].
  assert (op = o)
    by (apply (NoDup_key_inj Operator.id (operators db)); assumption).
  subst o. lia.
Qed.

(** X2. With unique operator ids, a store in which no operator holds more
    active contacts than its limit stays so after [create], whatever its
    outcome; with unique contact ids it stays so after [reassign] too. *)
Theorem limits_are_kept (db : Session) :
  operators_pk db -> within_limits db ->
  (forall data now r, within_limits (snd (create data now r db)))
  /\ (contacts_pk db ->
      forall contact_id now r,
        within_limits (snd (reassign contact_id now r db))).
Proof.
  intros Hpk Hlim. split.
  - intros. now apply create_keeps_limits.
  - intros Hc. intros. now apply reassign_keeps_limits.
Qed.

Lemma limits_are_kept_witness :
  within_limits (snd (create (request "user_1" None) 1 3 demo_db)).
Proof.
  assert (Hpk : operators_pk demo_db).
  { unfold operators_pk. repeat constructor; simpl; intuition discriminate. }
  assert (Hlim : within_limits demo_db).
  { intros o [<-|[<-|[]]]; vm_compute; discriminate. }
  exact (proj1 (limits_are_kept demo_db Hpk Hlim) _ _ _).
Defined.

(** ** Reassignment against a sole operator *)

Lemma select_sole (db : Session) (source : Source.t)
  (a : OperatorSourceAssignment.t) (op : Operator.t) (r : nat) :
  sole_operator db source a op ->
  exists info,
    select_operator db (Source.id source) r
    = Ok (if get_active_contacts_count db (Operator.id op)
             <? Operator.max_active_contacts op
          then Some op else None, info).
Proof.
  intros [Hint [_ [_ [Ha [Hop Hact]]]]].
  destruct (select_operator_total db (Source.id source) r Hint)
    as [operator [info [Hsel [Hnone Hsome]]]].
  exists info. rewrite Hsel. do 2 f_equal.
  rewrite Ha in Hnone, Hsome. cbn [filter] in Hnone.
  rewrite (eligible_eq db a op Hop), Hact in Hnone. cbn [andb] in Hnone.
  destruct (_ <? _).
  - destruct operator as [op'|].
    + destruct (Hsome op' eq_refl) as [_ [_ [a' [[<-|[]] Ha']]]]. congruence.
    + assert (H0 : [a] = []) by (apply (proj2 Hnone); reflexivity).
      discriminate H0.
  - apply (proj1 Hnone). reflexivity.
Qed.

(** X4. [reassign] counts the contact itself in the load of its operator.
    On a source whose only assignment belongs to an active operator, an
    open contact of that source is given the operator exactly when the
    operator's count, this contact included, is under its limit; so a
    contact held by an operator that is exactly at its limit comes out of
    [reassign] with no operator and no assignment time. *)
Theorem reassign_counts_own_contact (db : Session) (source : Source.t)
  (a : OperatorSourceAssignment.t) (op : Operator.t)
  (contact_id now : Z) (r : nat) (c : Contact.t) :
  sole_operator db source a op ->
  contact_get_by_id db contact_id = Some c ->
  Contact.source_id c = Source.id source ->
  Contact.status c <> "closed" ->
  let free := get_active_contacts_count db (Operator.id op)
              <? Operator.max_active_contacts op in
  exists c' info,
    reassign contact_id now r db = (Ok (Some c', info), update_contact c' db)
    /\ Contact.operator_id c'
       = (if free then Some (Operator.id op) else None)
    /\ Contact.assigned_at c' = (if free then Some now else None)
    /\ (Contact.operator_id c = Some (Operator.id op) ->
        get_active_contacts_count db (Operator.id op)
        = Operator.max_active_contacts op ->
        Contact.operator_id c' = None /\ Contact.assigned_at c' = None).
Proof.
  intros Hsole Hc Hsrc Hst free.
  destruct (select_sole db source a op r Hsole) as [info Hsel].
  fold free in Hsel.
  exists (reassigned c (if free then Some op else None) now), info.
  split; [|split; [|split]].
  - unfold reassign, bind, query, ret, lift, commit. rewrite Hc.
    apply String.eqb_neq in Hst. rewrite <- Hsrc in Hsel.
    rewrite Hst, Hsel. reflexivity.
  - now destruct free.
  - now destruct free.
  - intros _ Hfull. unfold free. rewrite Hfull, Z.ltb_irrefl. now split.
Qed.

Lemma reassign_counts_own_contact_witness :
  exists c' info,
    fst (reassign 1 9 0 (snd (create_many
                                [(request "user_0" None, 1, 0%nat);
                                 (request "user_1" None, 2, 0%nat)]
                                solo_db)))
    = Ok (Some c', info)
    /\ Contact.operator_id c' = None.
Proof.
  set (db := snd (create_many [(request "user_0" None, 1, 0%nat);
                               (request "user_1" None, 2, 0%nat)] solo_db)).
  assert (Hsole : sole_operator db telegram
                    (OperatorSourceAssignment.mk 1 1 1 10) op1)
    by (repeat split).
  destruct (reassign_counts_own_contact db telegram
              (OperatorSourceAssignment.mk 1 1 1 10) op1 1 9 0
              (Contact.mk 1 1 1 (Some 1) "new" None (Some 1) (Some 1) None)
              Hsole eq_refl eq_refl)
    as [c' [info [Hre [_ [_ Hfull]]]]]; [discriminate|].
  exists c', info. rewrite Hre. split; [reflexivity|].
  now apply Hfull.
Defined.

(** ** System statistics along the contact calls *)

Lemma get_or_create_leads_length (external_id : string)
  (name phone email : option string) (now : Z) (db db1 : Session)
  (lead : Lead.t) (is_new : bool) :
  get_or_create external_id name phone email now db
  = (Ok (lead, is_new), db1) ->
  is_new = negb (is_some (lead_by_external_id db external_id))
  /\ List.length (leads db1)
     = (List.length (leads db) + if is_new then 1 else 0)%nat.
Proof.
  destruct (lead_by_external_id db external_id) as [l0|] eqn:Ef.
  - rewrite (get_or_create_found _ _ _ _ _ _ _ Ef). intros [= _ <- <-].
    split; [reflexivity|].
    destruct (_ || _); unfold update_lead; cbn [leads];
      rewrite ?length_map; lia.
  - rewrite (get_or_create_new _ _ _ _ _ _ Ef). intros [= _ <- <-].
    split; [reflexivity|].
    unfold add_lead. cbn [leads]. rewrite length_app. reflexivity.
Qed.

(** X6. A successful [create] raises the total and the active number of
    contacts of [get_system_stats] by one each, raises the number of leads
    by one exactly when no lead had the external id, and leaves the
    operator and source counters as they were. *)
Theorem stats_after_create (data : ContactCreate.t) (now : Z) (r : nat)
  (db db' : Session) (c : Contact.t) (info : string) :
  create data now r db = (Ok (c, info), db') ->
  let before := StatsService.get_system_stats db in
  let after := StatsService.get_system_stats db' in
  StatsService.total_contacts after = StatsService.total_contacts before + 1
  /\ StatsService.active_contacts after
     = StatsService.active_contacts before + 1
  /\ StatsService.total_leads after
     = StatsService.total_leads before
       + (if is_some (lead_by_external_id db
                        (ContactCreate.lead_external_id data))
          then 0 else 1)
  /\ StatsService.total_operators after = StatsService.total_operators before
  /\ StatsService.active_operators after
     = StatsService.active_operators before
  /\ StatsService.total_sources after = StatsService.total_sources before.
Proof.
  intros Hc.
  destruct (create_inv _ _ _ _ _ _ _ Hc)
    as [source [lead [is_new [db1 [operator [info'
         [_ [_ [Hl [Hops [Hsrc [_ [Hcon [_ [Hcr [_ ->]]]]]]]]]]]]]]]].
  destruct (get_or_create_leads_length _ _ _ _ _ _ _ _ _ Hl) as [Hnew Hlen].
  unfold StatsService.get_system_stats, StatsService.count, add_contact.
  cbn. rewrite Hops, Hsrc, Hcon, Hlen, Hnew.
  rewrite !filter_app, !length_app. cbn [filter].
  replace (status_in active_statuses c) with true
    by (rewrite Hcr; reflexivity).
  cbn [List.length].
  destruct (is_some _); cbn [negb]; repeat split; lia.
Qed.

Lemma stats_after_create_witness :
  StatsService.total_leads
    (StatsService.get_system_stats
       (snd (create (request "user_1" None) 5 0 busy_db))) = 1
  /\ StatsService.active_contacts
       (StatsService.get_system_stats
          (snd (create (request "user_1" None) 5 0 busy_db))) = 3.
Proof.
  destruct (create (request "user_1" None) 5 0 busy_db) as [res db'] eqn:E.
  assert (H : exists c info, res = Ok (c, info))
    by (vm_compute in E; injection E as <- _; do 2 eexists; reflexivity).
  destruct H as [c [info ->]].
  destruct (stats_after_create _ _ _ _ _ _ _ E) as [_ [Ha [Hl _]]].
  cbn [snd]. rewrite Ha, Hl. split; reflexivity.
Defined.

Lemma active_after_update (db : Session) (old row : Contact.t) :
  contacts_pk db -> In old (contacts db) ->
  Contact.id row = Contact.id old ->
  StatsService.active_contacts
    (StatsService.get_system_stats (update_contact row db))
  = StatsService.active_contacts (StatsService.get_system_stats db)
    - Z.b2z (status_in active_statuses old)
    + Z.b2z (status_in active_statuses row).
Proof.
  intros Hpk Hin Hid.
  unfold StatsService.get_system_stats, StatsService.count, update_contact.
  cbn [contacts StatsService.active_contacts].
  exact (filter_update_length Contact.id (status_in active_statuses)
           (contacts db) old row Hpk Hin Hid).
Qed.

(** X5. On a contacts table with unique ids, [reassign] changes none of
    the counters of [get_system_stats], whatever its outcome: contacts
    move between operators, none appears, disappears or changes status. *)
Theorem stats_after_reassign (db : Session) (contact_id now : Z) (r : nat) :
  contacts_pk db ->
  StatsService.get_system_stats (snd (reassign contact_id now r db))
  = StatsService.get_system_stats db.
Proof.
  intros Hpk. unfold reassign, bind, query, ret, lift, commit.
  destruct (contact_get_by_id db contact_id) as [c|] eqn:Ec; [|reflexivity].
  destruct (Contact.status c =? "closed")%string; [reflexivity|].
  destruct (select_operator db (Contact.source_id c) r)
    as [[operator info]|e]; [|reflexivity].
  cbn [snd]. fold (reassigned c operator now).
  pose proof (active_after_update db c (reassigned c operator now) Hpk
                (contact_found_in _ _ _ Ec) eq_refl) as Hact.
  replace (status_in active_statuses (reassigned c operator now))
    with (status_in active_statuses c) in Hact by reflexivity.
  unfold StatsService.get_system_stats in *.
  cbn [StatsService.active_contacts] in Hact.
  cbn [update_contact operators sources leads contacts] in *.
  f_equal.
  - unfold StatsService.count. now rewrite length_map.
  - rewrite Hact. lia.
Qed.

Lemma stats_after_reassign_witness :
  StatsService.get_system_stats (snd (reassign 1 9 0 busy_db))
  = StatsService.get_system_stats busy_db.
Proof.
  apply stats_after_reassign.
  unfold contacts_pk. repeat constructor; simpl; intuition discriminate.
Defined.

(** ** More on lead resolution *)

Lemma fill_settles (value current : option string) :
  snd (fill value (fst (fill value current))) = false.
Proof.
  unfold fill.
  destruct (truthy_str value) eqn:Ev, (truthy_str current) eqn:Ec;
    cbn [andb negb fst snd]; rewrite ?Ev, ?Ec; reflexivity.
Qed.

Lemma fill_same (value : option string) : snd (fill value value) = false.
Proof. unfold fill. now destruct (truthy_str value). Qed.

(** X7. [get_or_create] is idempotent: on a leads table with unique ids,
    a second call with the same arguments returns the lead of the first
    call, reports it as existing and writes nothing. *)
Theorem get_or_create_twice (external_id : string)
  (name phone email : option string) (now now' : Z) (db db1 : Session)
  (lead : Lead.t) (is_new : bool) :
  leads_pk db ->
  get_or_create external_id name phone email now db
  = (Ok (lead, is_new), db1) ->
  get_or_create external_id name phone email now' db1
  = (Ok (lead, false), db1).
Proof.
  intros Hpk H1.
  destruct (get_or_create_spec external_id name phone email now db Hpk)
    as [lead' [is_new' [db1' [H1' [_ [_ [Hget _]]]]]]].
  rewrite H1 in H1'. injection H1' as <- <- <-.
  assert (Hquiet : snd (fill name (Lead.name lead))
                   || snd (fill phone (Lead.phone lead))
                   || snd (fill email (Lead.email lead)) = false).
  { destruct (lead_by_external_id db external_id) as [l0|] eqn:Ef.
    - rewrite (get_or_create_found _ _ _ _ _ _ _ Ef) in H1.
      injection H1 as <- _ _. unfold filled_lead. cbn.
      now rewrite !fill_settles.
    - rewrite (get_or_create_new _ _ _ _ _ _ Ef) in H1.
      injection H1 as <- _ _. cbn. now rewrite !fill_same. }
  rewrite (get_or_create_found _ _ _ _ _ _ _ Hget).
  rewrite Hquiet. now rewrite (filled_lead_same _ _ _ _ Hquiet).
Qed.

Lemma get_or_create_twice_witness :
  get_or_create "user_9" (Some "Ann") None None 2
    (snd (get_or_create "user_9" (Some "Ann") None None 1 busy_db))
  = (Ok (Lead.mk 2 "user_9" (Some "Ann") None None (Some 1), false),
     snd (get_or_create "user_9" (Some "Ann") None None 1 busy_db)).
Proof.
  apply (get_or_create_twice _ _ _ _ 1 2 busy_db _ _ true).
  - unfold leads_pk. repeat constructor; simpl; intuition discriminate.
  - reflexivity.
Defined.

Lemma update_lead_keys (db : Session) (lead row : Lead.t) :
  leads_pk db -> In lead (leads db) -> keeps lead row ->
  map Lead.external_id (leads (update_lead row db))
  = map Lead.external_id (leads db).
Proof.
  intros Hpk Hin [Hi [He _]]. unfold update_lead. cbn [leads].
  rewrite map_map. apply map_ext_in. intros x Hx.
  destruct (Lead.id x =? Lead.id row) eqn:E; [|reflexivity].
  apply Z.eqb_eq in E.
  assert (x = lead); [|now subst x].
  apply (NoDup_key_inj Lead.id (leads db)); try assumption. congruence.
Qed.

Lemma get_or_create_uq (external_id : string)
  (name phone email : option string) (now : Z) (db : Session) :
  leads_pk db -> leads_uq db ->
  leads_uq (snd (get_or_create external_id name phone email now db)).
Proof.
  intros Hpk Huq. unfold leads_uq in *.
  destruct (lead_by_external_id db external_id) as [l0|] eqn:Ef.
  - rewrite (get_or_create_found _ _ _ _ _ _ _ Ef). cbn [snd].
    destruct (_ || _); [|assumption].
    rewrite (update_lead_keys db l0); [assumption|assumption| |].
    + unfold lead_by_external_id in Ef. now apply find_some in Ef.
    + apply filled_lead_keeps.
  - rewrite (get_or_create_new _ _ _ _ _ _ Ef). cbn [snd add_lead leads].
    rewrite map_app. apply NoDup_app_fresh; [assumption|].
    cbn. intros Hin. apply in_map_iff in Hin. destruct Hin as [l [He Hl]].
    unfold lead_by_external_id in Ef.
    pose proof (find_none _ _ Ef l Hl) as Hn. cbn in Hn.
    rewrite He in Hn. now rewrite String.eqb_refl in Hn.
Qed.

Lemma create_leads_uq (data : ContactCreate.t) (now : Z) (r : nat)
  (db : Session) :
  leads_pk db -> leads_uq db -> leads_uq (snd (create data now r db)).
Proof.
  intros Hpk Huq.
  destruct (get_by_code db (ContactCreate.source_code data))
    as [source|] eqn:Es;
    [|now rewrite (create_no_source _ _ _ _ Es)].
  destruct (truthy_bool (Source.is_active source)) eqn:Eact;
    [|now rewrite (create_inactive_source _ _ _ _ _ Es Eact)].
  pose proof (get_or_create_uq (ContactCreate.lead_external_id data)
                (ContactCreate.lead_name data)
                (ContactCreate.lead_phone data)
                (ContactCreate.lead_email data) now db Hpk Huq) as Huq1.
  destruct (get_or_create (ContactCreate.lead_external_id data)
              (ContactCreate.lead_name data) (ContactCreate.lead_phone data)
              (ContactCreate.lead_email data) now db)
    as [[[lead is_new]|e] db1] eqn:Hl.
  2:{ destruct (get_or_create_frame (ContactCreate.lead_external_id data)
                  (ContactCreate.lead_name data)
                  (ContactCreate.lead_phone data)
                  (ContactCreate.lead_email data) now db)
        as [? [? [? [H _]]]]. rewrite Hl in H. discriminate. }
  cbn [snd] in Huq1.
  destruct (select_operator db1 (Source.id source) r)
    as [[operator info']|e] eqn:Esel.
  - now rewrite (create_ok _ _ _ _ _ _ _ _ _ _ Es Eact Hl Esel).
  - now rewrite (create_raise_select _ _ _ _ _ _ _ _ _ Es Eact Hl Esel).
Qed.

(** X8. The services never store two leads with one external id: on a
    store where lead ids and lead external ids are unique, they are still
    unique after any run of [create], [update_status], [reassign] and
    [create_or_update] calls. *)
Theorem leads_stay_unique (actions : list action) (db : Session) :
  leads_pk db -> leads_uq db ->
  leads_pk (run actions db) /\ leads_uq (run actions db).
Proof.
  unfold run. revert db.
  induction actions as [|a actions IH]; intros db Hpk Huq; [now split|].
  cbn [fold_left]. apply IH.
  - now apply step_leads.
  - destruct a as [data now r|cid st now|cid now r|data]; cbn [step].
    + now apply create_leads_uq.
    + unfold leads_uq. now rewrite update_status_leads.
    + unfold leads_uq. now rewrite reassign_leads.
    + unfold leads_uq. now rewrite create_or_update_leads.
Qed.

Lemma leads_stay_unique_witness :
  leads_uq (run [CreateContact (request "user_1" (Some "Ann")) 1 0;
                 CreateContact (request "user_2" None) 2 1;
                 CreateContact (request "user_1" (Some "Bob")) 3 2]
              busy_db).
Proof.
  apply leads_stay_unique.
  - unfold leads_pk. repeat constructor; simpl; intuition discriminate.
  - unfold leads_uq. repeat constructor; simpl; intuition discriminate.
Defined.

(** ** Removing an assignment *)

Lemma assignment_delete_missing (operator_id source_id : Z) (db : Session) :
  find (same_pair operator_id source_id) (assignments db) = None ->
  AssignmentService.delete operator_id source_id db = (Ok false, db).
Proof.
  intros H. unfold AssignmentService.delete, bind, query, ret.
  now rewrite H.
Qed.

Lemma assignment_delete_found (operator_id source_id : Z) (db : Session)
  (a : OperatorSourceAssignment.t) :
  find (same_pair operator_id source_id) (assignments db) = Some a ->
  AssignmentService.delete operator_id source_id db
  = (Ok true, AssignmentService.delete_assignment a db).
Proof.
  intros H. unfold AssignmentService.delete, bind, query, ret, commit.
  now rewrite H.
Qed.

Lemma integrity_sublist (db db' : Session) :
  operators db' = operators db ->
  (forall a, In a (assignments db') -> In a (assignments db)) ->
  integrity db = true -> integrity db' = true.
Proof.
  unfold integrity, assignment_operator, operator_get_by_id.
  intros Ho Hsub H. rewrite forallb_forall in *. rewrite Ho.
  intros a Ha. apply H. now apply Hsub.
Qed.

Lemma delete_leaves_no_row (operator_id source_id : Z) (db : Session)
  (a : OperatorSourceAssignment.t) :
  uq_operator_source db ->
  find (same_pair operator_id source_id) (assignments db) = Some a ->
  filter (same_pair operator_id source_id)
    (assignments (AssignmentService.delete_assignment a db)) = [].
Proof.
  intros Huq Ha. apply find_some in Ha. destruct Ha as [Hin Hpair].
  apply same_pair_iff in Hpair.
  unfold AssignmentService.delete_assignment, uq_operator_source in *.
  cbn [assignments]. apply filter_nil_forall. intros x Hx.
  apply filter_In in Hx. destruct Hx as [Hx Hid].
  destruct (same_pair operator_id source_id x) eqn:E; [|reflexivity].
  apply same_pair_iff in E. exfalso.
  assert (x = a)
    by (apply (NoDup_key_inj pair_of (assignments db)); congruence).
  subst x. now rewrite Z.eqb_refl in Hid.
Qed.

(** X9. [AssignmentService.delete] returns [False] and changes nothing
    when the pair has no row.  When it has one, on a table that satisfies
    its primary key and its unique constraint, the call returns [True],
    no row is left for the pair, the rows of the other pairs are exactly
    those of before, and the constraints of the table, the foreign key
    and the weight bound included, still hold. *)
Theorem assignment_delete_effect (operator_id source_id : Z) (db : Session) :
  assignments_pk db -> uq_operator_source db ->
  let out := AssignmentService.delete operator_id source_id db in
  (find (same_pair operator_id source_id) (assignments db) = None ->
     out = (Ok false, db))
  /\ (forall a,
        find (same_pair operator_id source_id) (assignments db) = Some a ->
        fst out = Ok true
        /\ filter (same_pair operator_id source_id) (assignments (snd out))
           = []
        /\ (forall x, pair_of x <> (operator_id, source_id) ->
              (In x (assignments (snd out)) <-> In x (assignments db)))
        /\ assignments_pk (snd out)
        /\ uq_operator_source (snd out)
        /\ (integrity db = true -> integrity (snd out) = true)).
Proof.
  intros Hpk Huq out. split; [apply assignment_delete_missing|].
  intros a Ha. unfold out. rewrite (assignment_delete_found _ _ _ _ Ha).
  cbn [fst snd]. apply find_some in Ha. destruct Ha as [Hin Hpair].
  apply same_pair_iff in Hpair.
  unfold AssignmentService.delete_assignment, assignments_pk,
    uq_operator_source in *. cbn [assignments].
  split; [reflexivity|]. split; [|split; [|split; [|split]]].
  - apply filter_nil_forall. intros x Hx.
    apply filter_In in Hx. destruct Hx as [Hx Hid].
    destruct (same_pair operator_id source_id x) eqn:E; [|reflexivity].
    apply same_pair_iff in E. exfalso.
    assert (x = a)
      by (apply (NoDup_key_inj pair_of (assignments db)); congruence).
    subst x. now rewrite Z.eqb_refl in Hid.
  - intros x Hx. rewrite filter_In. split; [tauto|].
    intros Hxin. split; [assumption|].
    apply negb_true_iff, Z.eqb_neq. intros Hid. apply Hx.
    assert (x = a)
      by (apply (NoDup_key_inj OperatorSourceAssignment.id
                   (assignments db)); assumption).
    now subst x.
  - now apply sublist_map_NoDup.
  - now apply sublist_map_NoDup.
  - apply integrity_sublist; [reflexivity|].
    cbn [assignments]. intros x Hx. now apply filter_In in Hx.
Qed.

Lemma assignment_delete_effect_witness :
  fst (AssignmentService.delete 2 1 demo_db) = Ok true
  /\ filter (same_pair 2 1)
       (assignments (snd (AssignmentService.delete 2 1 demo_db))) = [].
Proof.
  assert (Hpk : assignments_pk demo_db).
  { unfold assignments_pk. repeat constructor; simpl; intuition discriminate. }
  assert (Huq : uq_operator_source demo_db).
  { unfold uq_operator_source.
    repeat constructor; simpl; intuition discriminate. }
  destruct (assignment_delete_effect 2 1 demo_db Hpk Huq) as [_ H].
  destruct (H _ eq_refl) as [H1 [H2 _]]. now split.
Defined.

Lemma filter_fresh_last {A} (key : A -> Z) (l : list A) (row : A) :
  (forall x, In x l -> key x < key row) ->
  filter (fun x => negb (key x =? key row)) (l ++ [row]) = l.
Proof.
  intros Hfresh. rewrite filter_app. cbn [filter].
  rewrite Z.eqb_refl. cbn [negb]. rewrite app_nil_r.
  induction l as [|x l IH]; [reflexivity|]. cbn [filter].
  replace (key x =? key row) with false.
  - cbn [negb]. f_equal. apply IH. intros y Hy. apply Hfresh. now right.
  - symmetry. apply Z.eqb_neq. pose proof (Hfresh x (or_introl eq_refl)). lia.
Qed.

(** X10. Assigning and then removing restores the store: when the pair
    has no row, [create_or_update] followed by [AssignmentService.delete]
    of the same pair returns [True] and leaves the store exactly as it
    was before the two calls. *)
Theorem assign_then_delete (data : AssignmentCreate.t) (db : Session) :
  find (same_pair (AssignmentCreate.operator_id data)
          (AssignmentCreate.source_id data)) (assignments db) = None ->
  AssignmentService.delete (AssignmentCreate.operator_id data)
    (AssignmentCreate.source_id data) (snd (create_or_update data db))
  = (Ok true, db).
Proof.
  intros Hnone.
  unfold create_or_update, bind, query, ret, commit. rewrite Hnone.
  cbn [snd].
  set (row := OperatorSourceAssignment.mk _ _ _ _).
  assert (Hfind : find (same_pair (AssignmentCreate.operator_id data)
                          (AssignmentCreate.source_id data))
                    (assignments (add_assignment row db)) = Some row).
  { unfold add_assignment. cbn [assignments].
    rewrite find_app_none by assumption. cbn [find].
    unfold same_pair, row. cbn. now rewrite !Z.eqb_refl. }
  rewrite (assignment_delete_found _ _ _ _ Hfind). f_equal.
  unfold AssignmentService.delete_assignment, add_assignment.
  cbn [operators sources assignments leads contacts].
  rewrite (filter_fresh_last OperatorSourceAssignment.id).
  - now destruct db.
  - intros x Hx. unfold row. cbn. now apply next_id_above.
Qed.

Lemma assign_then_delete_witness :
  AssignmentService.delete 2 7
    (snd (create_or_update (AssignmentCreate.mk 2 7 5) demo_db))
  = (Ok true, demo_db).
Proof. exact (assign_then_delete (AssignmentCreate.mk 2 7 5) demo_db eq_refl). Defined.

(** ** Operators that can no longer be selected *)

Lemma selected_from_assignment (db : Session) (source_id : Z) (r : nat)
  (op : Operator.t) (info : string) :
  select_operator db source_id r = Ok (Some op, info) ->
  exists a,
    In a (assignments db)
    /\ OperatorSourceAssignment.source_id a = source_id
    /\ OperatorSourceAssignment.operator_id a = Operator.id op
    /\ In op (operators db)
    /\ Operator.is_active op = true.
Proof.
  intros H. destruct (select_some_inv _ _ _ _ _ H) as [a [Ha [Hel Hop]]].
  apply filter_In in Ha. destruct Ha as [Ha Hsrc]. apply Z.eqb_eq in Hsrc.
  apply eligible_sound in Hel. destruct Hel as [o [Ho [Hact _]]].
  rewrite Hop in Ho. injection Ho as <-.
  unfold assignment_operator, operator_get_by_id in Hop.
  apply find_some in Hop. destruct Hop as [Hin Hid]. apply Z.eqb_eq in Hid.
  exists a. repeat split; try assumption. now symmetry.
Qed.

(** X11. Once [AssignmentService.delete] has removed the assignment of an
    operator to a source, on a table that satisfies its primary key and
    its unique constraint, no draw of [select_operator] for that source
    returns that operator. *)
Theorem deleted_assignment_never_selected (operator_id source_id : Z)
  (db : Session) (r : nat) (op : Operator.t) (info : string) :
  assignments_pk db -> uq_operator_source db ->
  select_operator
    (snd (AssignmentService.delete operator_id source_id db)) source_id r
  = Ok (Some op, info) ->
  Operator.id op <> operator_id.
Proof.
  intros Hpk Huq Hsel Hid.
  destruct (selected_from_assignment _ _ _ _ _ Hsel)
    as [a [Ha [Hsrc [Hop _]]]].
  destruct (find (same_pair operator_id source_id) (assignments db))
    as [a0|] eqn:Ef.
  - rewrite (assignment_delete_found _ _ _ _ Ef) in Ha. cbn [snd] in Ha.
    pose proof (delete_leaves_no_row _ _ _ _ Huq Ef) as Hnone.
    assert (Hin : In a (filter (same_pair operator_id source_id)
                          (assignments
                             (AssignmentService.delete_assignment a0 db)))).
    { apply filter_In. split; [assumption|]. apply same_pair_iff.
      unfold pair_of. congruence. }
    now rewrite Hnone in Hin.
  - rewrite (assignment_delete_missing _ _ _ Ef) in Ha. cbn [snd] in Ha.
    pose proof (find_none _ _ Ef a Ha) as Hn.
    assert (Ht : same_pair operator_id source_id a = true)
      by (apply same_pair_iff; unfold pair_of; congruence).
    congruence.
Qed.

Lemma deleted_assignment_never_selected_witness :
  exists op info,
    select_operator (snd (AssignmentService.delete 2 1 demo_db)) 1 3
    = Ok (Some op, info)
    /\ Operator.id op <> 2.
Proof.
  assert (Hpk : assignments_pk demo_db).
  { unfold assignments_pk. repeat constructor; simpl; intuition discriminate. }
  assert (Huq : uq_operator_source demo_db).
  { unfold uq_operator_source.
    repeat constructor; simpl; intuition discriminate. }
  pose proof (deleted_assignment_never_selected 2 1 demo_db 3%nat) as H.
  destruct (select_operator (snd (AssignmentService.delete 2 1 demo_db)) 1 3)
    as [[[op|] info]|e] eqn:E.
  - exists op, info. split; [reflexivity|].
    exact (H op info Hpk Huq eq_refl).
  - vm_compute in E. discriminate E.
  - vm_compute in E. discriminate E.
Defined.

(** ** Deleting an operator *)

Lemma find_filter_same {A} (p q : A -> bool) (l : list A) :
  (forall x, p x = true -> q x = true) ->
  find p (filter q l) = find p l.
Proof.
  intros H. induction l as [|x l IH]; [reflexivity|]. cbn [filter find].
  destruct (p x) eqn:Ep.
  - rewrite (H x Ep). cbn [find]. now rewrite Ep.
  - destruct (q x); [cbn [find]; now rewrite Ep|exact IH].
Qed.

Lemma find_filter_none {A} (p q : A -> bool) (l : list A) :
  (forall x, p x = true -> q x = false) ->
  find p (filter q l) = None.
Proof.
  intros H. induction l as [|x l IH]; [reflexivity|]. cbn [filter].
  destruct (q x) eqn:Eq; [|exact IH]. cbn [find].
  destruct (p x) eqn:Ep; [|exact IH]. rewrite (H x Ep) in Eq. discriminate.
Qed.

Lemma counts_for_unassign (i operator_id : Z) (c : Contact.t) :
  counts_for i (OperatorService.unassign operator_id c)
  = counts_for i c && negb (i =? operator_id).
Proof.
  unfold counts_for, OperatorService.unassign, status_in.
  destruct (Contact.operator_id c) as [o|] eqn:Eo; cbn [col_eqb].
  - destruct (o =? operator_id) eqn:E1; cbn [Contact.operator_id col_eqb
                                               Contact.status andb].
    + apply Z.eqb_eq in E1. subst o.
      destruct (operator_id =? i) eqn:E2.
      * apply Z.eqb_eq in E2. subst i. rewrite Z.eqb_refl. cbn.
        now rewrite andb_false_r.
      * reflexivity.
    + rewrite Eo. cbn [col_eqb].
      destruct (o =? i) eqn:E2; [|reflexivity].
      apply Z.eqb_eq in E2. subst i. rewrite E1. cbn. now rewrite andb_true_r.
  - rewrite Eo. reflexivity.
Qed.

(** X12. [OperatorService.delete] returns [False] and changes nothing for
    an unknown id.  For a known one it returns [True]; afterwards the
    operator cannot be read, no assignment and no contact refers to it,
    its count is 0 and the count of every other operator is what it was,
    the foreign key and weight bound of the assignments still hold, and
    no draw of [select_operator] on any source returns it. *)
Theorem operator_delete_effect (operator_id : Z) (db : Session) :
  let out := OperatorService.delete operator_id db in
  (operator_get_by_id db operator_id = None -> out = (Ok false, db))
  /\ (operator_get_by_id db operator_id <> None ->
      fst out = Ok true
      /\ operator_get_by_id (snd out) operator_id = None
      /\ (forall a, In a (assignments (snd out)) ->
            OperatorSourceAssignment.operator_id a <> operator_id)
      /\ (forall c, In c (contacts (snd out)) ->
            Contact.operator_id c <> Some operator_id)
      /\ get_active_contacts_count (snd out) operator_id = 0
      /\ (forall i, i <> operator_id ->
            get_active_contacts_count (snd out) i
            = get_active_contacts_count db i)
      /\ (integrity db = true -> integrity (snd out) = true)
      /\ (forall source_id r op info,
            select_operator (snd out) source_id r = Ok (Some op, info) ->
            Operator.id op <> operator_id)).
Proof.
  intros out. unfold out, OperatorService.delete, bind, query, ret, commit.
  split; [now intros ->|].
  destruct (operator_get_by_id db operator_id) as [o|] eqn:Eo;
    [intros _|congruence].
  cbn [fst snd].
  assert (Hid : Operator.id o = operator_id).
  { unfold operator_get_by_id in Eo. apply find_some in Eo.
    now apply Z.eqb_eq. }
  unfold OperatorService.delete_operator. rewrite Hid.
  assert (Hcount : forall i,
            get_active_contacts_count
              (mkSession
                 (filter (fun o0 => negb (Operator.id o0 =? operator_id))
                    (operators db))
                 (sources db)
                 (filter (fun a => negb (OperatorSourceAssignment.operator_id
                                           a =? operator_id))
                    (assignments db))
                 (leads db)
                 (map (OperatorService.unassign operator_id) (contacts db)))
              i
            = if i =? operator_id then 0
              else get_active_contacts_count db i).
  { intros i. unfold get_active_contacts_count. cbn [contacts].
    fold (counts_for i). rewrite filter_map_swap, length_map.
    rewrite (filter_ext _ (fun c => counts_for i c
                                    && negb (i =? operator_id)))
      by (intros c; apply counts_for_unassign).
    destruct (i =? operator_id); cbn [negb].
    - rewrite (filter_ext _ (fun _ => false))
        by (intros c; apply andb_false_r).
      now rewrite filter_false.
    - f_equal. f_equal. apply filter_ext. intros c. apply andb_true_r. }
  assert (Hops : forall op,
            In op (filter (fun o0 => negb (Operator.id o0 =? operator_id))
                     (operators db)) ->
            Operator.id op <> operator_id).
  { intros op Hop. apply filter_In in Hop. destruct Hop as [_ Hop].
    now apply negb_true_iff, Z.eqb_neq in Hop. }
  split; [reflexivity|]. split; [|split; [|split; [|split; [|split;
    [|split]]]]].
  - unfold operator_get_by_id. cbn [operators].
    apply find_filter_none. intros x Hx. now rewrite Hx.
  - cbn [assignments]. intros a Ha. apply filter_In in Ha.
    destruct Ha as [_ Ha]. now apply negb_true_iff, Z.eqb_neq in Ha.
  - cbn [contacts]. intros c Hc. apply in_map_iff in Hc.
    destruct Hc as [c0 [<- _]]. unfold OperatorService.unassign.
    destruct (col_eqb (Contact.operator_id c0) operator_id) eqn:E;
      [discriminate|].
    intros Hc0. rewrite Hc0 in E. cbn in E. now rewrite Z.eqb_refl in E.
  - rewrite Hcount. now rewrite Z.eqb_refl.
  - intros i Hi. rewrite Hcount.
    now replace (i =? operator_id) with false
      by (symmetry; now apply Z.eqb_neq).
  - unfold integrity, assignment_operator, operator_get_by_id.
    cbn [operators assignments]. intros H.
    rewrite forallb_forall in *. intros a Ha.
    apply filter_In in Ha. destruct Ha as [Ha Hne].
    rewrite find_filter_same; [now apply H|].
    intros x Hx. apply Z.eqb_eq in Hx. now rewrite Hx.
  - intros source_id r op info Hsel.
    destruct (selected_from_assignment _ _ _ _ _ Hsel)
      as [_ [_ [_ [_ [Hin _]]]]].
    now apply Hops.
Qed.

Lemma operator_delete_effect_witness :
  fst (OperatorService.delete 2 busy_db) = Ok true
  /\ get_active_contacts_count (snd (OperatorService.delete 2 busy_db)) 2 = 0
  /\ integrity (snd (OperatorService.delete 2 busy_db)) = true.
Proof.
  destruct (operator_delete_effect 2 busy_db) as [_ H].
  destruct H as [H1 [_ [_ [_ [H2 [_ [H3 _]]]]]]]; [discriminate|].
  split; [exact H1|]. split; [exact H2|]. now apply H3.
Defined.

(** ** Updating an operator *)

Lemma operator_lookup_updated (row : Operator.t) (db : Session) (k : Z) :
  operator_get_by_id (OperatorService.update_operator row db) k
  = option_map (fun o => if Operator.id o =? Operator.id row then row else o)
      (operator_get_by_id db k).
Proof.
  unfold operator_get_by_id, OperatorService.update_operator.
  cbn [operators]. apply find_map_preserving. intros x _.
  destruct (Operator.id x =? Operator.id row) eqn:E; [|reflexivity].
  apply Z.eqb_eq in E. now rewrite E.
Qed.

(** X13. [OperatorService.update] returns [None] and changes nothing for
    an unknown id, and is refused by the store, which stays as it was,
    when a field is sent as [null].  Otherwise the operator read back
    under the id carries the sent values and keeps the others, the
    constraints of the assignments still hold, and after an update that
    sends [is_active = false] no draw of [select_operator] on any source
    returns that operator. *)
Theorem operator_update_effect (operator_id : Z) (data : OperatorUpdate.t)
  (db : Session) :
  (operator_get_by_id db operator_id = None ->
     OperatorService.update operator_id data db = Committed None db)
  /\ (forall o,
        operator_get_by_id db operator_id = Some o ->
        (OperatorUpdate.name data = Null
         \/ OperatorUpdate.is_active data = Null
         \/ OperatorUpdate.max_active_contacts data = Null) ->
        OperatorService.update operator_id data db = IntegrityError)
  /\ (forall o,
        operator_get_by_id db operator_id = Some o ->
        OperatorUpdate.name data <> Null ->
        OperatorUpdate.is_active data <> Null ->
        OperatorUpdate.max_active_contacts data <> Null ->
        exists o' db',
          OperatorService.update operator_id data db
          = Committed (Some o') db'
          /\ operator_get_by_id db' operator_id = Some o'
          /\ Operator.id o' = operator_id
          /\ set_required (OperatorUpdate.name data) (Operator.name o)
             = Some (Operator.name o')
          /\ set_required (OperatorUpdate.is_active data)
               (Operator.is_active o)
             = Some (Operator.is_active o')
          /\ set_required (OperatorUpdate.max_active_contacts data)
               (Operator.max_active_contacts o)
             = Some (Operator.max_active_contacts o')
          /\ (integrity db = true -> integrity db' = true)
          /\ (OperatorUpdate.is_active data = Value false ->
              forall source_id r op info,
                select_operator db' source_id r = Ok (Some op, info) ->
                Operator.id op <> operator_id)).
Proof.
  unfold OperatorService.update. split; [now intros ->|]. split.
  - intros o -> [H|[H|H]]; rewrite H; cbn [set_required];
      repeat (destruct (set_required _ _)); reflexivity.
  - intros o Ho Hn Ha Hm. rewrite Ho.
    assert (Hid : Operator.id o = operator_id).
    { unfold operator_get_by_id in Ho. apply find_some in Ho.
      now apply Z.eqb_eq. }
    destruct (set_required (OperatorUpdate.name data) (Operator.name o))
      as [name|] eqn:En;
      [|destruct (OperatorUpdate.name data); try discriminate; congruence].
    destruct (set_required (OperatorUpdate.is_active data)
                (Operator.is_active o)) as [act|] eqn:Ea;
      [|destruct (OperatorUpdate.is_active data); try discriminate;
        congruence].
    destruct (set_required (OperatorUpdate.max_active_contacts data)
                (Operator.max_active_contacts o)) as [lim|] eqn:Em;
      [|destruct (OperatorUpdate.max_active_contacts data);
        try discriminate; congruence].
    set (o' := Operator.mk (Operator.id o) name act lim
                 (Operator.created_at o)).
    exists o', (OperatorService.update_operator o' db).
    split; [reflexivity|]. split.
    { rewrite operator_lookup_updated, Ho. cbn [option_map].
      now rewrite Z.eqb_refl. }
    split; [exact Hid|]. do 3 (split; [reflexivity|]). split.
    + unfold integrity at 1 2. intros H. rewrite forallb_forall in *.
      cbn [OperatorService.update_operator assignments]. intros a Hin.
      specialize (H a Hin). apply andb_true_iff in H. destruct H as [H1 H2].
      apply andb_true_iff. split; [|assumption].
      unfold assignment_operator in *. rewrite operator_lookup_updated.
      destruct (operator_get_by_id db
                  (OperatorSourceAssignment.operator_id a));
        [reflexivity|discriminate H1].
    + intros Hfalse source_id r op info Hsel Hop.
      destruct (selected_from_assignment _ _ _ _ _ Hsel)
        as [_ [_ [_ [_ [Hin Hact]]]]].
      cbn [OperatorService.update_operator operators] in Hin.
      apply in_map_iff in Hin. destruct Hin as [x [Hx _]].
      rewrite Hfalse in Ea. cbn in Ea. injection Ea as <-.
      destruct (Operator.id x =? Operator.id o') eqn:E.
      * subst op. discriminate Hact.
      * subst op. apply Z.eqb_neq in E. apply E. cbn. congruence.
Qed.

Lemma operator_update_effect_witness :
  OperatorService.update 1 (OperatorUpdate.mk Unset Null Unset) demo_db
  = IntegrityError
  /\ exists o' db' op info,
       OperatorService.update 1
         (OperatorUpdate.mk Unset (Value false) (Value 20)) demo_db
       = Committed (Some o') db'
       /\ select_operator db' 1 0 = Ok (Some op, info)
       /\ Operator.id op <> 1.
Proof.
  split.
  - destruct (operator_update_effect 1 (OperatorUpdate.mk Unset Null Unset)
                demo_db) as [_ [H _]].
    apply (H op1 eq_refl). right. now left.
  - destruct (operator_update_effect 1
                (OperatorUpdate.mk Unset (Value false) (Value 20)) demo_db)
      as [_ [_ H]].
    destruct (H op1 eq_refl) as [o' [db' [Hup [_ [_ [_ [_ [_ [_ Hsel]]]]]]]]];
      try discriminate.
    specialize (Hsel eq_refl 1 0%nat).
    destruct (select_operator db' 1 0) as [[[op|] info]|e] eqn:E.
    + exists o', db', op, info. split; [exact Hup|].
      split; [exact E|]. exact (Hsel op info eq_refl).
    + exfalso. vm_compute in Hup. injection Hup as _ <-.
      vm_compute in E. discriminate E.
    + exfalso. vm_compute in Hup. injection Hup as _ <-.
      vm_compute in E. discriminate E.
Defined.

(** ** Sources *)

Lemma unique_code_lookup (db : Session) (s : Source.t) :
  sources_uq db -> In s (sources db) ->
  get_by_code db (Source.code s) = Some s.
Proof.
  intros Huq Hin. unfold get_by_code.
  destruct (find _ (sources db)) as [x|] eqn:E.
  - apply find_some in E. destruct E as [Hx Hc].
    apply String.eqb_eq in Hc. f_equal.
    now apply (NoDup_key_inj Source.code (sources db)).
  - pose proof (find_none _ _ E s Hin) as Hn. cbn in Hn.
    now rewrite String.eqb_refl in Hn.
Qed.

(** X14. [SourceService.update] returns [None] for an unknown id and is
    refused when the name is sent as [null].  Otherwise, on a sources
    table with unique ids and codes, the source read back under its code
    is the updated row; when the update sent [is_active] as [false] or as
    [null], every later [create] for that code raises the "inactive"
    error and changes nothing. *)
Theorem source_update_effect (source_id : Z) (data : SourceUpdate.t)
  (db : Session) :
  sources_pk db -> sources_uq db ->
  (source_get_by_id db source_id = None ->
     SourceService.update source_id data db = Committed None db)
  /\ (forall s,
        source_get_by_id db source_id = Some s ->
        SourceUpdate.name data = Null ->
        SourceService.update source_id data db = IntegrityError)
  /\ (forall s,
        source_get_by_id db source_id = Some s ->
        SourceUpdate.name data <> Null ->
        exists s' db',
          SourceService.update source_id data db = Committed (Some s') db'
          /\ get_by_code db' (Source.code s) = Some s'
          /\ Source.id s' = Source.id s
          /\ Source.is_active s'
             = set_nullable (SourceUpdate.is_active data)
                 (Source.is_active s)
          /\ (SourceUpdate.is_active data = Value false
              \/ SourceUpdate.is_active data = Null ->
              forall request now r,
                ContactCreate.source_code request = Source.code s ->
                create request now r db'
                = (Raise (ValueError (source_inactive (Source.code s))),
                   db'))).
Proof.
  intros Hpk Huq. unfold SourceService.update.
  split; [now intros ->|]. split; [now intros s -> ->|].
  intros s Hs Hn. rewrite Hs.
  destruct (set_required (SourceUpdate.name data) (Source.name s))
    as [name|] eqn:En;
    [|destruct (SourceUpdate.name data); try discriminate; congruence].
  set (s' := Source.mk (Source.id s) name (Source.code s)
               (set_nullable (SourceUpdate.description data)
                  (Source.description s))
               (set_nullable (SourceUpdate.is_active data)
                  (Source.is_active s))
               (Source.created_at s)).
  exists s', (SourceService.update_source s' db).
  assert (Hin : In s (sources db))
    by (unfold source_get_by_id in Hs; now apply find_some in Hs).
  assert (Hcode : get_by_code (SourceService.update_source s' db)
                    (Source.code s) = Some s').
  { unfold get_by_code, SourceService.update_source. cbn [sources].
    rewrite find_map_preserving.
    - fold (get_by_code db (Source.code s)).
      rewrite (unique_code_lookup db s Huq Hin). cbn [option_map].
      now rewrite Z.eqb_refl.
    - intros x Hx.
      destruct (Source.id x =? Source.id s') eqn:E; [|reflexivity].
      apply Z.eqb_eq in E.
      assert (x = s)
        by (apply (NoDup_key_inj Source.id (sources db)); assumption).
      now subst x. }
  split; [reflexivity|]. split; [exact Hcode|].
  split; [reflexivity|]. split; [reflexivity|].
  intros Hoff request now r Hreq.
  rewrite <- Hreq in *. apply (create_inactive_source _ _ _ _ s' Hcode).
  unfold s'. cbn. destruct Hoff as [-> | ->]; reflexivity.
Qed.

Lemma source_update_effect_witness :
  exists s' db',
    SourceService.update 1 (SourceUpdate.mk Unset Unset Null) demo_db
    = Committed (Some s') db'
    /\ create (request "user_1" None) 3 0 db'
       = (Raise (ValueError (source_inactive "telegram")), db').
Proof.
  assert (Hpk : sources_pk demo_db).
  { unfold sources_pk. repeat constructor; simpl; intuition discriminate. }
  assert (Huq : sources_uq demo_db).
  { unfold sources_uq. repeat constructor; simpl; intuition discriminate. }
  destruct (source_update_effect 1 (SourceUpdate.mk Unset Unset Null)
              demo_db Hpk Huq) as [_ [_ H]].
  destruct (H telegram eq_refl) as [s' [db' [Hup [_ [_ [_ Hoff]]]]]];
    [discriminate|].
  exists s', db'. split; [exact Hup|].
  apply Hoff; [now right|reflexivity].
Defined.

Lemma existsb_find_none {A} (p : A -> bool) (l : list A) :
  find p l = None -> existsb p l = false.
Proof.
  induction l as [|x l IH]; [reflexivity|]. cbn [find existsb].
  destruct (p x); [discriminate|assumption].
Qed.

(** X15. The endpoint [POST /sources] answers 400 and changes nothing
    when the code is taken.  Otherwise it answers 200 with a new source
    that is read back under its code and carries the requested activity;
    the sources readable before are read unchanged, and the ids and the
    codes of the table stay unique.  It never ends in a refused commit. *)
Theorem create_source_effect (data : SourceCreate.t) (now : Z)
  (db : Session) :
  (forall s,
     get_by_code db (SourceCreate.code data) = Some s ->
     create_source data now db
     = (Status400 (code_taken (SourceCreate.code data)), db))
  /\ (get_by_code db (SourceCreate.code data) = None ->
      exists s db',
        create_source data now db = (Status200 s, db')
        /\ get_by_code db' (SourceCreate.code data) = Some s
        /\ Source.is_active s = Some (SourceCreate.is_active data)
        /\ (forall code s0,
              get_by_code db code = Some s0 ->
              get_by_code db' code = Some s0)
        /\ (sources_pk db -> sources_pk db')
        /\ (sources_uq db -> sources_uq db')).
Proof.
  unfold create_source. split; [now intros s ->|].
  intros Hnone. rewrite Hnone. unfold SourceService.create.
  pose proof Hnone as Hex. unfold get_by_code in Hex.
  apply existsb_find_none in Hex. rewrite Hex.
  do 2 eexists. split; [reflexivity|].
  unfold get_by_code, sources_pk, sources_uq, SourceService.add_source.
  cbn [sources]. split; [|split; [reflexivity|split; [|split]]].
  - rewrite find_app_none by exact Hnone. cbn [find Source.code].
    now rewrite String.eqb_refl.
  - intros code s0 H. now apply find_app_some.
  - intros Hpk. rewrite map_app. cbn [map Source.id].
    now apply NoDup_next_id.
  - intros Huq. rewrite map_app. apply NoDup_app_fresh; [assumption|].
    cbn [map Source.code]. intros Hin. apply in_map_iff in Hin.
    destruct Hin as [x [Hc Hx]].
    pose proof (find_none _ _ Hnone x Hx) as Hn. cbn in Hn.
    rewrite Hc in Hn. now rewrite String.eqb_refl in Hn.
Qed.

Lemma create_source_effect_witness :
  create_source (SourceCreate.mk "Bot 2" "telegram" None true) 5 demo_db
  = (Status400 (code_taken "telegram"), demo_db)
  /\ exists s db',
       create_source (SourceCreate.mk "WhatsApp" "wa" None true) 5 demo_db
       = (Status200 s, db')
       /\ get_by_code db' "wa" = Some s.
Proof.
  split.
  - exact (proj1 (create_source_effect
                    (SourceCreate.mk "Bot 2" "telegram" None true) 5 demo_db)
             telegram eq_refl).
  - destruct (proj2 (create_source_effect
                       (SourceCreate.mk "WhatsApp" "wa" None true) 5 demo_db)
                eq_refl) as [s [db' [H1 [H2 _]]]].
    now exists s, db'.
Defined.

(** ** The report of a source against the engine *)

Lemma operators_info_spec (db : Session) :
  forall l,
    Forall (has_operator db) l ->
    exists infos,
      SourceService.operators_info db l = Ok infos
      /\ List.length infos = List.length l
      /\ map info_key (filter info_available infos)
         = map available_key (entries db (filter (eligible db) l)).
Proof.
  induction l as [|a l IH]; intros Hall.
  - exists []. now repeat split.
  - inversion Hall as [|? ? Ha Hl]; subst. unfold has_operator in Ha.
    destruct (IH Hl) as [rest [Hrest [Hlen Hmap]]].
    cbn [SourceService.operators_info]. rewrite Hrest.
    destruct (assignment_operator db a) as [op|] eqn:Eo; [|discriminate].
    cbn [rbind]. eexists. split; [reflexivity|].
    split; [cbn [List.length]; now rewrite Hlen|].
    assert (Hid : Operator.id op = OperatorSourceAssignment.operator_id a).
    { unfold assignment_operator, operator_get_by_id in Eo.
      apply find_some in Eo. now apply Z.eqb_eq. }
    cbn [filter]. rewrite (eligible_eq db a op Eo).
    unfold info_available at 1. cbn [SourceService.info_is_active
      SourceService.info_current_load
      SourceService.info_max_active_contacts].
    rewrite <- Hid.
    destruct (Operator.is_active op
              && (get_active_contacts_count db (Operator.id op)
                  <? Operator.max_active_contacts op)).
    + unfold entries in *. cbn [flat_map map app]. unfold entry at 1.
      rewrite Eo. cbn [app map]. now rewrite Hmap.
    + exact Hmap.
Qed.

(** X16. [get_with_operators] answers [None] for an unknown source.  On a
    store that satisfies the constraints of the assignments table it
    lists one entry per assignment of the source, and the entries that
    show an active operator with a load under its limit are, in order and
    with the same operator ids, weights and loads, the eligible set that
    [select_operator] draws from. *)
Theorem report_agrees_with_engine (db : Session) (source_id : Z) :
  integrity db = true ->
  (source_get_by_id db source_id = None ->
     SourceService.get_with_operators db source_id = Ok None)
  /\ (forall s,
        source_get_by_id db source_id = Some s ->
        exists infos,
          SourceService.get_with_operators db source_id
          = Ok (Some (s, infos))
          /\ List.length infos
             = List.length (get_source_operators db source_id)
          /\ map info_key (filter info_available infos)
             = map available_key
                 (entries db (filter (eligible db)
                                (get_source_operators db source_id)))).
Proof.
  intros Hint. unfold SourceService.get_with_operators.
  split; [now intros ->|]. intros s ->.
  destruct (operators_info_spec db _ (integrity_has_operator db source_id
                                         Hint))
    as [infos [Hinfo [Hlen Hmap]]].
  exists infos. rewrite Hinfo. now repeat split.
Qed.

Lemma report_agrees_with_engine_witness :
  exists infos,
    SourceService.get_with_operators busy_db 1 = Ok (Some (telegram, infos))
    /\ filter info_available infos = [].
Proof.
  destruct (report_agrees_with_engine busy_db 1 eq_refl) as [_ H].
  destruct (H telegram eq_refl) as [infos [Hget [_ Hmap]]].
  exists infos. split; [exact Hget|].
  destruct (filter info_available infos); [reflexivity|discriminate Hmap].
Defined.

(** ** Creating an operator *)

(** X17. [OperatorService.create] returns an operator that is read back
    under its new id; the operators readable before are read unchanged;
    operator ids stay unique and the constraints of the assignments still
    hold; and when every contact refers to an existing operator the new
    operator has no active contact, as [POST /operators] reports. *)
Theorem operator_create_effect (data : OperatorCreate.t) (now : Z)
  (db : Session) :
  exists o db',
    OperatorService.create data now db = (Ok o, db')
    /\ operator_get_by_id db' (Operator.id o) = Some o
    /\ Operator.is_active o = OperatorCreate.is_active data
    /\ Operator.max_active_contacts o = OperatorCreate.max_active_contacts data
    /\ (forall k o0,
          operator_get_by_id db k = Some o0 ->
          operator_get_by_id db' k = Some o0)
    /\ (operators_pk db -> operators_pk db')
    /\ (integrity db = true -> integrity db' = true)
    /\ (contacts_fk db -> get_active_contacts_count db' (Operator.id o) = 0).
Proof.
  unfold OperatorService.create, bind, query, commit, ret.
  set (o := Operator.mk (next_id (map Operator.id (operators db)))
              (OperatorCreate.name data) (OperatorCreate.is_active data)
              (OperatorCreate.max_active_contacts data) (Some now)).
  exists o, (OperatorService.add_operator o db). split; [reflexivity|].
  unfold operator_get_by_id, operators_pk, OperatorService.add_operator.
  cbn [operators].
  split; [|split; [reflexivity|split; [reflexivity|split; [|split;
    [|split]]]]].
  - apply (find_app_fresh Operator.id (operators db) o). intros x Hx.
    now apply next_id_above.
  - intros k o0 H. now apply find_app_some.
  - intros Hpk. rewrite map_app. now apply NoDup_next_id.
  - unfold integrity, assignment_operator, operator_get_by_id.
    cbn [operators assignments]. intros H. rewrite forallb_forall in *.
    intros a Ha. specialize (H a Ha).
    destruct (find _ (operators db)) as [o0|] eqn:E; [|discriminate H].
    now rewrite (find_app_some _ _ _ _ E).
  - intros Hfk. unfold get_active_contacts_count. cbn [contacts].
    rewrite filter_nil_forall; [reflexivity|].
    intros c Hc. apply andb_false_iff. left.
    destruct (Contact.operator_id c) as [k|] eqn:Ek; [|reflexivity].
    cbn [col_eqb]. apply Z.eqb_neq. intros ->.
    apply (Hfk c _ Hc Ek). unfold operator_get_by_id.
    destruct (find _ (operators db)) as [x|] eqn:E; [|reflexivity].
    apply find_some in E. destruct E as [Hx Hid]. apply Z.eqb_eq in Hid.
    pose proof (next_id_above Operator.id (operators db) x Hx).
    unfold o in Hid. cbn [Operator.id] in Hid. lia.
Qed.

(** ** A single eligible operator *)

Lemma string_append_assoc (s1 s2 s3 : string) :
  (s1 ++ s2) ++ s3 = s1 ++ s2 ++ s3.
Proof.
  induction s1 as [|c s1 IH]; cbn; [reflexivity|]. now rewrite IH.
Qed.

(** X18. When exactly one assignment of the source is eligible, on a
    store that satisfies the constraints of the assignments table,
    [select_operator] returns its operator for every draw, and the text
    it returns names that operator as selected and lists it alone, with
    its weight and 100%. *)
Theorem sole_eligible_is_chosen (db : Session) (source_id : Z)
  (a : OperatorSourceAssignment.t) (op : Operator.t) (r : nat) :
  integrity db = true ->
  filter (eligible db) (get_source_operators db source_id) = [a] ->
  assignment_operator db a = Some op ->
  select_operator db source_id r
  = Ok (Some op,
        "Выбран " ++ Operator.name op ++ " из ["
        ++ Operator.name op ++ ": вес "
        ++ NilZero.string_of_int
             (Z.to_int (OperatorSourceAssignment.weight a))
        ++ " (100%)]").
Proof.
  intros Hint Hel Hop.
  destruct (select_some_eligible db source_id r Hint)
    as [op' [Hsel [_ [a' [Ha' [Hel' Hop']]]]]];
    [rewrite Hel; discriminate|].
  assert (Hin : In a' (filter (eligible db)
                         (get_source_operators db source_id)))
    by (apply filter_In; now split).
  rewrite Hel in Hin, Hsel. destruct Hin as [<-|[]].
  rewrite Hop in Hop'. injection Hop' as <-.
  unfold entries in Hsel. cbn [flat_map] in Hsel. unfold entry in Hsel.
  rewrite Hop in Hsel. cbn [app] in Hsel.
  assert (Hw : 1 <= OperatorSourceAssignment.weight a).
  { pose proof (integrity_weight db source_id Hint) as Hall.
    rewrite Forall_forall in Hall. apply Hall.
    assert (H : In a (filter (eligible db)
                        (get_source_operators db source_id)))
      by (rewrite Hel; now left).
    now apply filter_In in H. }
  assert (Hp : OperatorSourceAssignment.weight a * 100
               / OperatorSourceAssignment.weight a = 100)
    by (rewrite Z.mul_comm; apply Z.div_mul; lia).
  rewrite Hsel.
  unfold selected_info, describe, percentage, total_weight, sum, join,
    str_of_int.
  cbn [map fold_right av_weight av_operator String.concat].
  rewrite Z.add_0_r, Hp.
  rewrite !string_append_assoc. reflexivity.
Qed.

Lemma sole_eligible_is_chosen_witness :
  select_operator solo_db 1 5
  = Ok (Some op1, "Выбран Оператор 1 из [Оператор 1: вес 10 (100%)]").
Proof.
  exact (sole_eligible_is_chosen solo_db 1
           (OperatorSourceAssignment.mk 1 1 1 10) op1 5
           eq_refl eq_refl eq_refl).
Defined.

Lemma operator_create_effect_witness :
  exists o db',
    OperatorService.create (OperatorCreate.mk "Иван Иванов" true 5) 1 demo_db
    = (Ok o, db')
    /\ get_active_contacts_count db' (Operator.id o) = 0.
Proof.
  destruct (operator_create_effect (OperatorCreate.mk "Иван Иванов" true 5)
              1 demo_db) as [o [db' [H [_ [_ [_ [_ [_ [_ Hload]]]]]]]]].
  exists o, db'. split; [exact H|]. apply Hload. intros c k [].
Defined.

(** ** The free slots of a source *)

Lemma free_slots_nonneg (db : Session) (a : OperatorSourceAssignment.t) :
  0 <= free_slots db a.
Proof.
  unfold free_slots. destruct (assignment_operator db a) as [op|]; [|lia].
  destruct (Operator.is_active op); lia.
Qed.

Lemma eligible_free (db : Session) (a : OperatorSourceAssignment.t) :
  eligible db a = (0 <? free_slots db a).
Proof.
  unfold eligible, free_slots.
  destruct (assignment_operator db a) as [op|]; [|reflexivity].
  destruct (Operator.is_active op); [|reflexivity]. cbn [andb].
  destruct (_ <? Operator.max_active_contacts op) eqn:E.
  - apply Z.ltb_lt in E. symmetry. apply Z.ltb_lt. lia.
  - apply Z.ltb_ge in E. symmetry. apply Z.ltb_ge. lia.
Qed.

Lemma sum_free_positive (db : Session)
  (l : list OperatorSourceAssignment.t) :
  (0 <? sum (map (free_slots db) l))
  = match filter (eligible db) l with [] => false | _ => true end
  /\ 0 <= sum (map (free_slots db) l).
Proof.
  induction l as [|a l [IH1 IH2]]; [now split|].
  cbn [map filter]. unfold sum in *. cbn [fold_right].
  pose proof (free_slots_nonneg db a) as Ha.
  rewrite eligible_free. split; [|lia].
  destruct (0 <? free_slots db a) eqn:E.
  - apply Z.ltb_lt in E. cbn. apply Z.ltb_lt. lia.
  - apply Z.ltb_ge in E. rewrite <- IH1.
    now replace (free_slots db a) with 0 by lia.
Qed.

Lemma sum_map_decr {A} (key g g' : A -> Z) (l : list A) (a0 : A) :
  NoDup (map key l) -> In a0 l ->
  (forall a, In a l -> key a <> key a0 -> g' a = g a) ->
  g' a0 = g a0 - 1 ->
  sum (map g' l) = sum (map g l) - 1.
Proof.
  intros Hnd Hin Hsame Hdecr. unfold sum.
  induction l as [|x l IH]; [contradiction|].
  cbn [map] in Hnd. apply NoDup_cons_iff in Hnd. destruct Hnd as [Hx Hl].
  cbn [map fold_right]. destruct Hin as [->|Hin].
  - rewrite Hdecr.
    assert (Hrest : map g' l = map g l).
    { apply map_ext_in. intros a Ha. apply Hsame; [now right|].
      intros Hk. apply Hx. rewrite <- Hk. now apply in_map. }
    rewrite Hrest. lia.
  - rewrite (Hsame x (or_introl eq_refl)).
    + rewrite IH; [lia|assumption|assumption|].
      intros a Ha. apply Hsame. now right.
    + intros Hk. apply Hx. rewrite Hk. now apply in_map.
Qed.

Lemma free_slots_ext (db db' : Session) (a : OperatorSourceAssignment.t) :
  operators db' = operators db -> contacts db' = contacts db ->
  free_slots db' a = free_slots db a.
Proof.
  unfold free_slots, assignment_operator, operator_get_by_id,
    get_active_contacts_count.
  now intros -> ->.
Qed.

Lemma remaining_ext (db db' : Session) (source_id : Z) :
  operators db' = operators db -> assignments db' = assignments db ->
  contacts db' = contacts db ->
  remaining db' source_id = remaining db source_id.
Proof.
  intros Ho Ha Hc. unfold remaining, get_source_operators. rewrite Ha.
  f_equal. apply map_ext. intros a. now apply free_slots_ext.
Qed.

Lemma serving_ext (db db' : Session) (source : Source.t) :
  operators db' = operators db -> sources db' = sources db ->
  assignments db' = assignments db ->
  serving db source -> serving db' source.
Proof.
  intros Ho Hs Ha [Hint [Huq [Hc Hact]]]. unfold serving.
  rewrite (integrity_ext db db' Ho Ha).
  unfold uq_operator_source, get_by_code in *. rewrite Ha, Hs.
  now repeat split.
Qed.

(** One creation on a served source takes a free slot when there is one. *)
Lemma create_serving (db : Session) (source : Source.t)
  (data : ContactCreate.t) (now : Z) (r : nat) :
  serving db source ->
  ContactCreate.source_code data = Source.code source ->
  let left := remaining db (Source.id source) in
  exists c info db',
    create data now r db = (Ok (c, info), db')
    /\ is_some (Contact.operator_id c) = (0 <? left)
    /\ serving db' source
    /\ remaining db' (Source.id source)
       = left - (if 0 <? left then 1 else 0).
Proof.
  intros Hserv Hcode left.
  destruct (get_or_create_frame (ContactCreate.lead_external_id data)
              (ContactCreate.lead_name data) (ContactCreate.lead_phone data)
              (ContactCreate.lead_email data) now db)
    as [lead [is_new [db1 [Hl [Hops [Hsrc [Hasg Hcon]]]]]]].
  pose proof (serving_ext db db1 source Hops Hsrc Hasg Hserv) as Hserv1.
  destruct Hserv1 as [Hint [Huq [Hc Hact]]].
  assert (Hleft : remaining db1 (Source.id source) = left)
    by (now apply remaining_ext).
  destruct (select_operator_total db1 (Source.id source) r Hint)
    as [operator [info [Hsel [Hnone Hsome]]]].
  set (c := created db1 lead source operator data now).
  exists c, (lead_info is_new ++ "; " ++ info), (add_contact c db1).
  split.
  { apply create_ok; try assumption.
    - rewrite Hcode. apply Hserv.
    - now rewrite Hact. }
  destruct (sum_free_positive db1 (get_source_operators db1 (Source.id source)))
    as [Hpos _].
  fold (remaining db1 (Source.id source)) in Hpos. rewrite Hleft in Hpos.
  assert (Hserv' : serving (add_contact c db1) source).
  { apply (serving_ext db1); try reflexivity. now repeat split. }
  destruct operator as [op|].
  - assert (Hne : filter (eligible db1)
                    (get_source_operators db1 (Source.id source)) <> []).
    { intros E. apply Hnone in E. discriminate E. }
    destruct (filter (eligible db1) _) as [|x l] eqn:Ef in Hpos;
      [rewrite Ef in Hne; congruence|].
    rewrite Hpos. split; [reflexivity|]. split; [exact Hserv'|].
    destruct (Hsome op eq_refl) as [_ [Hroom [a0 [Ha0 Hop0]]]].
    assert (Hid0 : Operator.id op = OperatorSourceAssignment.operator_id a0).
    { unfold assignment_operator, operator_get_by_id in Hop0.
      apply find_some in Hop0. now apply Z.eqb_eq. }
    assert (Hact0 : Operator.is_active op = true).
    { now destruct (Hsome op eq_refl). }
    rewrite <- Hleft. unfold remaining.
    replace (get_source_operators (add_contact c db1) (Source.id source))
      with (get_source_operators db1 (Source.id source)) by reflexivity.
    apply (sum_map_decr OperatorSourceAssignment.operator_id
             (free_slots db1) (free_slots (add_contact c db1)) _ a0).
    + now apply source_operators_distinct.
    + exact Ha0.
    + intros a Ha Hk. unfold free_slots.
      replace (assignment_operator (add_contact c db1) a)
        with (assignment_operator db1 a) by reflexivity.
      destruct (assignment_operator db1 a) as [o|] eqn:Eo; [|reflexivity].
      rewrite count_after_add by reflexivity.
      unfold c, created. cbn [Contact.operator_id option_map col_eqb].
      replace (Operator.id op =? Operator.id o) with false; [now rewrite Z.add_0_r|].
      symmetry. apply Z.eqb_neq. intros E. apply Hk.
      unfold assignment_operator, operator_get_by_id in Eo.
      apply find_some in Eo. destruct Eo as [_ Eo]. apply Z.eqb_eq in Eo.
      congruence.
    + unfold free_slots.
      replace (assignment_operator (add_contact c db1) a0)
        with (assignment_operator db1 a0) by reflexivity.
      rewrite Hop0, Hact0. rewrite count_after_add by reflexivity.
      unfold c, created. cbn [Contact.operator_id option_map col_eqb].
      rewrite Z.eqb_refl. lia.
  - assert (E : filter (eligible db1)
                  (get_source_operators db1 (Source.id source)) = [])
      by now apply Hnone.
    rewrite E in Hpos. rewrite Hpos. split; [reflexivity|].
    split; [exact Hserv'|].
    rewrite Z.sub_0_r, <- Hleft. unfold remaining.
    replace (get_source_operators (add_contact c db1) (Source.id source))
      with (get_source_operators db1 (Source.id source)) by reflexivity.
    f_equal. apply map_ext. intros a. unfold free_slots.
    replace (assignment_operator (add_contact c db1) a)
      with (assignment_operator db1 a) by reflexivity.
    destruct (assignment_operator db1 a) as [o|]; [|reflexivity].
    rewrite count_after_add by reflexivity.
    unfold c, created. cbn [Contact.operator_id option_map col_eqb].
    now rewrite Z.add_0_r.
Qed.

Lemma remaining_nonneg (db : Session) (source_id : Z) :
  0 <= remaining db source_id.
Proof. apply sum_free_positive. Qed.

(** X19. The free slots of a source are used up one by one.  On a store
    that satisfies the constraints of the assignments table, in a run of
    creations against one active source, every creation succeeds, and the
    creation number k (from 0) gets an operator exactly when k is less
    than the number of free slots the source had at the start: the sum,
    over its assignments with an active operator, of the room the
    operator has left under its limit. *)
Theorem free_slots_are_consumed (source : Source.t) :
  forall (requests : list (ContactCreate.t * Z * nat)) (db : Session),
    serving db source ->
    (forall q, In q requests ->
       ContactCreate.source_code (fst (fst q)) = Source.code source) ->
    forall k, (k < List.length requests)%nat ->
      exists c info,
        nth_error (fst (create_many requests db)) k = Some (Ok (c, info))
        /\ is_some (Contact.operator_id c)
           = (Z.of_nat k <? remaining db (Source.id source)).
Proof.
  induction requests as [|[[data now] r] rest IH]; intros db Hserv Hreq k Hk;
    [simpl in Hk; lia|].
  destruct (create_serving db source data now r Hserv
              (Hreq (data, now, r) (or_introl eq_refl)))
    as [c [info [db' [Hc [Hop [Hserv' Hleft]]]]]].
  cbn [create_many]. rewrite Hc.
  destruct (create_many rest db') as [out db''] eqn:Erest.
  cbn [fst]. destruct k as [|k].
  - exists c, info. cbn [nth_error]. now split.
  - cbn [nth_error].
    destruct (IH db' Hserv' (fun q Hq => Hreq q (or_intror Hq)) k)
      as [c' [info' [Hnth Hop']]]; [simpl in Hk; lia|].
    rewrite Erest in Hnth. cbn [fst] in Hnth.
    exists c', info'. split; [exact Hnth|]. rewrite Hop', Hleft.
    pose proof (remaining_nonneg db (Source.id source)) as Hnn.
    destruct (0 <? remaining db (Source.id source)) eqn:E.
    + apply Z.ltb_lt in E.
      destruct (Z.of_nat (S k) <? _) eqn:E2.
      * apply Z.ltb_lt in E2. apply Z.ltb_lt. lia.
      * apply Z.ltb_ge in E2. apply Z.ltb_ge. lia.
    + apply Z.ltb_ge in E.
      replace (Z.of_nat (S k) <? _) with false
        by (symmetry; apply Z.ltb_ge; lia).
      apply Z.ltb_ge. lia.
Qed.

Lemma free_slots_are_consumed_witness :
  exists c info,
    nth_error
      (fst (create_many
              [(request "fill_0" None, 1, 0%nat);
               (request "fill_1" None, 2, 11%nat);
               (request "fill_2" None, 3, 22%nat);
               (request "fill_3" None, 4, 33%nat);
               (request "user_no_op" None, 5, 44%nat)] demo_db)) 4
    = Some (Ok (c, info))
    /\ Contact.operator_id c = None.
Proof.
  assert (Hserv : serving demo_db telegram).
  { split; [reflexivity|]. split; [|now split].
    unfold uq_operator_source.
    repeat constructor; simpl; intuition discriminate. }
  destruct (free_slots_are_consumed telegram
              [(request "fill_0" None, 1, 0%nat);
               (request "fill_1" None, 2, 11%nat);
               (request "fill_2" None, 3, 22%nat);
               (request "fill_3" None, 4, 33%nat);
               (request "user_no_op" None, 5, 44%nat)] demo_db Hserv)
    with (k := 4%nat) as [c [info [Hnth Hop]]].
  - intros q [<-|[<-|[<-|[<-|[<-|[]]]]]]; reflexivity.
  - simpl. lia.
  - exists c, info. split; [exact Hnth|].
    destruct (Contact.operator_id c); [discriminate Hop|reflexivity].
Defined.

(** ** The constraints of the schema along the requests *)

Lemma map_update_keys {A} (key : A -> Z) (l : list A) (row : A) :
  map key (map (fun x => if key x =? key row then row else x) l)
  = map key l.
Proof.
  rewrite map_map. apply map_ext. intros x.
  destruct (key x =? key row) eqn:E; [|reflexivity].
  apply Z.eqb_eq in E. now rewrite E.
Qed.

Lemma lookup_of_member (db : Session) (op : Operator.t) :
  In op (operators db) -> operator_get_by_id db (Operator.id op) <> None.
Proof.
  intros Hin Hnone. unfold operator_get_by_id in Hnone.
  pose proof (find_none _ _ Hnone op Hin) as H. cbn in H.
  now rewrite Z.eqb_refl in H.
Qed.

Lemma well_formed_contacts (db db' : Session) :
  well_formed db ->
  operators db' = operators db -> sources db' = sources db ->
  assignments db' = assignments db -> leads db' = leads db ->
  contacts_pk db' -> contacts_fk db' ->
  well_formed db'.
Proof.
  intros [H1 H2 H3 H4 H5 H6 H7 H8 _ _] Ho Hs Ha Hl Hpk Hfk.
  constructor; try assumption.
  - now rewrite (integrity_ext db db' Ho Ha).
  - unfold operators_pk. now rewrite Ho.
  - unfold sources_pk. now rewrite Hs.
  - unfold sources_uq. now rewrite Hs.
  - unfold assignments_pk. now rewrite Ha.
  - unfold uq_operator_source. now rewrite Ha.
  - unfold leads_pk. now rewrite Hl.
  - unfold leads_uq. now rewrite Hl.
Qed.

Lemma well_formed_leads (db db' : Session) :
  well_formed db ->
  operators db' = operators db -> sources db' = sources db ->
  assignments db' = assignments db -> contacts db' = contacts db ->
  leads_pk db' -> leads_uq db' ->
  well_formed db'.
Proof.
  intros [H1 H2 H3 H4 H5 H6 _ _ H9 H10] Ho Hs Ha Hc Hpk Huq.
  constructor; try assumption.
  - now rewrite (integrity_ext db db' Ho Ha).
  - unfold operators_pk. now rewrite Ho.
  - unfold sources_pk. now rewrite Hs.
  - unfold sources_uq. now rewrite Hs.
  - unfold assignments_pk. now rewrite Ha.
  - unfold uq_operator_source. now rewrite Ha.
  - unfold contacts_pk. now rewrite Hc.
  - unfold contacts_fk, operator_get_by_id in *. now rewrite Ho, Hc.
Qed.

Lemma well_formed_assignments (db db' : Session) :
  well_formed db ->
  operators db' = operators db -> sources db' = sources db ->
  leads db' = leads db -> contacts db' = contacts db ->
  integrity db' = true -> assignments_pk db' -> uq_operator_source db' ->
  well_formed db'.
Proof.
  intros [_ H2 H3 H4 _ _ H7 H8 H9 H10] Ho Hs Hl Hc Hint Hpk Huq.
  constructor; try assumption.
  - unfold operators_pk. now rewrite Ho.
  - unfold sources_pk. now rewrite Hs.
  - unfold sources_uq. now rewrite Hs.
  - unfold leads_pk. now rewrite Hl.
  - unfold leads_uq. now rewrite Hl.
  - unfold contacts_pk. now rewrite Hc.
  - unfold contacts_fk, operator_get_by_id in *. now rewrite Ho, Hc.
Qed.

Lemma well_formed_sources (db db' : Session) :
  well_formed db ->
  operators db' = operators db -> assignments db' = assignments db ->
  leads db' = leads db -> contacts db' = contacts db ->
  sources_pk db' -> sources_uq db' ->
  well_formed db'.
Proof.
  intros [H1 H2 _ _ H5 H6 H7 H8 H9 H10] Ho Ha Hl Hc Hpk Huq.
  constructor; try assumption.
  - now rewrite (integrity_ext db db' Ho Ha).
  - unfold operators_pk. now rewrite Ho.
  - unfold assignments_pk. now rewrite Ha.
  - unfold uq_operator_source. now rewrite Ha.
  - unfold leads_pk. now rewrite Hl.
  - unfold leads_uq. now rewrite Hl.
  - unfold contacts_pk. now rewrite Hc.
  - unfold contacts_fk, operator_get_by_id in *. now rewrite Ho, Hc.
Qed.

Lemma well_formed_operators (db db' : Session) :
  well_formed db ->
  sources db' = sources db -> assignments db' = assignments db ->
  leads db' = leads db -> contacts db' = contacts db ->
  operators_pk db' ->
  (forall k, operator_get_by_id db k <> None ->
             operator_get_by_id db' k <> None) ->
  well_formed db'.
Proof.
  intros [H1 _ H3 H4 H5 H6 H7 H8 H9 H10] Hs Ha Hl Hc Hpk Hlook.
  constructor; try assumption.
  - unfold integrity, assignment_operator in *. rewrite Ha.
    rewrite forallb_forall in *. intros a Hin. specialize (H1 a Hin).
    apply andb_true_iff in H1. destruct H1 as [Hop Hw].
    apply andb_true_iff. split; [|assumption].
    specialize (Hlook (OperatorSourceAssignment.operator_id a)).
    destruct (operator_get_by_id db _); [|discriminate Hop].
    destruct (operator_get_by_id db' _); [reflexivity|].
    exfalso. now apply Hlook.
  - unfold sources_pk. now rewrite Hs.
  - unfold sources_uq. now rewrite Hs.
  - unfold assignments_pk. now rewrite Ha.
  - unfold uq_operator_source. now rewrite Ha.
  - unfold leads_pk. now rewrite Hl.
  - unfold leads_uq. now rewrite Hl.
  - unfold contacts_pk. now rewrite Hc.
  - unfold contacts_fk in *. rewrite Hc. intros c o Hin Ho.
    apply Hlook. now apply (H10 c).
Qed.

Lemma contacts_fk_update (db : Session) (row : Contact.t) :
  contacts_fk db ->
  (forall o, Contact.operator_id row = Some o ->
             operator_get_by_id db o <> None) ->
  contacts_fk (update_contact row db).
Proof.
  intros Hfk Hrow c o Hin Ho. unfold update_contact in Hin.
  cbn [contacts] in Hin. apply in_map_iff in Hin.
  destruct Hin as [x [Hx Hxin]].
  change (operator_get_by_id db o <> None).
  destruct (Contact.id x =? Contact.id row); subst c.
  - now apply Hrow.
  - now apply (Hfk x).
Qed.

Lemma contacts_pk_update (db : Session) (row : Contact.t) :
  contacts_pk db -> contacts_pk (update_contact row db).
Proof.
  unfold contacts_pk, update_contact. cbn [contacts].
  now rewrite map_update_keys.
Qed.

Lemma update_status_well_formed (contact_id : Z) (new_status : string)
  (now : Z) (db : Session) :
  well_formed db ->
  well_formed (snd (update_status contact_id new_status now db)).
Proof.
  intros Hwf. unfold update_status, bind, query, ret, commit.
  destruct (contact_get_by_id db contact_id) as [c|] eqn:Ec; [|exact Hwf].
  cbn [snd]. fold (with_status c new_status now).
  apply (well_formed_contacts db); try reflexivity; try assumption.
  - apply contacts_pk_update, Hwf.
  - apply contacts_fk_update; [apply Hwf|].
    intros o Ho. apply (wf_contacts_fk db Hwf c);
      [now apply (contact_found_in db contact_id)|exact Ho].
Qed.

Lemma reassign_well_formed (contact_id now : Z) (r : nat) (db : Session) :
  well_formed db -> well_formed (snd (reassign contact_id now r db)).
Proof.
  intros Hwf. unfold reassign, bind, query, ret, lift, commit.
  destruct (contact_get_by_id db contact_id) as [c|] eqn:Ec; [|exact Hwf].
  destruct (Contact.status c =? "closed")%string; [exact Hwf|].
  destruct (select_operator db (Contact.source_id c) r)
    as [[operator info]|e] eqn:Esel; [|exact Hwf].
  cbn [snd]. fold (reassigned c operator now).
  apply (well_formed_contacts db); try reflexivity; try assumption.
  - apply contacts_pk_update, Hwf.
  - apply contacts_fk_update; [apply Hwf|].
    intros o Ho. destruct operator as [op|]; [|discriminate Ho].
    cbn in Ho. injection Ho as <-. apply lookup_of_member.
    now destruct (selected_has_room _ _ _ _ _ Esel).
Qed.

Lemma get_or_create_well_formed (external_id : string)
  (name phone email : option string) (now : Z) (db : Session) :
  well_formed db ->
  well_formed (snd (get_or_create external_id name phone email now db)).
Proof.
  intros Hwf.
  pose proof (get_or_create_uq external_id name phone email now db
                (wf_leads_pk db Hwf) (wf_leads_uq db Hwf)) as Huq.
  destruct (get_or_create_spec external_id name phone email now db
              (wf_leads_pk db Hwf))
    as [lead [is_new [db1 [Hl [Hpk _]]]]].
  destruct (get_or_create_frame external_id name phone email now db)
    as [lead' [is_new' [db1' [Hl' [Ho [Hs [Ha Hc]]]]]]].
  rewrite Hl in Hl'. injection Hl' as <- <- <-.
  rewrite Hl in *. cbn [snd] in *.
  now apply (well_formed_leads db).
Qed.

Lemma create_well_formed (data : ContactCreate.t) (now : Z) (r : nat)
  (db : Session) :
  well_formed db -> well_formed (snd (create data now r db)).
Proof.
  intros Hwf.
  destruct (get_by_code db (ContactCreate.source_code data))
    as [source|] eqn:Es;
    [|now rewrite (create_no_source _ _ _ _ Es)].
  destruct (truthy_bool (Source.is_active source)) eqn:Eact;
    [|now rewrite (create_inactive_source _ _ _ _ _ Es Eact)].
  pose proof (get_or_create_well_formed
                (ContactCreate.lead_external_id data)
                (ContactCreate.lead_name data) (ContactCreate.lead_phone data)
                (ContactCreate.lead_email data) now db Hwf) as Hwf1.
  destruct (get_or_create_frame (ContactCreate.lead_external_id data)
              (ContactCreate.lead_name data) (ContactCreate.lead_phone data)
              (ContactCreate.lead_email data) now db)
    as [lead [is_new [db1 [Hl _]]]].
  rewrite Hl in Hwf1. cbn [snd] in Hwf1.
  destruct (select_operator db1 (Source.id source) r)
    as [[operator info']|e] eqn:Esel.
  2:{ now rewrite (create_raise_select _ _ _ _ _ _ _ _ _ Es Eact Hl Esel). }
  rewrite (create_ok _ _ _ _ _ _ _ _ _ _ Es Eact Hl Esel). cbn [snd].
  apply (well_formed_contacts db1); try reflexivity; try assumption.
  - unfold contacts_pk, add_contact. cbn [contacts]. rewrite map_app.
    apply NoDup_next_id. apply Hwf1.
  - intros c o Hin Ho. change (operator_get_by_id db1 o <> None).
    unfold add_contact in Hin. cbn [contacts] in Hin.
    apply in_app_or in Hin. destruct Hin as [Hin|[<-|[]]].
    + now apply (wf_contacts_fk db1 Hwf1 c).
    + destruct operator as [op|]; [|discriminate Ho].
      cbn in Ho. injection Ho as <-. apply lookup_of_member.
      now destruct (selected_has_room _ _ _ _ _ Esel).
Qed.

Lemma create_or_update_tables (data : AssignmentCreate.t) (db : Session) :
  operators (snd (create_or_update data db)) = operators db
  /\ sources (snd (create_or_update data db)) = sources db
  /\ leads (snd (create_or_update data db)) = leads db
  /\ contacts (snd (create_or_update data db)) = contacts db.
Proof.
  unfold create_or_update, bind, query, commit, ret.
  now destruct (find _ (assignments db)).
Qed.

Lemma assign_snd (data : AssignmentCreate.t) (db : Session) :
  snd (assign_operator_to_source data db) = db
  \/ snd (assign_operator_to_source data db)
     = snd (create_or_update data db).
Proof.
  unfold assign_operator_to_source.
  destruct (operator_get_by_id db _); [|now left].
  destruct (source_get_by_id db _); [|now left].
  right. now destruct (create_or_update data db) as [[a|e] db'].
Qed.

Lemma post_assignment_well_formed (data : AssignmentCreate.t)
  (db : Session) :
  well_formed db ->
  well_formed (if valid_assignment data
               then snd (assign_operator_to_source data db) else db).
Proof.
  intros Hwf. destruct (valid_assignment data) eqn:Ev; [|exact Hwf].
  apply andb_true_iff in Ev. destruct Ev as [Hw _]. apply Z.leb_le in Hw.
  pose proof (integrity_assign data db (wf_integrity db Hwf) Hw) as Hint.
  destruct (assign_snd data db) as [E|E]; rewrite E in *; [exact Hwf|].
  destruct (create_or_update_tables data db) as [Ho [Hs [Hl Hc]]].
  destruct (create_or_update_step data db (wf_assignments_pk db Hwf)
              (wf_uq_operator_source db Hwf))
    as [a [_ [_ [_ [Hpk Huq]]]]].
  now apply (well_formed_assignments db).
Qed.

Lemma assignment_delete_well_formed (operator_id source_id : Z)
  (db : Session) :
  well_formed db ->
  well_formed (snd (AssignmentService.delete operator_id source_id db)).
Proof.
  intros Hwf.
  destruct (find (same_pair operator_id source_id) (assignments db))
    as [a|] eqn:Ef.
  - rewrite (assignment_delete_found _ _ _ _ Ef). cbn [snd].
    apply (well_formed_assignments db); try reflexivity; try assumption.
    + apply (integrity_sublist db); [reflexivity| |apply Hwf].
      cbn. intros x Hx. now apply filter_In in Hx.
    + unfold assignments_pk, AssignmentService.delete_assignment.
      cbn [assignments]. apply sublist_map_NoDup, Hwf.
    + unfold uq_operator_source, AssignmentService.delete_assignment.
      cbn [assignments]. apply sublist_map_NoDup, Hwf.
  - now rewrite (assignment_delete_missing _ _ _ Ef).
Qed.

Lemma operator_create_well_formed (data : OperatorCreate.t) (now : Z)
  (db : Session) :
  well_formed db -> well_formed (snd (OperatorService.create data now db)).
Proof.
  intros Hwf. unfold OperatorService.create, bind, query, commit, ret.
  cbn [snd].
  apply (well_formed_operators db); try reflexivity; try assumption.
  - unfold operators_pk, OperatorService.add_operator. cbn [operators].
    rewrite map_app. apply NoDup_next_id, Hwf.
  - intros k Hk. unfold operator_get_by_id, OperatorService.add_operator
      in *. cbn [operators].
    destruct (find _ (operators db)) as [o|] eqn:E; [|congruence].
    now rewrite (find_app_some _ _ _ _ E).
Qed.

Lemma operator_update_well_formed (operator_id : Z)
  (data : OperatorUpdate.t) (db : Session) :
  well_formed db ->
  well_formed (kept db (OperatorService.update operator_id data db)).
Proof.
  intros Hwf. unfold OperatorService.update.
  destruct (operator_get_by_id db operator_id) as [o|]; [|exact Hwf].
  destruct (set_required (OperatorUpdate.name data) _); [|exact Hwf].
  destruct (set_required (OperatorUpdate.is_active data) _); [|exact Hwf].
  destruct (set_required (OperatorUpdate.max_active_contacts data) _);
    [|exact Hwf].
  cbn [kept].
  apply (well_formed_operators db); try reflexivity; try assumption.
  - unfold operators_pk, OperatorService.update_operator. cbn [operators].
    rewrite map_update_keys. apply Hwf.
  - intros k Hk. rewrite operator_lookup_updated.
    now destruct (operator_get_by_id db k).
Qed.

Lemma operator_delete_well_formed (operator_id : Z) (db : Session) :
  well_formed db -> well_formed (snd (OperatorService.delete operator_id db)).
Proof.
  intros Hwf. unfold OperatorService.delete, bind, query, commit, ret.
  destruct (operator_get_by_id db operator_id) as [o|] eqn:Eo; [|exact Hwf].
  cbn [snd]. unfold OperatorService.delete_operator.
  assert (Hlook : forall k,
            k <> Operator.id o ->
            find (fun x => Operator.id x =? k)
              (filter (fun x => negb (Operator.id x =? Operator.id o))
                 (operators db))
            = operator_get_by_id db k).
  { intros k Hk. apply find_filter_same. intros x Hx.
    apply Z.eqb_eq in Hx. apply negb_true_iff, Z.eqb_neq. congruence. }
  destruct Hwf as [H1 H2 H3 H4 H5 H6 H7 H8 H9 H10].
  constructor; try assumption.
  - unfold integrity, assignment_operator, operator_get_by_id in *.
    cbn [operators assignments]. rewrite forallb_forall in *.
    intros a Ha. apply filter_In in Ha. destruct Ha as [Ha Hne].
    apply negb_true_iff, Z.eqb_neq in Hne.
    rewrite (Hlook _ Hne). now apply H1.
  - unfold operators_pk in *. cbn [operators]. now apply sublist_map_NoDup.
  - unfold assignments_pk in *. cbn [assignments].
    now apply sublist_map_NoDup.
  - unfold uq_operator_source in *. cbn [assignments].
    now apply sublist_map_NoDup.
  - unfold contacts_pk in *. cbn [contacts]. rewrite map_map.
    rewrite (map_ext _ Contact.id); [assumption|].
    intros c. unfold OperatorService.unassign.
    now destruct (col_eqb _ _).
  - intros c k Hin Hk. cbn [contacts] in Hin. apply in_map_iff in Hin.
    destruct Hin as [c0 [<- Hc0]]. unfold OperatorService.unassign in Hk.
    destruct (col_eqb (Contact.operator_id c0) (Operator.id o)) eqn:E;
      [discriminate Hk|].
    unfold operator_get_by_id at 1. cbn [operators].
    rewrite Hlook; [now apply (H10 c0)|].
    intros ->. rewrite Hk in E. cbn in E. now rewrite Z.eqb_refl in E.
Qed.

Lemma create_source_well_formed (data : SourceCreate.t) (now : Z)
  (db : Session) :
  well_formed db -> well_formed (snd (create_source data now db)).
Proof.
  intros Hwf. unfold create_source.
  destruct (get_by_code db (SourceCreate.code data)) as [s|] eqn:Ec;
    [exact Hwf|].
  unfold SourceService.create. pose proof Ec as Hex.
  unfold get_by_code in Hex. apply existsb_find_none in Hex. rewrite Hex.
  cbn [snd].
  apply (well_formed_sources db); try reflexivity; try assumption.
  - unfold sources_pk, SourceService.add_source. cbn [sources].
    rewrite map_app. apply NoDup_next_id, Hwf.
  - unfold sources_uq, SourceService.add_source. cbn [sources].
    rewrite map_app. apply NoDup_app_fresh; [apply Hwf|].
    cbn [map Source.code]. intros Hin. apply in_map_iff in Hin.
    destruct Hin as [x [Hc Hx]].
    pose proof (find_none _ _ Ec x Hx) as Hn. cbn in Hn.
    rewrite Hc in Hn. now rewrite String.eqb_refl in Hn.
Qed.

Lemma source_update_well_formed (source_id : Z) (data : SourceUpdate.t)
  (db : Session) :
  well_formed db ->
  well_formed (kept db (SourceService.update source_id data db)).
Proof.
  intros Hwf. unfold SourceService.update.
  destruct (source_get_by_id db source_id) as [s|] eqn:Es; [|exact Hwf].
  destruct (set_required (SourceUpdate.name data) _) as [name|];
    [|exact Hwf].
  cbn [kept].
  apply (well_formed_sources db); try reflexivity; try assumption.
  - unfold sources_pk, SourceService.update_source. cbn [sources].
    rewrite map_update_keys. apply Hwf.
  - unfold sources_uq, SourceService.update_source. cbn [sources].
    rewrite map_map. rewrite (map_ext_in _ Source.code); [apply Hwf|].
    intros x Hx. cbn [Source.id].
    destruct (Source.id x =? Source.id s) eqn:E; [|reflexivity].
    apply Z.eqb_eq in E. cbn [Source.code].
    assert (x = s); [|now subst x].
    apply (NoDup_key_inj Source.id (sources db)); try assumption.
    + apply Hwf.
    + unfold source_get_by_id in Es. now apply find_some in Es.
Qed.

Lemma serve_well_formed (db : Session) (c : call) :
  well_formed db -> well_formed (serve db c).
Proof.
  intros Hwf. destruct c; cbn [serve].
  - now apply create_well_formed.
  - now apply update_status_well_formed.
  - now apply reassign_well_formed.
  - now apply post_assignment_well_formed.
  - now apply assignment_delete_well_formed.
  - now apply operator_create_well_formed.
  - now apply operator_update_well_formed.
  - now apply operator_delete_well_formed.
  - now apply create_source_well_formed.
  - now apply source_update_well_formed.
Qed.

(** X20. Every store reached from the empty one through the requests of
    the API satisfies the constraints of the schema: the foreign keys of
    assignments and contacts to operators, the weight bound, the primary
    keys of the five tables, and the uniqueness of source codes, of lead
    external ids and of (operator, source) pairs. *)
Theorem reachable_stores_are_well_formed (calls : list call) :
  well_formed (fold_left serve calls empty_db).
Proof.
  assert (H0 : well_formed empty_db).
  { constructor; try constructor. intros c o []. }
  revert H0. generalize empty_db.
  induction calls as [|c calls IH]; intros db Hwf; [exact Hwf|].
  cbn [fold_left]. apply IH. now apply serve_well_formed.
Qed.

(** ** The engine draws by weight *)

(** X21. On a store that satisfies the constraints of the assignments
    table, among the [total_weight] equally likely draws of
    [select_operator] for a source, the ones that return the operator of
    an eligible assignment are as many as the weight of that
    assignment. *)
Theorem engine_draws_by_weight (db : Session) (source_id : Z)
  (a : OperatorSourceAssignment.t) (op : Operator.t) :
  integrity db = true -> uq_operator_source db ->
  In a (get_source_operators db source_id) ->
  eligible db a = true ->
  assignment_operator db a = Some op ->
  let available :=
    entries db (filter (eligible db) (get_source_operators db source_id)) in
  Z.of_nat (List.length
              (filter (selects db source_id (Operator.id op))
                 (seq 0 (Z.to_nat (total_weight available)))))
  = OperatorSourceAssignment.weight a.
Proof.
  intros Hint Huq Ha Hel Hop available.
  assert (Hin : In a (filter (eligible db)
                        (get_source_operators db source_id)))
    by (apply filter_In; now split).
  assert (Hne : filter (eligible db) (get_source_operators db source_id)
                <> [])
    by (intros E; now rewrite E in Hin).
  assert (Hw : Forall (fun e => 1 <= av_weight e) available).
  { apply entries_weight, Forall_filter. now apply integrity_weight. }
  pose proof (eligible_set_distinct db source_id Huq) as Hnd.
  fold available in Hnd.
  set (e := mkAvailable op (OperatorSourceAssignment.weight a)
              (get_active_contacts_count db (Operator.id op))).
  assert (He : In e available).
  { apply entries_In. exists a. split; [assumption|].
    unfold entry. now rewrite Hop. }
  change (OperatorSourceAssignment.weight a) with (av_weight e).
  rewrite <- (occurrences_weight available Hw Hnd e He).
  rewrite <- favourable_length. unfold favourable.
  replace (Z.to_nat (total_weight available))
    with (List.length (weighted_choices available))
    by (rewrite <- (weighted_choices_length available Hw); lia).
  f_equal. f_equal. apply filter_ext. intros r. unfold selects.
  destruct (select_some_eligible db source_id r Hint Hne)
    as [op' [Hsel [Hch _]]].
  fold available in Hsel, Hch. now rewrite Hsel, Hch.
Qed.

Lemma engine_draws_by_weight_witness :
  Z.of_nat (List.length (filter (selects demo_db 1 2) (seq 0 40))) = 30.
Proof.
  assert (Huq : uq_operator_source demo_db).
  { unfold uq_operator_source.
    repeat constructor; simpl; intuition discriminate. }
  exact (engine_draws_by_weight demo_db 1
           (OperatorSourceAssignment.mk 2 2 1 30) op2 eq_refl Huq
           (or_intror (or_introl eq_refl)) eq_refl eq_refl).
Defined.
